(** * OptoTarget: the stimulation protocol engine

    A shallow embedding of [optotarget.py], [optotarget/utils.py] and
    [optotarget/io.py].

    Conventions of the embedding.
    - Python exceptions are values: a call either returns ([Ok]) or raises
      ([Raise]); [try / except] is [try_except].
    - numpy arrays of float64 are lists of real numbers.  The values of spin
      boxes that reach an integer truncation ([int(...)], [np.floor]) are
      rationals, so that sample counts compute; every value that only enters
      signal arithmetic is a real.  Rounding of binary floating point is not
      part of the model.
    - A row of the targets table is seen twice: as the texts of its cells
      ([table_row], used by the CSV code, which only moves text) and as the
      numbers those texts parse to ([target], used by the engine, which
      reads every cell through [float(...)] or [int(...)]).
    - The generator behind [np.random] is a library: a draw is a function
      of the number the generator supplies for it, and the loop of
      [start_protocol] is run over a list of such numbers. *)

From Stdlib Require Import ZArith List Bool Lia String Ascii QArith Qround.
From Stdlib Require Import Sorted Reals Lra Qreals.
Import ListNotations.

Set Implicit Arguments.

(** ** Python results *)

Inductive exn : Type :=
| ValueError | IndexError | ZeroDivisionError | AttributeError
| FileNotFoundError | DaqError.

Inductive result (A : Type) : Type :=
| Ok (a : A)
| Raise (e : exn).

Arguments Ok {A} a.
Arguments Raise {A} e.

Definition bind {A B : Type} (m : result A) (k : A -> result B) : result B :=
  match m with
  | Ok a => k a
  | Raise e => Raise e
  end.

Notation "x <- m ;; k" := (bind m (fun x => k))
  (at level 61, m at next level, right associativity).

Fixpoint mapM {A B : Type} (f : A -> result B) (l : list A) : result (list B) :=
  match l with
  | [] => Ok []
  | a :: l' => b <- f a ;; bs <- mapM f l' ;; Ok (b :: bs)
  end.

(** ** numpy and Python primitives used by the sources *)

(** [int(q)]: truncation toward zero. *)
Definition py_int (q : Q) : Z := Z.quot (Qnum q) (Zpos (Qden q)).

(** [range(n)] for an integer [n]; empty when [n <= 0]. *)
Definition range (n : Z) : list Z :=
  map Z.of_nat (seq 0 (Z.to_nat n)).

(** [np.linspace(start, stop, num)] on a count already known to be
    non-negative: [num] evenly spaced samples, both ends included. *)
Definition linspace (start stop : R) (num : nat) : list R :=
  map (fun i => (start + INR i * ((stop - start) / INR (num - 1)))%R)
      (seq 0 num).

(** [np.linspace] raises [ValueError] on a negative number of samples. *)
Definition np_linspace (start stop : R) (num : Z) : result (list R) :=
  if (num <? 0)%Z then Raise ValueError
  else Ok (linspace start stop (Z.to_nat num)).

(** [np.max] of an integer-valued array; raises on the empty array. *)
Definition np_max (l : list Z) : result Z :=
  match l with
  | [] => Raise ValueError
  | a :: l' => Ok (fold_left Z.max l' a)
  end.

(** [np.zeros(n)] raises [ValueError] on a negative dimension; only the
    success or failure of the allocation is needed here. *)
Definition np_zeros_shape (n : Z) : result unit :=
  if (n <? 0)%Z then Raise ValueError else Ok tt.

(** [np.sum(groups == g)] *)
Definition count_eq (g : Z) (groups : list Z) : Z :=
  Z.of_nat (List.length (filter (fun v => (v =? g)%Z) groups)).

(** [np.sum(groups != g)] *)
Definition count_neq (g : Z) (groups : list Z) : Z :=
  Z.of_nat (List.length (filter (fun v => negb (v =? g)%Z) groups)).

(** [np.sort] on integers (insertion sort; the order of equal keys does not
    show on integers). *)
Fixpoint insert_sorted (a : Z) (l : list Z) : list Z :=
  match l with
  | [] => [a]
  | b :: l' => if (a <=? b)%Z then a :: l else b :: insert_sorted a l'
  end.

Definition np_sort (l : list Z) : list Z :=
  fold_right insert_sorted [] l.

(** [np.unique]: sort, then keep an element when it differs from the one
    before it. *)
Fixpoint drop_adjacent_dups (l : list Z) : list Z :=
  match l with
  | [] => []
  | a :: l' =>
      match l' with
      | [] => [a]
      | b :: _ => if (a =? b)%Z then drop_adjacent_dups l'
                  else a :: drop_adjacent_dups l'
      end
  end.

Definition np_unique (l : list Z) : list Z :=
  drop_adjacent_dups (np_sort l).

(** [np.diff] on integers: [out[i] = a[i+1] - a[i]]. *)
Fixpoint np_diff (l : list Z) : list Z :=
  match l with
  | [] => []
  | a :: l' =>
      match l' with
      | [] => []
      | b :: _ => (b - a)%Z :: np_diff l'
      end
  end.

(** [np.repeat(a, k)]: every element [k] times in a row. *)
Definition np_repeat {A : Type} (a : list A) (k : nat) : list A :=
  flat_map (fun v => repeat v k) a.

(** [np.tile(a, reps)]: the whole array [reps] times. *)
Definition np_tile {A : Type} (a : list A) (reps : nat) : list A :=
  List.concat (repeat a reps).

(** Normalisation of one bound of a Python slice over a sequence of
    length [len]: negative bounds count from the end, then both are
    clipped. *)
Definition slice_bound (len i : Z) : Z :=
  if (i <? 0)%Z then Z.max (i + len) 0 else Z.min i len.

(** [row[start:stop] = v] for a scalar [v]. *)
Fixpoint fill_from {A : Type} (k : Z) (lo hi : Z) (v : A) (row : list A)
  : list A :=
  match row with
  | [] => []
  | a :: row' =>
      (if ((lo <=? k) && (k <? hi))%Z then v else a)
        :: fill_from (k + 1) lo hi v row'
  end.

Definition assign_slice {A : Type} (row : list A) (start stop : Z) (v : A)
  : list A :=
  let len := Z.of_nat (List.length row) in
  fill_from 0 (slice_bound len start) (slice_bound len stop) v row.

(** Element-wise product of two one-dimensional arrays with numpy's
    broadcasting: equal lengths, or one of them of length 1. *)
Fixpoint zip_mul (a b : list R) : list R :=
  match a, b with
  | x :: a', y :: b' => (x * y)%R :: zip_mul a' b'
  | _, _ => []
  end.

Definition broadcast_mul (a b : list R) : result (list R) :=
  if Nat.eqb (List.length a) (List.length b) then Ok (zip_mul a b)
  else match a, b with
       | [x], _ => Ok (map (fun y => (x * y)%R) b)
       | _, [y] => Ok (map (fun x => (x * y)%R) a)
       | _, _ => Raise ValueError
       end.

(** Assignment of a one-dimensional value to a slice or row of [n]
    elements: same length, or a single element repeated. *)
Definition broadcast_to (n : nat) (v : list R) : result (list R) :=
  if Nat.eqb (List.length v) n then Ok v
  else match v with
       | [x] => Ok (repeat x n)
       | _ => Raise ValueError
       end.

(** [np.mean] *)
Definition np_mean (l : list R) : R :=
  (fold_right Rplus 0 l / INR (List.length l))%R.

(** [x != y] on floats. *)
Definition Rneqb (x y : R) : bool :=
  if Req_dec_T x y then false else true.

(** [np.where((np.diff(x) != 0) | (np.diff(y) != 0))[0]]: the indices [i],
    counted from [k], at which [x[i+1] != x[i]] or [y[i+1] != y[i]]. *)
Fixpoint changes_from (k : Z) (xs ys : list R) : list Z :=
  match xs, ys with
  | x0 :: xs', y0 :: ys' =>
      match xs', ys' with
      | x1 :: _, y1 :: _ =>
          if Rneqb x1 x0 || Rneqb y1 y0
          then k :: changes_from (k + 1) xs' ys'
          else changes_from (k + 1) xs' ys'
      | _, _ => []
      end
  | _, _ => []
  end.

(** ** optotarget/io.py: the waveform *)

(** [np.mod(a, b)] for a positive [b]: the remainder in [[0, b)]. *)
Definition np_mod (a b : R) : R := (a - IZR (Int_part (a / b)) * b)%R.

(** Modelled from the spec: [scipy.signal.square] is a library function and
    not part of the repository.  "square_wave yields +1 for the active
    fraction of each period (duty_cycle%) and -1 otherwise"; the period is
    [2*pi] and the documented domain of [duty] is [[0, 1]]. *)
Definition square (t duty : R) : R :=
  if Rlt_dec (np_mod t (2 * PI)) (duty * (2 * PI)) then 1%R else (-1)%R.

Definition create_stim (times : list R) (freq : R) (sin : bool)
           (duty_cycle : R) : list R :=
  if sin
  then map (fun t => ((Rtrigo_def.sin (2 * PI * t * freq) + 1) / 2)%R) times
  else map (fun t => ((square (2 * PI * t * freq) (duty_cycle / 100) + 1) / 2)%R)
           times.

(** ** optotarget/utils.py: the output matrix *)

Record target : Type := {
  name : string;       (* vertical header of the row *)
  intensity : R;       (* column 0, through float() *)
  x : R;               (* column 1, through float() *)
  y : R;               (* column 2, through float() *)
  group : Z            (* column 3, through int() *)
}.

(** The widgets [create_output] reads. *)
Record ui_state : Type := {
  on_dur : Q;
  taper_dur : Q;
  sample_rate : Q;
  stim_freq : R;
  sin_stim : bool;
  duty_cycle : R;
  switch_freq : Q;
  switch_dur : Q;
  targets_table : list target
}.

Record output : Type := {
  regions : list string;
  intensity_matrix : list (list R);
  x_matrix : list (list R);
  y_matrix : list (list R)
}.

(** [vec[-taper_points:] = vec[-taper_points:] * np.linspace(1, 0, taper_points)] *)
Definition taper (vec : list R) (taper_points : Z) : result (list R) :=
  let len := Z.of_nat (List.length vec) in
  let start := Z.to_nat (slice_bound len (- taper_points)) in
  let tail := skipn start vec in
  ramp <- np_linspace 1 0 taper_points ;;
  prod <- broadcast_mul tail ramp ;;
  new_tail <- broadcast_to (List.length tail) prod ;;
  Ok (firstn start vec ++ new_tail).

(** The loop over the change indices:
    [intensity_matrix[group, (change-1):(change+switch_points-1)] = 0]. *)
Definition blank (row : list R) (switch_points : Z) (changes : list Z)
  : list R :=
  fold_left
    (fun r change => assign_slice r (change - 1) (change + switch_points - 1) 0%R)
    changes row.

(** [np.where(groups == g)[0]], as the rows themselves, in table order. *)
Definition members (g : Z) (table : list target) : list target :=
  filter (fun t => (group t =? g)%Z) table.

(** One row of [x_matrix] or [y_matrix] of a multi-site group:
    [np.tile(np.repeat(positions, cycle_points),
             int(np.ceil(n / cycle_points)))[:n]], stored in a row of [n]. *)
Definition alternate (positions : list R) (cycle_points : Z) (n : nat)
  : result (list R) :=
  cycle <- (if (cycle_points <? 0)%Z then Raise ValueError
            else Ok (np_repeat positions (Z.to_nat cycle_points))) ;;
  reps <- (if (cycle_points =? 0)%Z then Raise ZeroDivisionError
           else Ok (Qceiling (inject_Z (Z.of_nat n) / inject_Z cycle_points))) ;;
  tiled <- (if (reps <? 0)%Z then Raise ValueError
            else Ok (np_tile cycle (Z.to_nat reps))) ;;
  broadcast_to n (firstn n tiled).

(** The body of the loop over [range(n_groups)]: label and the three rows
    of one group. *)
Definition build_group (ui : ui_state) (times : list R) (taper_points : Z)
           (g : Z) : result (string * (list R * (list R * list R))) :=
  let table := targets_table ui in
  let groups := map group table in
  let rows := members g table in
  let region := String.concat ", " (map name rows) in
  if (2 <=? count_eq g groups)%Z then
    let intensity_vec :=
      create_stim times (stim_freq ui) (sin_stim ui) (duty_cycle ui) in
    intensity_vec <- taper intensity_vec taper_points ;;
    let intensity := np_mean (map intensity rows) in
    let irow := map (fun v => (v * intensity)%R) intensity_vec in
    cycle_points <- (if Qeq_bool (switch_freq ui) 0 then Raise ZeroDivisionError
                     else Ok (Qfloor (sample_rate ui / switch_freq ui))) ;;
    xrow <- alternate (map x rows) cycle_points (List.length times) ;;
    yrow <- alternate (map y rows) cycle_points (List.length times) ;;
    let switch_points := Qfloor (switch_dur ui * sample_rate ui / 1000) in
    let changes := changes_from 0 xrow yrow in
    Ok (region, (blank irow switch_points changes, (xrow, yrow)))
  else
    match rows with
    | [] => Raise IndexError
    | row :: _ =>
        let intensity_vec :=
          create_stim times (stim_freq ui) (sin_stim ui) (duty_cycle ui) in
        intensity_vec <- taper intensity_vec taper_points ;;
        let irow := map (fun v => (v * intensity row)%R) intensity_vec in
        Ok (region, (irow, (repeat (x row) (List.length times),
                            repeat (y row) (List.length times))))
    end.

Definition create_output (ui : ui_state) : result output :=
  let on_points := py_int (on_dur ui * sample_rate ui) in
  let taper_points := py_int (taper_dur ui * sample_rate ui) in
  let total_time := (on_dur ui + taper_dur ui)%Q in
  times <- np_linspace 0 (Q2R total_time) (on_points + taper_points) ;;
  let groups := map group (targets_table ui) in
  top <- np_max groups ;;
  let n_groups := (top + 1)%Z in
  _ <- np_zeros_shape (n_groups + 1) ;;
  _ <- np_zeros_shape n_groups ;;
  built <- mapM (build_group ui times taper_points) (range n_groups) ;;
  Ok {| regions := map fst built;
        intensity_matrix := map (fun b => fst (snd b)) built;
        x_matrix := map (fun b => fst (snd (snd b))) built;
        y_matrix := map (fun b => snd (snd (snd b))) built |}.

(** [get_groups(targets_table, cur_row, new_group)]: the group column, with
    one entry overwritten when a row index is given (numpy indexing: a
    negative index counts from the end, an index out of range raises). *)
Fixpoint set_nth {A : Type} (i : nat) (v : A) (l : list A) : list A :=
  match l, i with
  | [], _ => []
  | _ :: l', O => v :: l'
  | a :: l', S i' => a :: set_nth i' v l'
  end.

Definition get_groups (table : list target) (edit : option (Z * Z))
  : result (list Z) :=
  let groups := map group table in
  match edit with
  | None => Ok groups
  | Some (cur_row, new_group) =>
      let len := Z.of_nat (List.length groups) in
      let i := if (cur_row <? 0)%Z then (cur_row + len)%Z else cur_row in
      if ((0 <=? i) && (i <? len))%Z
      then Ok (set_nth (Z.to_nat i) new_group groups)
      else Raise IndexError
  end.

(** ** optotarget/io.py: status files and the NI card *)

(** The part of the machine the I/O functions touch: which names (a card,
    or the channels of a card) the driver can reach, the files on disk,
    and the operations the card has carried out. *)
Definition filesystem : Type := string -> option string.

Inductive hw_op : Type :=
| ResetDevice (card : string)
| WriteScalar (card : string) (channel : Z) (val : R)
| WriteContinuous (card : string) (channel : Z) (sr : Q) (vec : list R)
| WritePulse (card : string) (channel : Z) (sr : Q) (vec : list R)
| WriteTriggered (channels : string) (sr : Q) (trigger : string)
                 (out_matrix : list (list R)).

Record world : Type := {
  answers : string -> bool;
  files : filesystem;
  hw_log : list hw_op
}.

(** The handle [analog_out_wave] returns: a task left running. *)
Inductive task : Type :=
| running_task (card : string) (channel : Z).

(** A Python call on the machine: it returns or raises, and leaves the
    machine in a new state either way. *)
Definition io (A : Type) : Type := world -> result A * world.

Definition ret {A : Type} (a : A) : io A := fun w => (Ok a, w).

Definition raise {A : Type} (e : exn) : io A := fun w => (Raise e, w).

Definition io_bind {A B : Type} (m : io A) (k : A -> io B) : io B :=
  fun w => match m w with
           | (Ok a, w') => k a w'
           | (Raise e, w') => (Raise e, w')
           end.

Notation "m >> k" := (io_bind m (fun _ => k))
  (at level 62, right associativity).

Definition lift {A : Type} (r : result A) : io A := fun w => (r, w).

(** [try: body except: handler] with a bare [except]. *)
Definition try_except {A : Type} (body : io A) (handler : io A) : io A :=
  fun w => match body w with
           | (Ok a, w') => (Ok a, w')
           | (Raise _, w') => handler w'
           end.

Definition write_file (path content : string) : io unit :=
  fun w => (Ok tt,
            {| answers := answers w;
               files := fun p => if String.eqb p path then Some content
                                 else files w p;
               hw_log := hw_log w |}).

Definition append_file (path content : string) : io unit :=
  fun w => (Ok tt,
            {| answers := answers w;
               files := fun p =>
                          if String.eqb p path
                          then Some (match files w path with
                                     | Some old => (old ++ content)%string
                                     | None => content
                                     end)
                          else files w p;
               hw_log := hw_log w |}).

(** A driver call that needs the device behind [name]: it raises when the
    device does not answer, otherwise the card carries out [op]. *)
Definition daq (name : string) (op : hw_op) : io unit :=
  fun w => if answers w name
           then (Ok tt, {| answers := answers w; files := files w;
                           hw_log := hw_log w ++ [op] |})
           else (Raise DaqError, w).

(** [task.ao_channels.add_ao_voltage_chan]: opening a channel needs the
    device but outputs nothing yet. *)
Definition add_ao_voltage_chan (name : string) : io unit :=
  fun w => if answers w name then (Ok tt, w) else (Raise DaqError, w).

(** [os.path.join(cwd, file)] for a relative [file]. *)
Definition path_join (cwd file : string) : string :=
  (cwd ++ "/" ++ file)%string.

Definition log_status (status cwd : string) : io unit :=
  write_file (path_join cwd "status.txt") status.

Definition log_last_stimulation (region cwd : string) : io unit :=
  write_file (path_join cwd "stim.txt") region.

Definition newline : string := String (ascii_of_nat 10) EmptyString.

Definition log_stimulation (region time cwd : string) : io unit :=
  append_file (path_join cwd "log.txt") (region ++ " at " ++ time) >>
  append_file (path_join cwd "log.txt") newline.

Definition could_not_connect : string :=
  "Could not connect to NI card. Please set name and press test.".

Definition analog_out_single (card : string) (channel : Z) (val : R)
           (cwd : string) : io unit :=
  try_except
    (add_ao_voltage_chan card >> daq card (WriteScalar card channel val))
    (log_status could_not_connect cwd).

Definition analog_out_wave (card : string) (channel : Z) (sr : Q)
           (vec : list R) : io task :=
  add_ao_voltage_chan card >>
  daq card (WriteContinuous card channel sr vec) >>
  ret (running_task card channel).

Definition analog_out_pulse (card : string) (channel : Z) (sr : Q)
           (vec : list R) : io unit :=
  add_ao_voltage_chan card >> daq card (WritePulse card channel sr vec).

Definition reset (ni_card cwd : string) : io unit :=
  try_except
    (daq ni_card (ResetDevice ni_card) >> log_status "Ready." cwd)
    (log_status could_not_connect cwd).

(** ** optotarget/io.py: the protocol loop *)

(** Modelled from the spec: the generator of [np.random] is a library and
    not part of the repository.  A draw is represented by the number [e]
    the generator supplies for it, and equally likely numbers give equally
    likely values.  [np.random.random()] is "a uniform random value" of
    [[0, 1)]: the fractional part of [e]. *)
Definition np_random_random (e : Q) : Q := e - inject_Z (Qfloor e).

(** Modelled from the spec: [np.random.randint(low, high)] draws
    "uniformly at random" from the integers of [[low, high)], the residue
    of [e] counted from [low]; it raises when that range is empty. *)
Definition np_random_randint (low high : Z) (e : Z) : result Z :=
  if (high <=? low)%Z then Raise ValueError
  else Ok (low + e mod (high - low))%Z.

(** The choice of the group at the head of the loop body; [eu] and [ek]
    stand for the two draws of the generator, the second of which is only
    made in the last branch. *)
Definition select_group (stim_prob : Q) (n_rows : Z) (eu : Q) (ek : Z)
  : result Z :=
  if Qlt_le_dec stim_prob (100 * np_random_random eu) then Ok 0%Z
  else if (n_rows =? 1)%Z then Ok 0%Z
  else np_random_randint 1 n_rows ek.

(** [a[i]] for a non-negative [i]. *)
Definition index {A : Type} (l : list A) (i : Z) : result A :=
  match nth_error l (Z.to_nat i) with
  | Some a => if (0 <=? i)%Z then Ok a else Raise IndexError
  | None => Raise IndexError
  end.

(** [np.vstack((a, b, c))] of three one-dimensional arrays: it raises
    unless they have the same length. *)
Definition np_vstack (a b c : list R) : result (list (list R)) :=
  if Nat.eqb (List.length a) (List.length b)
     && Nat.eqb (List.length b) (List.length c)
  then Ok [a; b; c]
  else Raise ValueError.

(** One pass of the loop body of [start_protocol]; [eu] and [ek] stand for
    the draws of the generator and [now] is the text of
    [datetime.datetime.now()]. *)
Definition protocol_iteration (channels : string) (sr : Q) (trigger : string)
           (out : output) (stim_prob : Q) (cwd : string)
           (eu : Q) (ek : Z) (now : string) : io unit :=
  io_bind (lift (select_group stim_prob
                   (Z.of_nat (List.length (intensity_matrix out))) eu ek))
    (fun g =>
  io_bind (if (g =? 0)%Z
           then log_status "Waiting to apply control stimulation." cwd
           else io_bind (lift (index (regions out) g)) (fun r =>
                log_status ("Waiting to apply " ++ r ++ " stimulation.") cwd))
    (fun _ =>
  io_bind (lift (index (intensity_matrix out) g)) (fun irow =>
  io_bind (lift (index (x_matrix out) g)) (fun xrow =>
  io_bind (lift (index (y_matrix out) g)) (fun yrow =>
  io_bind (lift (np_vstack irow xrow yrow)) (fun out_matrix =>
  add_ao_voltage_chan channels >>
  daq channels (WriteTriggered channels sr trigger out_matrix) >>
  io_bind (lift (index (regions out) g)) (fun r =>
  log_last_stimulation r cwd >> log_stimulation r now cwd))))))).

(** [start_protocol]: the loop has no exit and ends when its process is
    terminated; the passes made until then are given by the list of
    their draws and completion times. *)
Fixpoint start_protocol (channels : string) (sr : Q) (trigger : string)
         (out : output) (stim_prob : Q) (cwd : string)
         (draws : list (Q * Z * string)) : io unit :=
  match draws with
  | [] => ret tt
  | (eu, ek, now) :: draws' =>
      protocol_iteration channels sr trigger out stim_prob cwd eu ek now >>
      start_protocol channels sr trigger out stim_prob cwd draws'
  end.

(** ** optotarget.py: starting and stopping the protocol *)

Inductive action : Type :=
| Message (text : string)            (* ot.message(text) *)
| StopTask                           (* self.stop_task() *)
| ResetCard                          (* ot.reset(card, cwd) *)
| ZeroAll                            (* self.zero_all() *)
| StartProcess (out : output) (stim_prob : Q)
| TerminateProcess                   (* self.protocol.terminate() *)
| LogLastStimulation (region : string)
| LogStatus (status : string)
| ZeroAllLater                       (* QTimer.singleShot(200, zero_all) *)
| Uncaught (e : exn).                (* exception leaving the slot *)

Record gui : Type := {
  switch_protocol_btn_text : string;
  switch_protocol_btn_checked : bool;
  stim_prob_value : Q;
  widgets : ui_state;
  protocol : option (output * Q)   (* self.protocol, once it exists *)
}.

Definition set_btn (g : gui) (text : string) (checked : bool) : gui :=
  {| switch_protocol_btn_text := text;
     switch_protocol_btn_checked := checked;
     stim_prob_value := stim_prob_value g;
     widgets := widgets g;
     protocol := protocol g |}.

(** [self.protocol = multiprocessing.Process(...)] *)
Definition set_protocol (g : gui) (out : output) (stim_prob : Q) : gui :=
  {| switch_protocol_btn_text := switch_protocol_btn_text g;
     switch_protocol_btn_checked := switch_protocol_btn_checked g;
     stim_prob_value := stim_prob_value g;
     widgets := widgets g;
     protocol := Some (out, stim_prob) |}.

Definition switch_protocol (g : gui) : gui * list action :=
  let table := targets_table (widgets g) in
  if String.eqb (switch_protocol_btn_text g) "Start protocol" then
    if Nat.eqb (List.length table) 0 then
      (set_btn g (switch_protocol_btn_text g) false,
       [Message "No targets in table"])
    else
      match get_groups table None with
      | Raise e => (g, [Uncaught e])
      | Ok groups =>
          let unique_groups := np_unique groups in
          if (count_eq 0 groups =? 0)%Z then
            (set_btn g (switch_protocol_btn_text g) false,
             [Message "No control group in table"])
          else if (count_neq 0 groups =? 0)%Z then
            (set_btn g (switch_protocol_btn_text g) false,
             [Message "No non-zero groups in table"])
          else if negb (count_neq 1 (np_diff (np_sort unique_groups)) =? 0)%Z
          then
            (set_btn g (switch_protocol_btn_text g) false,
             [Message "group values are not consecutive"])
          else
            let g' := set_btn g "Stop protocol" (switch_protocol_btn_checked g) in
            match create_output (widgets g) with
            | Raise e => (g', [StopTask; ResetCard; ZeroAll; Uncaught e])
            | Ok out =>
                (set_protocol g' out (stim_prob_value g),
                 [StopTask; ResetCard; ZeroAll;
                  StartProcess out (stim_prob_value g)])
            end
      end
  else
    let g' := set_btn g "Start protocol" (switch_protocol_btn_checked g) in
    match protocol g with
    | None => (g', [Uncaught AttributeError])
    | Some _ =>
        (g', [TerminateProcess; LogLastStimulation "none"; LogStatus "Ready.";
              ResetCard; ZeroAllLater])
    end.

(** The actions that reach the card or the protocol process. *)
Definition hardware_io (a : action) : bool :=
  match a with
  | StopTask | ResetCard | ZeroAll | StartProcess _ _
  | TerminateProcess | ZeroAllLater => true
  | Message _ | LogLastStimulation _ | LogStatus _ | Uncaught _ => false
  end.

(** ** optotarget.py: saving and loading the targets table *)

(** A row as the table widget holds it: the text of the vertical header and
    the texts of the items set so far, in column order (a complete row has
    four). *)
Record table_row : Type := {
  header : string;
  cells : list string
}.

Definition comma : ascii := ascii_of_nat 44.
Definition LF : ascii := ascii_of_nat 10.
Definition CR : ascii := ascii_of_nat 13.

(** [file.write(item(row, col).text() + ',')] for the next [n] columns; an
    item that was never set is [None].  Returns the text written and
    whether the loop raised. *)
Fixpoint write_cells (n : nat) (items : list string) : string * result unit :=
  match n with
  | O => (EmptyString, Ok tt)
  | S n' =>
      match items with
      | [] => (EmptyString, Raise AttributeError)
      | c :: items' =>
          let (rest, res) := write_cells n' items' in
          ((c ++ String comma rest)%string, res)
      end
  end.

Definition write_row (r : table_row) : string * result unit :=
  let (body, res) := write_cells 4 (cells r) in
  match res with
  | Ok _ =>
      ((header r ++ String comma (body ++ String LF EmptyString))%string, Ok tt)
  | Raise e => ((header r ++ String comma body)%string, Raise e)
  end.

(** The text written by the loop over the rows; on an exception the text
    written before it stays in the file. *)
Fixpoint write_rows (table : list table_row) : string * result unit :=
  match table with
  | [] => (EmptyString, Ok tt)
  | r :: table' =>
      match write_row r with
      | (part, Raise e) => (part, Raise e)
      | (line, Ok _) =>
          let (text, res) := write_rows table' in
          ((line ++ text)%string, res)
      end
  end.

Definition save_all (fname : string) (table : list table_row)
           (fs : filesystem) : filesystem * result unit :=
  if String.eqb fname EmptyString then (fs, Ok tt)
  else
    let (text, res) := write_rows table in
    ((fun p => if String.eqb p fname then Some text else fs p), res).

(** Reading in text mode: [\r\n] and [\r] arrive as [\n]. *)
Fixpoint universal_newlines (s : string) : string :=
  match s with
  | EmptyString => EmptyString
  | String a s' =>
      if Ascii.eqb a CR then
        match s' with
        | String b s'' =>
            if Ascii.eqb b LF then String LF (universal_newlines s'')
            else String LF (universal_newlines s')
        | EmptyString => String LF EmptyString
        end
      else String a (universal_newlines s')
  end.

(** [for line in file]: the lines, each with its ending newline. *)
Fixpoint lines (s : string) : list string :=
  match s with
  | EmptyString => []
  | String a s' =>
      if Ascii.eqb a LF then String a EmptyString :: lines s'
      else match lines s' with
           | l :: ls => String a l :: ls
           | [] => [String a EmptyString]
           end
  end.

(** [line.split(',')] *)
Fixpoint split_comma (s : string) : list string :=
  match s with
  | EmptyString => [EmptyString]
  | String a s' =>
      if Ascii.eqb a comma then EmptyString :: split_comma s'
      else match split_comma s' with
           | f :: fs => String a f :: fs
           | [] => [String a EmptyString]
           end
  end.

(** [setItem(row, col, row_text[col+1])] for the columns from [col] on;
    returns the items set and whether an index was out of range. *)
Fixpoint set_items (n : nat) (fields : list string) : list string * result unit :=
  match n with
  | O => ([], Ok tt)
  | S n' =>
      match fields with
      | [] => ([], Raise IndexError)
      | f :: fields' =>
          let (items, res) := set_items n' fields' in
          (f :: items, res)
      end
  end.

(** The loop over the lines of the file, appending to [table]. *)
Fixpoint load_lines (ls : list string) (table : list table_row)
  : list table_row * result unit :=
  match ls with
  | [] => (table, Ok tt)
  | line :: ls' =>
      match split_comma line with
      | [] => (table, Raise IndexError)
      | h :: fields =>
          let (items, res) := set_items 4 fields in
          let table' := table ++ [{| header := h; cells := items |}] in
          match res with
          | Ok _ => load_lines ls' table'
          | Raise e => (table', Raise e)
          end
      end
  end.

Definition load_all (fname : string) (table : list table_row)
           (fs : filesystem) : list table_row * result unit :=
  if String.eqb fname EmptyString then (table, Ok tt)
  else
    match fs fname with
    | None => (table, Raise FileNotFoundError)
    | Some text => load_lines (lines (universal_newlines text)) []
    end.

(** ** The rows of the output matrix, as total functions

    What [create_output] stores when no step raises; the section on the
    output matrix proves that it returns exactly these rows. *)

(** [vec] with its last [length ramp] samples multiplied by [ramp]. *)
Definition scale_tail (vec ramp : list R) : list R :=
  let start := (List.length vec - List.length ramp)%nat in
  firstn start vec ++ zip_mul (skipn start vec) ramp.

(** The positions of a multi-site group over [n] samples. *)
Definition positions_row {A : Type} (positions : list A) (cycle_points : Z)
           (n : nat) : list A :=
  firstn n
    (np_tile (np_repeat positions (Z.to_nat cycle_points))
       (Z.to_nat (Qceiling (inject_Z (Z.of_nat n) / inject_Z cycle_points)))).

Definition on_points (ui : ui_state) : Z :=
  py_int (on_dur ui * sample_rate ui).

Definition taper_points (ui : ui_state) : Z :=
  py_int (taper_dur ui * sample_rate ui).

Definition n_samples (ui : ui_state) : nat :=
  Z.to_nat (on_points ui + taper_points ui).

Definition cycle_points (ui : ui_state) : Z :=
  Qfloor (sample_rate ui / switch_freq ui).

Definition switch_points (ui : ui_state) : Z :=
  Qfloor (switch_dur ui * sample_rate ui / 1000).

Definition times_of (ui : ui_state) : list R :=
  linspace 0 (Q2R (on_dur ui + taper_dur ui)) (n_samples ui).

(** The waveform over the whole run. *)
Definition stim_of (ui : ui_state) : list R :=
  create_stim (times_of ui) (stim_freq ui) (sin_stim ui) (duty_cycle ui).

(** The tapered waveform, before it is scaled by an intensity. *)
Definition tapered_stim (ui : ui_state) : list R :=
  scale_tail (stim_of ui) (linspace 1 0 (Z.to_nat (taper_points ui))).

Definition multi_site (ui : ui_state) (g : Z) : bool :=
  (2 <=? count_eq g (map group (targets_table ui)))%Z.

Definition x_row (ui : ui_state) (g : Z) : list R :=
  let rows := members g (targets_table ui) in
  if multi_site ui g
  then positions_row (map x rows) (cycle_points ui) (n_samples ui)
  else match rows with
       | row :: _ => repeat (x row) (n_samples ui)
       | [] => []
       end.

Definition y_row (ui : ui_state) (g : Z) : list R :=
  let rows := members g (targets_table ui) in
  if multi_site ui g
  then positions_row (map y rows) (cycle_points ui) (n_samples ui)
  else match rows with
       | row :: _ => repeat (y row) (n_samples ui)
       | [] => []
       end.

Definition intensity_row (ui : ui_state) (g : Z) : list R :=
  let rows := members g (targets_table ui) in
  if multi_site ui g
  then blank (map (fun v => (v * np_mean (map intensity rows))%R)
                  (tapered_stim ui))
             (switch_points ui)
             (changes_from 0 (x_row ui g) (y_row ui g))
  else match rows with
       | row :: _ => map (fun v => (v * intensity row)%R) (tapered_stim ui)
       | [] => []
       end.

Definition region_label (ui : ui_state) (g : Z) : string :=
  String.concat ", " (map name (members g (targets_table ui))).

(** The largest group id of a non-empty column. *)
Definition max_group (groups : list Z) : Z :=
  match groups with
  | [] => 0%Z
  | a :: l => fold_left Z.max l a
  end.

(** The timing under which one group with members is built: a
    non-negative number of on-samples, at least one taper sample, and a
    switch cadence of at least one sample. *)
Definition timing_ok (ui : ui_state) : Prop :=
  (0 <= on_points ui)%Z /\ (1 <= taper_points ui)%Z /\
  Qeq_bool (switch_freq ui) 0 = false /\ (1 <= cycle_points ui)%Z.

(** The inputs on which the build goes through: such a timing, and a table
    with a non-negative largest id and every id up to it in use. *)
Definition buildable (ui : ui_state) : Prop :=
  timing_ok ui /\
  targets_table ui <> [] /\
  (0 <= max_group (map group (targets_table ui)))%Z /\
  (forall g, (0 <= g <= max_group (map group (targets_table ui)))%Z ->
             members g (targets_table ui) <> []).

(** The output [create_output] returns on a buildable input. *)
Definition built_output (ui : ui_state) : output :=
  let ids := range (max_group (map group (targets_table ui)) + 1) in
  {| regions := map (region_label ui) ids;
     intensity_matrix := map (intensity_row ui) ids;
     x_matrix := map (x_row ui) ids;
     y_matrix := map (y_row ui) ids |}.

(** A timing configuration with non-negative durations and a positive
    sample rate. *)
Definition consistent (ui : ui_state) : Prop :=
  0 <= on_dur ui /\ 0 <= taper_dur ui /\ 0 < sample_rate ui.

(** Every row of a matrix has [n] samples. *)
Definition rows_of_length (n : nat) (m : list (list R)) : Prop :=
  Forall (fun row => List.length row = n) m.

(** ** What the specification asks of a run *)

(** The trial-selection invariants, on the group column of the table. *)
Definition has_targets (groups : list Z) : Prop := groups <> [].

Definition has_control (groups : list Z) : Prop := In 0%Z groups.

Definition has_treatment (groups : list Z) : Prop :=
  exists v, In v groups /\ v <> 0%Z.

(** The distinct ids form a consecutive run starting at 0: they are
    exactly the integers of [[0, top]]. *)
Definition consecutive_from_zero (groups : list Z) : Prop :=
  exists top, forall v, In v groups <-> (0 <= v <= top)%Z.

Definition trial_selection_invariants (groups : list Z) : Prop :=
  has_targets groups /\ has_control groups /\ has_treatment groups /\
  consecutive_from_zero groups.

(** The distinct ids are consecutive integers: exactly the integers of
    some [[lo, top]]. *)
Definition consecutive_ids (groups : list Z) : Prop :=
  exists lo top, forall v, In v groups <-> (lo <= v <= top)%Z.

(** What the four checks of [switch_protocol] ask of the group column. *)
Definition gate_checks (groups : list Z) : Prop :=
  has_targets groups /\ has_control groups /\ has_treatment groups /\
  consecutive_ids groups.

(** Pressing the button while idle was refused: a message was shown, the
    button was released and nothing else happened. *)
Definition refused (g : gui) : Prop :=
  exists text,
    switch_protocol g =
    (set_btn g (switch_protocol_btn_text g) false, [Message text]).

(** Pressing the button passed the checks: the run sequence began. *)
Definition accepted (g : gui) : Prop :=
  switch_protocol_btn_text (fst (switch_protocol g)) = "Stop protocol"%string /\
  exists rest, snd (switch_protocol g) = StopTask :: ResetCard :: ZeroAll :: rest.

Definition idle (g : gui) : Prop :=
  switch_protocol_btn_text g = "Start protocol"%string.

Definition table_groups (g : gui) : list Z :=
  map group (targets_table (widgets g)).

(** [c in s] *)
Fixpoint contains (c : ascii) (s : string) : bool :=
  match s with
  | EmptyString => false
  | String a s' => Ascii.eqb a c || contains c s'
  end.

(** A text that holds no comma and no line break. *)
Definition plain (s : string) : Prop :=
  contains comma s = false /\ contains LF s = false /\ contains CR s = false.

(** A row with its four items set, all texts plain. *)
Definition plain_row (r : table_row) : Prop :=
  plain (header r) /\ List.length (cells r) = 4%nat /\ Forall plain (cells r).

(** The integers [a, a+1, ..., a+n-1]. *)
Definition run (a : Z) (n : nat) : list Z :=
  map (fun i => (a + Z.of_nat i)%Z) (seq 0 n).

(** ** optotarget.py: the status line and the stimulation plot *)

(** [update_status]: the title of the status menu after the loop over the
    lines of [status.txt]; it keeps [title] when the file is empty. *)
Definition update_status (cwd title : string) (fs : filesystem)
  : result string :=
  match fs (path_join cwd "status.txt") with
  | None => Raise FileNotFoundError
  | Some text =>
      Ok (fold_left (fun _ line => line) (lines (universal_newlines text))
                    title)
  end.

(** [update_plot]: the two vectors handed to the plot, the times in
    seconds and the tapered waveform. *)
Definition update_plot (ui : ui_state) : result (list R * list R) :=
  let on_points := py_int (on_dur ui * sample_rate ui) in
  let taper_points := py_int (taper_dur ui * sample_rate ui) in
  let total_time := (on_dur ui + taper_dur ui)%Q in
  times <- np_linspace 0 (Q2R total_time) (on_points + taper_points) ;;
  intensity_vec <-
    taper (create_stim times (stim_freq ui) (sin_stim ui) (duty_cycle ui))
          taper_points ;;
  total_sec <- (if Qeq_bool (sample_rate ui) 0 then Raise ZeroDivisionError
                else Ok (inject_Z (on_points + taper_points) / sample_rate ui)) ;;
  times_sec <- np_linspace 0 (Q2R total_sec) (on_points + taper_points) ;;
  Ok (times_sec, intensity_vec).

(** ** optotarget.py: the live output and the test pulse *)

(** [np.linspace(start, stop, num, endpoint=False)] *)
Definition linspace_open (start stop : R) (num : nat) : list R :=
  map (fun i => (start + INR i * ((stop - start) / INR num))%R) (seq 0 num).

Definition np_linspace_open (start stop : R) (num : Z) : result (list R) :=
  if (num <? 0)%Z then Raise ValueError
  else Ok (linspace_open start stop (Z.to_nat num)).

Module Live.

(** The widgets read by [output_wave] and [output_pulse]; the frequency
    reaches [np.floor] and [int], so it is a rational here. *)
Record widgets : Type := {
  NI_card : string;
  intensity_ch : Z;
  sample_rate : Q;
  stim_freq : Q;
  sin_stim : bool;
  duty_cycle : R;
  cur_intensity : R;       (* float(self.cur_intensity.text()) *)
  pulse_intensity : R;     (* float(self.pulse_intensity.text()) *)
  pulse_dur : Q;
  include_taper : bool;
  taper_dur : Q
}.

(** One period of the waveform, before it is scaled:
    [times = np.linspace(0, 1/f, int(np.floor(sr/f)), endpoint=False)],
    [create_stim(times, f, sin, duty)]. *)
Definition one_period (w : widgets) : result (list R) :=
  if Qeq_bool (stim_freq w) 0 then Raise ZeroDivisionError
  else
    times <- np_linspace_open 0 (Q2R (1 / stim_freq w))
                              (Qfloor (sample_rate w / stim_freq w)) ;;
    Ok (create_stim times (Q2R (stim_freq w)) (sin_stim w) (duty_cycle w)).

(** What the window keeps between two calls: the attribute [self.task],
    when it exists, and the tasks it has stopped and closed so far. *)
Record session : Type := {
  held : option task;
  closed : list task
}.

(** [stop_task]: the held task, if any, is stopped and closed and the
    attribute is deleted. *)
Definition stop_task (s : session) : session :=
  match held s with
  | Some t => {| held := None; closed := closed s ++ [t] |}
  | None => s
  end.

(** [output_wave]: the result, the session afterwards and the machine. *)
Definition output_wave (w : widgets) (s : session) (m : world)
  : result unit * session * world :=
  let s := stop_task s in
  match one_period w with
  | Raise e => (Raise e, s, m)
  | Ok period =>
      let wave := map (fun v => (v * cur_intensity w)%R) period in
      match analog_out_wave (NI_card w) (intensity_ch w) (sample_rate w)
                            wave m with
      | (Ok t, m') => (Ok tt, {| held := Some t; closed := closed s |}, m')
      | (Raise e, m') => (Raise e, s, m')
      end
  end.

(** The vector [output_pulse] hands to [analog_out_pulse]: the scaled
    period, tiled, with the optional taper.  [np.tile] leaves an empty
    array empty whatever the count, and raises on a negative count
    otherwise. *)
Definition pulse_wave (w : widgets) : result (list R) :=
  period <- one_period w ;;
  let wave := map (fun v => (v * pulse_intensity w)%R) period in
  let reps := py_int (pulse_dur w * stim_freq w / 1000) in
  wave <- (match wave with
           | [] => Ok []
           | _ :: _ => if (reps <? 0)%Z then Raise ValueError
                       else Ok (np_tile wave (Z.to_nat reps))
           end) ;;
  if include_taper w
  then taper wave (py_int (taper_dur w * sample_rate w))
  else Ok wave.

End Live.

(** ** The trials of a protocol run *)

(** The content of a file, empty when it does not exist. *)
Definition read_file (fs : filesystem) (path : string) : string :=
  match fs path with
  | Some text => text
  | None => EmptyString
  end.

(** The group a pass selects (0 when the selection raises). *)
Definition trial_group (out : output) (stim_prob : Q) (d : Q * Z * string)
  : Z :=
  match select_group stim_prob (Z.of_nat (List.length (intensity_matrix out)))
                     (fst (fst d)) (snd (fst d)) with
  | Ok g => g
  | Raise _ => 0%Z
  end.

Definition trial_label (out : output) (stim_prob : Q) (d : Q * Z * string)
  : string :=
  nth (Z.to_nat (trial_group out stim_prob d)) (regions out) EmptyString.

(** The line a completed pass appends to [log.txt]. *)
Definition trial_line (out : output) (stim_prob : Q) (d : Q * Z * string)
  : string :=
  (trial_label out stim_prob d ++ " at " ++ snd d ++ newline)%string.

(** The write a completed pass sends to the card. *)
Definition trial_write (channels : string) (sr : Q) (trigger : string)
           (out : output) (stim_prob : Q) (d : Q * Z * string) : hw_op :=
  let g := Z.to_nat (trial_group out stim_prob d) in
  WriteTriggered channels sr trigger
    [nth g (intensity_matrix out) []; nth g (x_matrix out) [];
     nth g (y_matrix out) []].

(** The status line published while a pass waits for the trigger. *)
Definition waiting_status (out : output) (stim_prob : Q)
           (d : Q * Z * string) : string :=
  if (trial_group out stim_prob d =? 0)%Z
  then "Waiting to apply control stimulation."%string
  else ("Waiting to apply " ++ trial_label out stim_prob d
        ++ " stimulation.")%string.

(** A matrix with at least one row, as many labels, x rows and y rows as
    intensity rows, and in every group three rows of the same length. *)
Definition well_shaped (out : output) : Prop :=
  (1 <= List.length (intensity_matrix out))%nat /\
  List.length (regions out) = List.length (intensity_matrix out) /\
  List.length (x_matrix out) = List.length (intensity_matrix out) /\
  List.length (y_matrix out) = List.length (intensity_matrix out) /\
  forall g, (g < List.length (intensity_matrix out))%nat ->
    List.length (nth g (x_matrix out) [])
    = List.length (nth g (intensity_matrix out) []) /\
    List.length (nth g (y_matrix out) [])
    = List.length (nth g (intensity_matrix out) []).

(** The lines a run of completed passes appends to [log.txt]. *)
Definition trial_lines (out : output) (stim_prob : Q)
           (draws : list (Q * Z * string)) : string :=
  fold_right (fun d text => (trial_line out stim_prob d ++ text)%string)
             EmptyString draws.

(** ** Variations of the settings and ranges of values *)

(** [ui] with other switching settings. *)
Definition with_switching (ui : ui_state) (freq dur : Q) : ui_state :=
  {| on_dur := on_dur ui; taper_dur := taper_dur ui;
     sample_rate := sample_rate ui; stim_freq := stim_freq ui;
     sin_stim := sin_stim ui; duty_cycle := duty_cycle ui;
     switch_freq := freq; switch_dur := dur;
     targets_table := targets_table ui |}.

(** A value between 0 and [top]. *)
Definition within (top : R) (v : R) : Prop := (0 <= v <= top)%R.

(** ** Inputs used as examples *)

Definition target_A : target :=
  {| name := "A"; intensity := 5; x := 1; y := 1; group := 0 |}.

Definition target_B : target :=
  {| name := "B"; intensity := 10; x := 2; y := 2; group := 1 |}.

Definition target_C : target :=
  {| name := "C"; intensity := 10; x := -2; y := 2; group := 1 |}.

(** The end-to-end scenario of the specification: one second at 1000 Hz
    and no taper; the settings it leaves open are parameters. *)
Definition scenario (freq : R) (sin : bool) (duty : R) (sw_freq sw_dur : Q)
  : ui_state :=
  {| on_dur := 1; taper_dur := 0; sample_rate := 1000;
     stim_freq := freq; sin_stim := sin; duty_cycle := duty;
     switch_freq := sw_freq; switch_dur := sw_dur;
     targets_table := [target_A; target_B; target_C] |}.

(** The same three targets on a short run: 10 on-samples and 1 taper
    sample at 10 Hz, a full-duty square wave, positions switched every 5
    samples and blanked for 2. *)
Definition short_run : ui_state :=
  {| on_dur := 1; taper_dur := 1 # 10; sample_rate := 10;
     stim_freq := 1; sin_stim := false; duty_cycle := 100;
     switch_freq := 2; switch_dur := 200;
     targets_table := [target_A; target_B; target_C] |}.

(** A table that uses the ids 0 and 2 but not 1. *)
Definition holed_run : ui_state :=
  {| on_dur := 1; taper_dur := 1 # 10; sample_rate := 10;
     stim_freq := 1; sin_stim := false; duty_cycle := 100;
     switch_freq := 2; switch_dur := 200;
     targets_table :=
       [target_A;
        {| name := "D"; intensity := 10; x := 2; y := 2; group := 2 |}] |}.

(** One target, a sine of 5/6 Hz sampled on 6 points of which the last 4
    are tapered. *)
Definition sine_run : ui_state :=
  {| on_dur := 1 # 2; taper_dur := 1; sample_rate := 4;
     stim_freq := 5 / 6; sin_stim := true; duty_cycle := 50;
     switch_freq := 1; switch_dur := 0;
     targets_table :=
       [{| name := "S"; intensity := 6; x := 0; y := 0; group := 0 |}] |}.

(** One target and a single taper sample. *)
Definition one_taper_sample : ui_state :=
  {| on_dur := 1; taper_dur := 1 # 2; sample_rate := 2;
     stim_freq := 1; sin_stim := false; duty_cycle := 100;
     switch_freq := 1; switch_dur := 0;
     targets_table := [target_A] |}.

(** Three targets in the groups 0, 1 and 2. *)
Definition three_groups : ui_state :=
  {| on_dur := 1; taper_dur := 1 # 10; sample_rate := 10;
     stim_freq := 1; sin_stim := false; duty_cycle := 100;
     switch_freq := 2; switch_dur := 200;
     targets_table :=
       [target_A; target_B;
        {| name := "D"; intensity := 10; x := 2; y := 2; group := 2 |}] |}.

(** A table with the ids -1, 0 and 1. *)
Definition negative_ids : ui_state :=
  {| on_dur := 1; taper_dur := 1 # 10; sample_rate := 10;
     stim_freq := 1; sin_stim := false; duty_cycle := 100;
     switch_freq := 2; switch_dur := 200;
     targets_table :=
       [{| name := "N"; intensity := 1; x := 0; y := 0; group := -1 |};
        target_A; target_B] |}.

Definition idle_gui (ui : ui_state) : gui :=
  {| switch_protocol_btn_text := "Start protocol";
     switch_protocol_btn_checked := true;
     stim_prob_value := 50;
     widgets := ui;
     protocol := None |}.

(** A name with a line break and no comma. *)
Definition two_line_row : table_row :=
  {| header := String "a" (String LF (String "b" EmptyString));
     cells := ["1"; "2"; "3"; "0"]%string |}.

Definition plain_table : list table_row :=
  [{| header := "A"; cells := ["5"; "1"; "1"; "0"]%string |};
   {| header := "B"; cells := ["10"; "2"; "2"; "1"]%string |}].

Definition empty_fs : filesystem := fun _ => None.

(** Live settings: 8 samples per second, a 2 Hz sine, pulses of 1.5 s
    with a taper of a quarter of a second. *)
Definition live_example : Live.widgets :=
  {| Live.NI_card := "Dev1"; Live.intensity_ch := 0;
     Live.sample_rate := 8; Live.stim_freq := 2;
     Live.sin_stim := true; Live.duty_cycle := 50;
     Live.cur_intensity := 3; Live.pulse_intensity := 2;
     Live.pulse_dur := 1500; Live.include_taper := true;
     Live.taper_dur := 1 # 4 |}.

(** * Proofs *)

(** ** Sorting and the distinct group ids *)

Section Sorting.

Local Open Scope Z_scope.

Lemma insert_sorted_In (a v : Z) (l : list Z) :
  In v (insert_sorted a l) <-> v = a \/ In v l.
Proof.
  induction l as [|b l IH]; simpl.
  - intuition.
  - destruct (a <=? b); simpl; rewrite ?IH; intuition.
Qed.

Lemma np_sort_In (v : Z) (l : list Z) : In v (np_sort l) <-> In v l.
Proof.
  induction l as [|a l IH]; simpl.
  - tauto.
  - rewrite insert_sorted_In, IH. intuition.
Qed.

Lemma insert_sorted_Sorted (a : Z) (l : list Z) :
  Sorted Z.le l -> Sorted Z.le (insert_sorted a l).
Proof.
  induction l as [|b l IH]; simpl; intros Hs.
  - repeat constructor.
  - destruct (Z.leb_spec a b).
    + constructor; [assumption | constructor; assumption].
    + inversion Hs as [|? ? Hs' Hhd]; subst.
      constructor; [auto |].
      destruct l as [|c l]; simpl.
      * constructor; lia.
      * inversion Hhd; subst.
        destruct (a <=? c); constructor; lia.
Qed.

Lemma np_sort_Sorted (l : list Z) : Sorted Z.le (np_sort l).
Proof.
  induction l; simpl; [constructor | now apply insert_sorted_Sorted].
Qed.

Lemma drop_adjacent_dups_In (v : Z) (l : list Z) :
  In v (drop_adjacent_dups l) <-> In v l.
Proof.
  induction l as [|a l IH]; [simpl; tauto |].
  destruct l as [|b l]; [simpl; tauto |].
  change (drop_adjacent_dups (a :: b :: l))
    with (if a =? b then drop_adjacent_dups (b :: l)
          else a :: drop_adjacent_dups (b :: l)).
  destruct (Z.eqb_spec a b).
  - subst. rewrite IH. simpl. tauto.
  - simpl In at 1. rewrite IH. simpl. tauto.
Qed.

Lemma drop_adjacent_dups_hd (a : Z) (l : list Z) :
  Sorted Z.le (a :: l) ->
  exists l', drop_adjacent_dups (a :: l) = a :: l'.
Proof.
  revert a. induction l as [|b l IH]; intros a Hs.
  - exists []. reflexivity.
  - change (drop_adjacent_dups (a :: b :: l))
      with (if a =? b then drop_adjacent_dups (b :: l)
            else a :: drop_adjacent_dups (b :: l)).
    destruct (Z.eqb_spec a b).
    + subst. apply IH. now inversion Hs.
    + eexists. reflexivity.
Qed.

Lemma drop_adjacent_dups_strict (l : list Z) :
  Sorted Z.le l -> StronglySorted Z.lt (drop_adjacent_dups l).
Proof.
  induction l as [|a l IH]; intros Hs; [constructor |].
  destruct l as [|b l]; [repeat constructor |].
  assert (Hs' : Sorted Z.le (b :: l)) by now inversion Hs.
  assert (Hall : Forall (Z.le a) (b :: l)).
  { apply Sorted_StronglySorted in Hs; [| intros ? ? ?; lia].
    now inversion Hs. }
  change (drop_adjacent_dups (a :: b :: l))
    with (if a =? b then drop_adjacent_dups (b :: l)
          else a :: drop_adjacent_dups (b :: l)).
  destruct (Z.eqb_spec a b) as [->|Hne]; [auto |].
  constructor; [auto |].
  apply Forall_forall. intros v Hv.
  apply (proj1 (drop_adjacent_dups_In _ _)) in Hv.
  specialize (IH Hs').
  destruct (drop_adjacent_dups_hd Hs') as [l' El'].
  rewrite El' in IH.
  assert (Hb : b <= v).
  { apply Sorted_StronglySorted in Hs'; [| intros ? ? ?; lia].
    inversion Hs' as [|? ? _ Hb]; subst.
    simpl in Hv. destruct Hv as [<-|Hv]; [lia |].
    rewrite Forall_forall in Hb. now apply Hb. }
  inversion Hall; subst. lia.
Qed.

Lemma np_unique_In (v : Z) (l : list Z) : In v (np_unique l) <-> In v l.
Proof.
  unfold np_unique. now rewrite drop_adjacent_dups_In, np_sort_In.
Qed.

Lemma np_unique_strict (l : list Z) : StronglySorted Z.lt (np_unique l).
Proof.
  apply drop_adjacent_dups_strict, np_sort_Sorted.
Qed.

Lemma np_sort_strict (l : list Z) : StronglySorted Z.lt l -> np_sort l = l.
Proof.
  induction 1 as [|a l Hs IH Hall]; [reflexivity |].
  simpl. rewrite IH.
  destruct l as [|b l]; [reflexivity |].
  simpl. inversion Hall; subst.
  destruct (Z.leb_spec a b); [reflexivity | lia].
Qed.

(** Two strictly increasing lists with the same elements are equal. *)
Lemma strict_ext (l1 l2 : list Z) :
  StronglySorted Z.lt l1 -> StronglySorted Z.lt l2 ->
  (forall v, In v l1 <-> In v l2) -> l1 = l2.
Proof.
  intros H1. revert l2.
  induction H1 as [|a l1 Hs1 IH Ha]; intros l2 H2 Hin.
  - destruct l2 as [|b l2]; [reflexivity |].
    exfalso. apply (proj2 (Hin b)). now left.
  - destruct H2 as [|b l2 Hs2 Hb].
    + exfalso. apply (proj1 (Hin a)). now left.
    + rewrite Forall_forall in Ha, Hb.
      assert (a = b).
      { destruct (proj1 (Hin a) (or_introl eq_refl)) as [|Hab]; [congruence |].
        destruct (proj2 (Hin b) (or_introl eq_refl)) as [|Hba]; [congruence |].
        specialize (Ha _ Hba). specialize (Hb _ Hab). lia. }
      subst b. f_equal. apply IH; [assumption |].
      intros v. split; intros Hv.
      * destruct (proj1 (Hin v) (or_intror Hv)) as [->|]; [| assumption].
        specialize (Ha _ Hv). lia.
      * destruct (proj2 (Hin v) (or_intror Hv)) as [->|]; [| assumption].
        specialize (Hb _ Hv). lia.
Qed.

Lemma run_S (a : Z) (n : nat) : run a (S n) = a :: run (a + 1) n.
Proof.
  unfold run. simpl. rewrite Z.add_0_r. f_equal.
  rewrite <- seq_shift, map_map.
  apply map_ext. intros i. lia.
Qed.

Lemma run_In (a v : Z) (n : nat) :
  In v (run a n) <-> a <= v < a + Z.of_nat n.
Proof.
  unfold run. rewrite in_map_iff. split.
  - intros [i [<- Hi]]. apply in_seq in Hi. lia.
  - intros Hv. exists (Z.to_nat (v - a)). split; [lia |].
    apply in_seq. lia.
Qed.

Lemma run_strict (a : Z) (n : nat) : StronglySorted Z.lt (run a n).
Proof.
  revert a. induction n as [|n IH]; intros a.
  - constructor.
  - rewrite run_S. constructor; [apply IH |].
    apply Forall_forall. intros v Hv. apply run_In in Hv. lia.
Qed.

Lemma np_diff_run (a : Z) (n : nat) :
  Forall (eq 1) (np_diff (run a n)).
Proof.
  revert a. induction n as [|n IH]; intros a; [constructor |].
  rewrite run_S. destruct n as [|n]; [constructor |].
  specialize (IH (a + 1)). rewrite run_S in *.
  simpl. constructor; [lia | exact IH].
Qed.

Lemma np_diff_ones (a : Z) (l : list Z) :
  Forall (eq 1) (np_diff (a :: l)) -> a :: l = run a (S (List.length l)).
Proof.
  revert a. induction l as [|b l IH]; intros a H.
  - simpl List.length. rewrite run_S. reflexivity.
  - simpl in H. inversion H as [|? ? Hd Hrest]; subst.
    rewrite run_S. f_equal.
    assert (b = a + 1) by lia. subst b.
    apply IH. exact Hrest.
Qed.

Lemma count_neq_zero (g : Z) (l : list Z) :
  count_neq g l = 0 <-> Forall (eq g) l.
Proof.
  unfold count_neq. induction l as [|a l IH]; simpl.
  - split; constructor.
  - destruct (Z.eqb_spec a g); simpl.
    + rewrite IH. split; intros H.
      * constructor; auto.
      * now inversion H.
    + split; intros H; [lia | inversion H; congruence].
Qed.

Lemma count_eq_zero (g : Z) (l : list Z) :
  count_eq g l = 0 <-> ~ In g l.
Proof.
  unfold count_eq. induction l as [|a l IH]; simpl.
  - tauto.
  - destruct (Z.eqb_spec a g); simpl.
    + split; [lia | intros H; exfalso; apply H; auto].
    + rewrite IH. intuition.
Qed.

(** The fourth check of [switch_protocol], on a column that contains 0 and
    no negative id, holds exactly when the ids are a run from 0. *)
Lemma consecutive_check (groups : list Z) :
  Forall (Z.le 0) groups -> In 0 groups ->
  (count_neq 1 (np_diff (np_sort (np_unique groups))) = 0 <->
   consecutive_from_zero groups).
Proof.
  intros Hnn H0.
  rewrite (np_sort_strict (np_unique_strict groups)), count_neq_zero.
  pose proof (np_unique_strict groups) as Hs.
  pose proof (fun v => np_unique_In v groups) as Hin.
  destruct (np_unique groups) as [|a u] eqn:Eu.
  - exfalso. apply (proj2 (Hin 0) H0).
  - split.
    + intros Hd. apply np_diff_ones in Hd.
      assert (a = 0).
      { rewrite Forall_forall in Hnn.
        assert (0 <= a) by (apply Hnn, Hin; now left).
        apply Hin in H0. rewrite Hd in H0. apply run_In in H0. lia. }
      subst a. exists (Z.of_nat (List.length u)).
      intros v. rewrite <- Hin, Hd, run_In. lia.
    + intros [top Htop].
      assert (0 <= top) by (apply Htop; exact H0).
      assert (E : a :: u = run 0 (Z.to_nat (top + 1))).
      { apply strict_ext; [assumption | apply run_strict |].
        intros v. rewrite Hin, Htop, run_In. lia. }
      rewrite E. apply np_diff_run.
Qed.

(** The fourth check alone, on any column with a row: the distinct ids
    are consecutive integers, wherever the run starts. *)
Lemma consecutive_ids_check (groups : list Z) :
  groups <> [] ->
  (count_neq 1 (np_diff (np_sort (np_unique groups))) = 0 <->
   consecutive_ids groups).
Proof.
  intros Hne.
  rewrite (np_sort_strict (np_unique_strict groups)), count_neq_zero.
  pose proof (np_unique_strict groups) as Hs.
  pose proof (fun v => np_unique_In v groups) as Hin.
  destruct (np_unique groups) as [|a u] eqn:Eu.
  - exfalso. destruct groups as [|b l]; [congruence |].
    apply (proj2 (Hin b)). now left.
  - split.
    + intros Hd. apply np_diff_ones in Hd.
      exists a, (a + Z.of_nat (List.length u)).
      intros v. rewrite <- Hin, Hd, run_In. lia.
    + intros (lo & top & Htop).
      assert (Ha : lo <= a <= top) by (apply Htop, Hin; now left).
      assert (E : a :: u = run lo (Z.to_nat (top - lo + 1))).
      { apply strict_ext; [assumption | apply run_strict |].
        intros v. rewrite Hin, Htop, run_In. lia. }
      rewrite E. apply np_diff_run.
Qed.

End Sorting.

(** ** The validation gate of [switch_protocol] *)

Section ValidationGate.

Local Open Scope Z_scope.

Lemma treatment_check (groups : list Z) :
  count_neq 0 groups <> 0 <-> has_treatment groups.
Proof.
  rewrite count_neq_zero. unfold has_treatment.
  induction groups as [|a l IH].
  - split; [intros H; exfalso; apply H; constructor | intros [v [[] _]]].
  - split.
    + intros H. destruct (Z.eq_dec a 0) as [->|Ha].
      * destruct (proj1 IH) as [v [Hv Hv0]].
        { intros Hl. apply H. constructor; auto. }
        exists v. split; [now right | assumption].
      * exists a. split; [now left | assumption].
    + intros [v [[<-|Hv] Hv0]] H; inversion H; subst; [congruence |].
      apply (proj2 IH); [exists v; auto | assumption].
Qed.

(** What [switch_protocol] does when idle, check by check. *)
Lemma switch_protocol_idle (g : gui) :
  idle g ->
  let groups := table_groups g in
  let refuse text :=
    (set_btn g (switch_protocol_btn_text g) false, [Message text]) in
  switch_protocol g =
  if Nat.eqb (List.length groups) 0 then refuse "No targets in table"%string
  else if count_eq 0 groups =? 0 then refuse "No control group in table"%string
  else if count_neq 0 groups =? 0 then refuse "No non-zero groups in table"%string
  else if negb (count_neq 1 (np_diff (np_sort (np_unique groups))) =? 0)
  then refuse "group values are not consecutive"%string
  else
    let g' := set_btn g "Stop protocol" (switch_protocol_btn_checked g) in
    match create_output (widgets g) with
    | Raise e => (g', [StopTask; ResetCard; ZeroAll; Uncaught e])
    | Ok out => (set_protocol g' out (stim_prob_value g),
                 [StopTask; ResetCard; ZeroAll;
                  StartProcess out (stim_prob_value g)])
    end.
Proof.
  unfold idle, table_groups, switch_protocol. intros ->.
  rewrite String.eqb_refl, length_map. reflexivity.
Qed.

Lemma checks_pass_iff (groups : list Z) :
  Forall (Z.le 0) groups ->
  (Nat.eqb (List.length groups) 0 = false /\
   (count_eq 0 groups =? 0) = false /\
   (count_neq 0 groups =? 0) = false /\
   negb (count_neq 1 (np_diff (np_sort (np_unique groups))) =? 0) = false)
  <-> trial_selection_invariants groups.
Proof.
  intros Hnn. unfold trial_selection_invariants, has_targets, has_control.
  rewrite Nat.eqb_neq, !Z.eqb_neq, negb_false_iff, Z.eqb_eq.
  rewrite treatment_check, count_eq_zero.
  assert (Hlen : List.length groups <> 0%nat <-> groups <> []).
  { destruct groups; simpl; split; congruence. }
  rewrite Hlen.
  split.
  - intros (H1 & H2 & H3 & H4).
    assert (H0 : In 0 groups).
    { destruct (in_dec Z.eq_dec 0 groups); tauto. }
    repeat split; auto. now apply consecutive_check.
  - intros (H1 & H2 & H3 & H4).
    repeat split; auto. now apply consecutive_check.
Qed.

(** The four checks pass exactly on the columns with a row, a 0, a
    non-zero id and consecutive distinct ids. *)
Lemma checks_pass_gate (groups : list Z) :
  (Nat.eqb (List.length groups) 0 = false /\
   (count_eq 0 groups =? 0) = false /\
   (count_neq 0 groups =? 0) = false /\
   negb (count_neq 1 (np_diff (np_sort (np_unique groups))) =? 0) = false)
  <-> gate_checks groups.
Proof.
  unfold gate_checks, has_targets, has_control.
  rewrite Nat.eqb_neq, !Z.eqb_neq, negb_false_iff, Z.eqb_eq.
  rewrite treatment_check, count_eq_zero.
  assert (Hlen : List.length groups <> 0%nat <-> groups <> []).
  { destruct groups; simpl; split; congruence. }
  rewrite Hlen.
  split.
  - intros (H1 & H2 & H3 & H4).
    assert (H0 : In 0 groups).
    { destruct (in_dec Z.eq_dec 0 groups); tauto. }
    repeat split; auto. now apply consecutive_ids_check.
  - intros (H1 & H2 & H3 & H4).
    repeat split; auto. now apply consecutive_ids_check.
Qed.

(** A run of consecutive ids that holds 0 and no negative id starts
    at 0. *)
Lemma gate_checks_invariants (groups : list Z) :
  (trial_selection_invariants groups -> gate_checks groups) /\
  (Forall (Z.le 0) groups -> gate_checks groups ->
   trial_selection_invariants groups).
Proof.
  unfold gate_checks, trial_selection_invariants. split.
  - intros (H1 & H2 & H3 & (top & Htop)).
    repeat split; auto. exists 0, top. exact Htop.
  - intros Hnn (H1 & H2 & H3 & (lo & top & Htop)).
    repeat split; auto.
    unfold has_control in H2.
    assert (H0 : lo <= 0 <= top) by (apply Htop; exact H2).
    assert (Hlo : In lo groups) by (apply Htop; lia).
    rewrite Forall_forall in Hnn. apply Hnn in Hlo.
    exists top. intros v. rewrite Htop. lia.
Qed.

End ValidationGate.

(** C2, as the code has it.  Starting the protocol from the idle state is
    refused (a message is shown, the button is released, no action
    reaches the hardware) exactly when one of the four checks fails: a
    table without rows, without a group 0, with only group 0, or whose
    distinct ids are not consecutive integers is refused.  On a table
    without negative ids this is exactly the failure of one of the four
    trial-selection invariants, the run of ids then starting at 0; groups
    [0,0,2,2] are refused and groups [0,1,2] are accepted. *)
Theorem validation_gate (g : gui) :
  idle g ->
  (refused g <-> ~ gate_checks (table_groups g)) /\
  (trial_selection_invariants (table_groups g) -> gate_checks (table_groups g)) /\
  (Forall (Z.le 0) (table_groups g) ->
   (refused g <-> ~ trial_selection_invariants (table_groups g))) /\
  (refused g -> existsb hardware_io (snd (switch_protocol g)) = false) /\
  (~ refused g -> accepted g) /\
  (table_groups g = [] -> refused g) /\
  (~ In 0%Z (table_groups g) -> refused g) /\
  (Forall (eq 0%Z) (table_groups g) -> refused g) /\
  (~ consecutive_ids (table_groups g) -> refused g) /\
  (Forall (Z.le 0) (table_groups g) ->
   ~ consecutive_from_zero (table_groups g) -> refused g) /\
  (table_groups g = [0; 0; 2; 2]%Z -> refused g) /\
  (table_groups g = [0; 1; 2]%Z -> accepted g).
Proof.
  intros Hidle.
  pose proof (switch_protocol_idle Hidle) as Hsp. cbv zeta in Hsp.
  pose proof (checks_pass_gate (table_groups g)) as Hchk.
  destruct (gate_checks_invariants (table_groups g)) as [Hinv_gate Hgate_inv].
  assert (Hdec : refused g \/
                 (~ refused g /\ accepted g /\ gate_checks (table_groups g))).
  { unfold refused, accepted. rewrite Hsp.
    destruct (Nat.eqb (List.length (table_groups g)) 0) eqn:E1;
      [left; eexists; reflexivity |].
    destruct (count_eq 0 (table_groups g) =? 0)%Z eqn:E2;
      [left; eexists; reflexivity |].
    destruct (count_neq 0 (table_groups g) =? 0)%Z eqn:E3;
      [left; eexists; reflexivity |].
    destruct (negb (count_neq 1 (np_diff (np_sort (np_unique (table_groups g))))
                    =? 0)%Z) eqn:E4;
      [left; eexists; reflexivity |].
    right. split; [| split].
    - intros [text Ht].
      destruct (create_output (widgets g)); discriminate Ht.
    - destruct (create_output (widgets g)); simpl;
        (split; [reflexivity | eexists; reflexivity]).
    - apply Hchk. auto. }
  assert (Hno : refused g -> ~ gate_checks (table_groups g)).
  { intros [text Ht] Hinv. apply Hchk in Hinv.
    destruct Hinv as (E1 & E2 & E3 & E4).
    rewrite Hsp, E1, E2, E3, E4 in Ht.
    destruct (create_output (widgets g)); discriminate Ht. }
  assert (Hyes : ~ gate_checks (table_groups g) -> refused g) by tauto.
  split; [tauto |].
  split; [exact Hinv_gate |].
  split; [intros Hnn; specialize (Hgate_inv Hnn); tauto |].
  split.
  { intros [text Ht]. rewrite Ht. reflexivity. }
  split; [tauto |].
  unfold gate_checks, has_targets, has_control in *.
  split; [intros E; apply Hyes; tauto |].
  split; [intros E; apply Hyes; tauto |].
  split.
  { intros E. apply Hyes. intros (_ & _ & [v [Hv Hv0]] & _).
    rewrite Forall_forall in E. apply Hv0. symmetry. now apply E. }
  split; [intros E; apply Hyes; tauto |].
  split.
  { intros Hnn E. apply Hyes. intros Hg. apply E.
    destruct (Hgate_inv Hnn Hg) as (_ & _ & _ & H). exact H. }
  split.
  { intros E. apply Hyes. intros (_ & _ & _ & (lo & top & Htop)).
    rewrite E in Htop.
    assert (H2 : (lo <= 2 <= top)%Z) by (apply Htop; simpl; auto).
    assert (H0 : (lo <= 0 <= top)%Z) by (apply Htop; simpl; auto).
    assert (H1 : (lo <= 1 <= top)%Z) by lia.
    apply Htop in H1. simpl in H1. intuition discriminate. }
  { intros E.
    assert (Hinv : gate_checks (table_groups g)).
    { apply Hinv_gate.
      unfold trial_selection_invariants, has_targets, has_control,
        has_treatment, consecutive_from_zero.
      rewrite E. split; [discriminate |].
      split; [simpl; auto |].
      split; [exists 1%Z; simpl; split; [auto | discriminate] |].
      exists 2%Z. intros v. simpl. lia. }
    tauto. }
Qed.

(** The checks compare neighbouring ids only: a table whose ids run from
    -1 passes them. *)
Lemma negative_ids_pass :
  accepted (idle_gui negative_ids) /\
  ~ consecutive_from_zero (table_groups (idle_gui negative_ids)).
Proof.
  split.
  - unfold accepted.
    rewrite (@switch_protocol_idle (idle_gui negative_ids) eq_refl).
    cbv zeta.
    change (table_groups (idle_gui negative_ids)) with [-1; 0; 1]%Z.
    change (Nat.eqb (List.length [-1; 0; 1]%Z) 0) with false.
    change (count_eq 0 [-1; 0; 1] =? 0)%Z with false.
    change (count_neq 0 [-1; 0; 1] =? 0)%Z with false.
    change (negb (count_neq 1 (np_diff (np_sort (np_unique [-1; 0; 1]%Z)))
                  =? 0)%Z) with false.
    cbv iota.
    destruct (create_output (widgets (idle_gui negative_ids)));
      (split; [reflexivity | eexists; reflexivity]).
  - intros [top Htop].
    assert (H : In (-1)%Z (table_groups (idle_gui negative_ids)))
      by (simpl; auto).
    apply Htop in H. lia.
Qed.

(** ** The choice of the group in the protocol loop *)

Lemma run_NoDup (a : Z) (n : nat) : NoDup (run a n).
Proof.
  revert a. induction n as [|n IH]; intros a.
  - constructor.
  - rewrite run_S. constructor; [| apply IH].
    rewrite run_In. lia.
Qed.

(** ** Handling of an unreachable card *)

Section Card.

Variables (card cwd : string) (channel : Z) (sr : Q).

Lemma absent_card (w : world) :
  answers w card = false ->
  add_ao_voltage_chan card w = (Raise DaqError, w).
Proof. unfold add_ao_voltage_chan. now intros ->. Qed.

(** The scalar write and the reset catch the failure and write the status
    line; they always return. *)
Lemma analog_out_single_returns (val : R) (w : world) :
  fst (analog_out_single card channel val cwd w) = Ok tt.
Proof.
  unfold analog_out_single, try_except, io_bind, add_ao_voltage_chan, daq.
  destruct (answers w card) eqn:E; [rewrite E |]; reflexivity.
Qed.

Lemma reset_returns (w : world) : fst (reset card cwd w) = Ok tt.
Proof.
  unfold reset, try_except, io_bind, daq.
  destruct (answers w card); reflexivity.
Qed.

Lemma analog_out_single_absent (val : R) (w : world) :
  answers w card = false ->
  analog_out_single card channel val cwd w
  = log_status could_not_connect cwd w.
Proof.
  intros H. unfold analog_out_single, try_except, io_bind.
  now rewrite (absent_card _ H).
Qed.

Lemma reset_absent (w : world) :
  answers w card = false ->
  reset card cwd w = log_status could_not_connect cwd w.
Proof.
  intros H. unfold reset, try_except, io_bind, daq. now rewrite H.
Qed.

(** The two stream writes have no handler: the failure reaches the
    caller and the machine, status file included, is left as it was. *)
Lemma analog_out_wave_absent (vec : list R) (w : world) :
  answers w card = false ->
  analog_out_wave card channel sr vec w = (Raise DaqError, w).
Proof.
  intros H. unfold analog_out_wave, io_bind.
  now rewrite (absent_card _ H).
Qed.

Lemma analog_out_pulse_absent (vec : list R) (w : world) :
  answers w card = false ->
  analog_out_pulse card channel sr vec w = (Raise DaqError, w).
Proof.
  intros H. unfold analog_out_pulse, io_bind.
  now rewrite (absent_card _ H).
Qed.

End Card.

(** C9, on the code.  On a machine where no card answers, the continuous
    write and the pulse write raise to their caller and leave the machine
    as it was: no status line is written.  (The scalar write and the
    reset do catch the failure, see [analog_out_single_returns] and
    [reset_returns].) *)
Theorem stream_writes_raise (card : string) (channel : Z) (sr : Q)
        (vec : list R) (fs : filesystem) :
  let w := {| answers := fun _ => false; files := fs; hw_log := [] |} in
  analog_out_wave card channel sr vec w = (Raise DaqError, w) /\
  analog_out_pulse card channel sr vec w = (Raise DaqError, w).
Proof. split; reflexivity. Qed.

(** ** Saving and loading the targets table *)

Section Csv.

Local Open Scope string_scope.

Lemma contains_app (c : ascii) (s t : string) :
  contains c (s ++ t) = contains c s || contains c t.
Proof.
  induction s as [|a s IH]; simpl; [reflexivity |].
  now rewrite IH, orb_assoc.
Qed.

Lemma universal_newlines_id (s : string) :
  contains CR s = false -> universal_newlines s = s.
Proof.
  induction s as [|a s IH]; simpl; [reflexivity |].
  intros H. apply orb_false_iff in H. destruct H as [Ha Hs].
  rewrite Ha. now rewrite IH.
Qed.

Lemma lines_app (s t : string) :
  contains LF s = false ->
  lines (s ++ String LF t) = (s ++ String LF EmptyString) :: lines t.
Proof.
  induction s as [|a s IH]; intros H.
  - simpl. rewrite ?Ascii.eqb_refl. reflexivity.
  - simpl in H. apply orb_false_iff in H. destruct H as [Ha Hs].
    simpl. rewrite Ha, (IH Hs). reflexivity.
Qed.

Lemma split_comma_app (s t : string) :
  contains comma s = false ->
  split_comma (s ++ String comma t) = s :: split_comma t.
Proof.
  induction s as [|a s IH]; intros H.
  - simpl. rewrite ?Ascii.eqb_refl. reflexivity.
  - simpl in H. apply orb_false_iff in H. destruct H as [Ha Hs].
    simpl. rewrite Ha, (IH Hs). reflexivity.
Qed.

Lemma append_cons_assoc (s t u : string) (c : ascii) :
  (s ++ String c t) ++ u = s ++ String c (t ++ u).
Proof.
  induction s as [|a s IH]; simpl; [reflexivity | now rewrite IH].
Qed.

(** The line [save_all] writes for a complete row. *)
Lemma write_row_plain (h c0 c1 c2 c3 : string) :
  write_row {| header := h; cells := [c0; c1; c2; c3] |}
  = (h ++ String comma (c0 ++ String comma (c1 ++ String comma
       (c2 ++ String comma (c3 ++ String comma (String LF EmptyString))))), Ok tt).
Proof.
  unfold write_row. simpl. rewrite !append_cons_assoc. reflexivity.
Qed.

Lemma write_rows_cons (r : table_row) (table : list table_row) :
  write_rows (r :: table) =
  match write_row r with
  | (part, Raise e) => (part, Raise e)
  | (line, Ok _) => let (text, res) := write_rows table in (line ++ text, res)
  end.
Proof. reflexivity. Qed.

Lemma plain_row_inv (r : table_row) :
  plain_row r ->
  exists h c0 c1 c2 c3,
    r = {| header := h; cells := [c0; c1; c2; c3] |} /\
    plain h /\ plain c0 /\ plain c1 /\ plain c2 /\ plain c3.
Proof.
  destruct r as [h cs]. intros (Hh & Hlen & Hall). simpl in *.
  destruct cs as [|c0 [|c1 [|c2 [|c3 [|? ?]]]]]; try discriminate Hlen.
  inversion Hall as [|? ? H0 Hall1]; subst.
  inversion Hall1 as [|? ? H1 Hall2]; subst.
  inversion Hall2 as [|? ? H2 Hall3]; subst.
  inversion Hall3 as [|? ? H3 _]; subst.
  exists h, c0, c1, c2, c3. auto 10.
Qed.

(** Saving complete rows never raises, and the text has no carriage
    return when the rows have none. *)
Lemma write_rows_plain (table : list table_row) :
  Forall plain_row table ->
  exists text,
    write_rows table = (text, Ok tt) /\
    contains CR text = false /\
    forall acc, load_lines (lines text) acc = ((acc ++ table)%list, Ok tt).
Proof.
  induction 1 as [|r table Hr _ IH].
  - exists EmptyString. repeat split. intros acc. simpl. now rewrite app_nil_r.
  - destruct IH as (text & Hw & Hcr & Hload).
    destruct (plain_row_inv Hr)
      as (h & c0 & c1 & c2 & c3 & -> & Hh & H0 & H1 & H2 & H3).
    unfold plain in *.
    destruct Hh as (Hh1 & Hh2 & Hh3), H0 as (H01 & H02 & H03),
      H1 as (H11 & H12 & H13), H2 as (H21 & H22 & H23),
      H3 as (H31 & H32 & H33).
    rewrite write_rows_cons, write_row_plain, Hw.
    eexists. split; [reflexivity |]. split.
    + repeat (rewrite ?contains_app; simpl).
      rewrite Hh3, H03, H13, H23, H33, Hcr. reflexivity.
    + intros acc.
      set (body := h ++ String comma (c0 ++ String comma (c1 ++ String comma
                     (c2 ++ String comma (c3 ++ String comma EmptyString))))).
      assert (E : (h ++ String comma (c0 ++ String comma (c1 ++ String comma
                     (c2 ++ String comma (c3 ++ String comma (String LF EmptyString))))))
                  ++ text = body ++ String LF text).
      { unfold body. rewrite !append_cons_assoc. reflexivity. }
      rewrite E, lines_app.
      2:{ unfold body. repeat (rewrite ?contains_app; simpl).
          rewrite Hh2, H02, H12, H22, H32. reflexivity. }
      simpl load_lines.
      assert (S : split_comma (body ++ String LF EmptyString)
                  = [h; c0; c1; c2; c3; String LF EmptyString]).
      { unfold body. rewrite !append_cons_assoc.
        rewrite !split_comma_app by assumption. reflexivity. }
      rewrite S. simpl. rewrite Hload, <- app_assoc. reflexivity.
Qed.

End Csv.

(** C10, as the code has it.  For every table of complete rows in which no
    name and no cell text contains a comma, a line feed or a carriage
    return, saving to a named file returns normally, and loading that file
    over any prior table returns normally with exactly the saved rows, in
    order: the prior contents are replaced. *)
Theorem save_load_round_trip (fname : string) (table prior : list table_row)
        (fs : filesystem) :
  fname <> EmptyString ->
  Forall plain_row table ->
  snd (save_all fname table fs) = Ok tt /\
  load_all fname prior (fst (save_all fname table fs)) = (table, Ok tt).
Proof.
  intros Hname Hall.
  destruct (write_rows_plain Hall) as (text & Hw & Hcr & Hload).
  unfold save_all, load_all.
  apply String.eqb_neq in Hname. rewrite Hname, Hw. simpl.
  rewrite String.eqb_refl, (universal_newlines_id _ Hcr), Hload.
  split; reflexivity.
Qed.

(** ** The output matrix *)

Section Arrays.

Lemma linspace_length (a b : R) (n : nat) : List.length (linspace a b n) = n.
Proof. unfold linspace. now rewrite length_map, length_seq. Qed.

Lemma create_stim_length (times : list R) (freq : R) (sin : bool) (duty : R) :
  List.length (create_stim times freq sin duty) = List.length times.
Proof. unfold create_stim. destruct sin; apply length_map. Qed.

Lemma zip_mul_length (a b : list R) :
  List.length a = List.length b -> List.length (zip_mul a b) = List.length a.
Proof.
  revert b. induction a as [|u a IH]; intros [|v b] H; simpl in *;
    try discriminate; auto.
Qed.

Lemma broadcast_to_length (n : nat) (v r : list R) :
  broadcast_to n v = Ok r -> List.length r = n.
Proof.
  unfold broadcast_to. destruct (Nat.eqb_spec (List.length v) n) as [E|E].
  - intros [= <-]. exact E.
  - destruct v as [|u [|? ?]]; try discriminate.
    intros [= <-]. apply repeat_length.
Qed.

Lemma broadcast_to_same (v : list R) : broadcast_to (List.length v) v = Ok v.
Proof. unfold broadcast_to. now rewrite Nat.eqb_refl. Qed.

Lemma fill_from_length {A : Type} (k lo hi : Z) (v : A) (row : list A) :
  List.length (fill_from k lo hi v row) = List.length row.
Proof.
  revert k. induction row as [|a row IH]; intros k; simpl; auto.
Qed.

Lemma assign_slice_length {A : Type} (row : list A) (start stop : Z) (v : A) :
  List.length (assign_slice row start stop v) = List.length row.
Proof. apply fill_from_length. Qed.

Lemma blank_length (row : list R) (sp : Z) (changes : list Z) :
  List.length (blank row sp changes) = List.length row.
Proof.
  unfold blank. revert row.
  induction changes as [|c cs IH]; intros row; simpl; [reflexivity |].
  now rewrite IH, assign_slice_length.
Qed.

Lemma fill_from_nth {A : Type} (k lo hi : Z) (v d : A) (row : list A) (i : nat) :
  (i < List.length row)%nat ->
  nth i (fill_from k lo hi v row) d =
  if ((lo <=? k + Z.of_nat i) && (k + Z.of_nat i <? hi))%Z then v
  else nth i row d.
Proof.
  revert k i. induction row as [|a row IH]; intros k i Hi; simpl in Hi.
  - lia.
  - destruct i as [|i]; simpl.
    + now rewrite Z.add_0_r.
    + rewrite IH by lia.
      replace (k + 1 + Z.of_nat i)%Z with (k + Z.pos (Pos.of_succ_nat i))%Z
        by lia.
      reflexivity.
Qed.

(** ** The taper *)

Lemma taper_length (vec : list R) (tp : Z) (r : list R) :
  taper vec tp = Ok r -> List.length r = List.length vec.
Proof.
  unfold taper.
  destruct (np_linspace 1 0 tp) as [ramp|]; [| discriminate]. simpl.
  destruct (broadcast_mul _ ramp) as [prod|]; [| discriminate]. simpl.
  destruct (broadcast_to _ prod) as [new_tail|] eqn:E; [| discriminate].
  simpl. intros [= <-].
  apply broadcast_to_length in E.
  rewrite length_app, E, <- length_app, firstn_skipn. reflexivity.
Qed.

(** With at least one taper sample and no more than the vector has, the
    taper returns and multiplies the tail by the ramp. *)
Lemma taper_ok (vec : list R) (tp : Z) :
  (1 <= tp <= Z.of_nat (List.length vec))%Z ->
  taper vec tp = Ok (scale_tail vec (linspace 1 0 (Z.to_nat tp))).
Proof.
  intros Htp. unfold taper, np_linspace, scale_tail, slice_bound.
  replace (tp <? 0)%Z with false by (symmetry; apply Z.ltb_ge; lia).
  replace (- tp <? 0)%Z with true by (symmetry; apply Z.ltb_lt; lia).
  simpl bind. rewrite linspace_length.
  replace (Z.to_nat (Z.max (- tp + Z.of_nat (List.length vec)) 0))
    with (List.length vec - Z.to_nat tp)%nat by lia.
  set (start := (List.length vec - Z.to_nat tp)%nat).
  assert (Hlen : List.length (skipn start vec) = Z.to_nat tp).
  { rewrite length_skipn. unfold start. lia. }
  unfold broadcast_mul. rewrite Hlen, linspace_length, Nat.eqb_refl.
  simpl bind. unfold broadcast_to.
  rewrite zip_mul_length by now rewrite linspace_length.
  rewrite Hlen, Nat.eqb_refl. reflexivity.
Qed.

(** Without taper samples the slice [vec[-0:]] is the whole vector and
    the ramp is empty: the product cannot be formed or stored. *)
Lemma taper_zero (vec : list R) :
  vec <> [] -> taper vec 0 = Raise ValueError.
Proof.
  intros Hne. unfold taper, np_linspace, slice_bound. simpl.
  destruct vec as [|a [|b vec]]; [congruence | reflexivity | reflexivity].
Qed.

End Arrays.

(** ** Building one group *)

Section Builder.

Lemma mapM_ok {A B : Type} (f : A -> result B) (h : A -> B) (l : list A) :
  (forall a, In a l -> f a = Ok (h a)) -> mapM f l = Ok (map h l).
Proof.
  induction l as [|a l IH]; intros H; simpl; [reflexivity |].
  rewrite (H a) by now left. simpl.
  rewrite IH by (intros; apply H; now right). reflexivity.
Qed.

Lemma mapM_inv {A B : Type} (f : A -> result B) (l : list A) (bs : list B) :
  mapM f l = Ok bs -> Forall2 (fun a b => f a = Ok b) l bs.
Proof.
  revert bs. induction l as [|a l IH]; intros bs; simpl.
  - intros [= <-]. constructor.
  - destruct (f a) as [b|] eqn:Ea; [| discriminate]. simpl.
    destruct (mapM f l) as [bs'|]; [| discriminate]. simpl.
    intros [= <-]. constructor; auto.
Qed.

Lemma mapM_raise {A B : Type} (f : A -> result B) (l : list A) (a : A) (e : exn) :
  In a l -> f a = Raise e -> exists e', mapM f l = Raise e'.
Proof.
  induction l as [|a0 l IH]; intros Hin Ha; [contradiction |].
  simpl. destruct Hin as [->|Hin].
  - rewrite Ha. now exists e.
  - destruct (f a0); [| eexists; reflexivity]. simpl.
    destruct (IH Hin Ha) as [e' ->]. now exists e'.
Qed.

Lemma range_In (n v : Z) : In v (range n) <-> (0 <= v < n)%Z.
Proof.
  unfold range. rewrite in_map_iff. split.
  - intros [i [<- Hi]]. apply in_seq in Hi. lia.
  - intros Hv. exists (Z.to_nat v). split; [lia | apply in_seq; lia].
Qed.

Lemma range_length (n : Z) : List.length (range n) = Z.to_nat n.
Proof. unfold range. now rewrite length_map, length_seq. Qed.

Lemma count_eq_members (g : Z) (table : list target) :
  count_eq g (map group table) = Z.of_nat (List.length (members g table)).
Proof.
  unfold count_eq, members. f_equal.
  induction table as [|t table IH]; simpl; [reflexivity |].
  destruct (group t =? g)%Z; simpl; now rewrite IH.
Qed.

Lemma np_max_max_group (groups : list Z) :
  groups <> [] -> np_max groups = Ok (max_group groups).
Proof. destruct groups; [congruence | reflexivity]. Qed.

Lemma np_max_inv (groups : list Z) (top : Z) :
  np_max groups = Ok top -> groups <> [] /\ top = max_group groups.
Proof.
  destruct groups; [discriminate |]. intros [= <-].
  split; [discriminate | reflexivity].
Qed.

Lemma fold_left_max_ge (l : list Z) (a : Z) :
  (a <= fold_left Z.max l a)%Z /\ Forall (fun v => (v <= fold_left Z.max l a)%Z) l.
Proof.
  revert a. induction l as [|b l IH]; intros a; simpl.
  - split; [lia | constructor].
  - destruct (IH (Z.max a b)) as [H1 H2]. split; [lia |].
    constructor; [lia | assumption].
Qed.

Lemma max_group_ge (groups : list Z) (v : Z) :
  In v groups -> (v <= max_group groups)%Z.
Proof.
  destruct groups as [|a l]; [contradiction |].
  simpl. destruct (fold_left_max_ge l a) as [H1 H2].
  intros [<-|Hv]; [assumption |].
  rewrite Forall_forall in H2. now apply H2.
Qed.

Lemma np_repeat_length {A : Type} (a : list A) (k : nat) :
  List.length (np_repeat a k) = (List.length a * k)%nat.
Proof.
  unfold np_repeat. induction a as [|v a IH]; simpl; [reflexivity |].
  now rewrite length_app, repeat_length, IH.
Qed.

Lemma np_tile_length {A : Type} (a : list A) (reps : nat) :
  List.length (np_tile a reps) = (reps * List.length a)%nat.
Proof.
  unfold np_tile. induction reps as [|r IH]; simpl; [reflexivity |].
  now rewrite length_app, IH.
Qed.

(** The tiles cover the row: [cycle_points * ceil(n / cycle_points) >= n]. *)
Lemma ceil_cover (n cp : Z) :
  (0 < cp)%Z -> (0 <= n)%Z ->
  (n <= Qceiling (inject_Z n / inject_Z cp) * cp)%Z.
Proof.
  intros Hcp Hn.
  pose proof (Qle_ceiling (inject_Z n / inject_Z cp)) as Hc.
  assert (Hpos : 0 < inject_Z cp).
  { change (inject_Z 0 < inject_Z cp). rewrite <- Zlt_Qlt. exact Hcp. }
  apply (Qmult_le_compat_r _ _ (inject_Z cp)) in Hc; [| now apply Qlt_le_weak].
  rewrite Qmult_comm, Qmult_div_r in Hc.
  2:{ intros E. rewrite E in Hpos. now apply Qlt_irrefl in Hpos. }
  rewrite <- inject_Z_mult in Hc. rewrite Zle_Qle. exact Hc.
Qed.

Lemma positions_row_length {A : Type} (positions : list A) (cp : Z) (n : nat) :
  (1 <= cp)%Z -> positions <> [] ->
  List.length (positions_row positions cp n) = n.
Proof.
  intros Hcp Hne. unfold positions_row.
  rewrite length_firstn, np_tile_length, np_repeat_length.
  pose proof (ceil_cover (n := Z.of_nat n) (cp := cp) ltac:(lia) ltac:(lia)) as Hc.
  destruct positions as [|p ps]; [congruence |]. simpl List.length.
  apply Nat.min_l. nia.
Qed.

Lemma alternate_ok (positions : list R) (cp : Z) (n : nat) :
  (1 <= cp)%Z -> positions <> [] ->
  alternate positions cp n = Ok (positions_row positions cp n).
Proof.
  intros Hcp Hne. unfold alternate.
  replace (cp <? 0)%Z with false by (symmetry; apply Z.ltb_ge; lia).
  replace (cp =? 0)%Z with false by (symmetry; apply Z.eqb_neq; lia).
  simpl bind.
  pose proof (ceil_cover (n := Z.of_nat n) (cp := cp) ltac:(lia) ltac:(lia)) as Hc.
  replace (_ <? 0)%Z with false by (symmetry; apply Z.ltb_ge; nia).
  simpl bind. fold (positions_row positions cp n).
  rewrite <- (positions_row_length n Hcp Hne) at 1.
  apply broadcast_to_same.
Qed.

Lemma alternate_length (positions : list R) (cp : Z) (n : nat) (r : list R) :
  alternate positions cp n = Ok r -> List.length r = n.
Proof.
  unfold alternate.
  destruct (cp <? 0)%Z; [discriminate |]. simpl.
  destruct (cp =? 0)%Z; [discriminate |]. simpl.
  destruct (_ <? 0)%Z; [discriminate |]. simpl.
  apply broadcast_to_length.
Qed.

(** Whatever [build_group] returns has three rows as long as [times]. *)
Lemma build_group_lengths (ui : ui_state) (times : list R) (tp g : Z)
      (label : string) (irow xrow yrow : list R) :
  build_group ui times tp g = Ok (label, (irow, (xrow, yrow))) ->
  List.length irow = List.length times /\
  List.length xrow = List.length times /\
  List.length yrow = List.length times.
Proof.
  unfold build_group.
  destruct (2 <=? count_eq g (map group (targets_table ui)))%Z.
  - destruct (taper _ tp) as [vec|] eqn:Et; [| discriminate]. simpl.
    destruct (Qeq_bool (switch_freq ui) 0); [discriminate |]. simpl.
    destruct (alternate (map x _) _ _) as [xr|] eqn:Ex; [| discriminate].
    simpl.
    destruct (alternate (map y _) _ _) as [yr|] eqn:Ey; [| discriminate].
    simpl. intros [= _ <- <- <-].
    apply taper_length in Et. rewrite create_stim_length in Et.
    rewrite blank_length, length_map, Et.
    rewrite (alternate_length _ _ _ Ex), (alternate_length _ _ _ Ey). auto.
  - destruct (members g (targets_table ui)) as [|row rows]; [discriminate |].
    destruct (taper _ tp) as [vec|] eqn:Et; [| discriminate]. simpl.
    intros [= _ <- <- <-].
    apply taper_length in Et. rewrite create_stim_length in Et.
    rewrite length_map, !repeat_length. auto.
Qed.

Lemma times_of_length (ui : ui_state) :
  List.length (times_of ui) = n_samples ui.
Proof. apply linspace_length. Qed.

(** Under a good timing a group with members is built, and its rows are
    the ones defined by [intensity_row], [x_row] and [y_row]. *)
Lemma build_group_ok (ui : ui_state) (g : Z) :
  timing_ok ui ->
  members g (targets_table ui) <> [] ->
  build_group ui (times_of ui) (taper_points ui) g
  = Ok (region_label ui g, (intensity_row ui g, (x_row ui g, y_row ui g))).
Proof.
  intros (Hon & Htp & Hsf & Hcp) Hall.
  assert (Htaper :
    taper (create_stim (times_of ui) (stim_freq ui) (sin_stim ui)
                       (duty_cycle ui)) (taper_points ui)
    = Ok (tapered_stim ui)).
  { apply taper_ok. rewrite create_stim_length, times_of_length.
    unfold n_samples. lia. }
  unfold build_group, intensity_row, x_row, y_row, multi_site, region_label.
  destruct (2 <=? count_eq g (map group (targets_table ui)))%Z.
  - rewrite Htaper, Hsf. simpl bind.
    fold (cycle_points ui). fold (switch_points ui).
    assert (Hx : map x (members g (targets_table ui)) <> []).
    { destruct (members g (targets_table ui)); [congruence | discriminate]. }
    assert (Hy : map y (members g (targets_table ui)) <> []).
    { destruct (members g (targets_table ui)); [congruence | discriminate]. }
    rewrite times_of_length.
    rewrite (alternate_ok _ Hcp Hx), (alternate_ok _ Hcp Hy). reflexivity.
  - destruct (members g (targets_table ui)) as [|row rows]; [congruence |].
    rewrite Htaper, times_of_length. reflexivity.
Qed.

End Builder.

(** ** The whole matrix *)

Section Matrix.

Variable ui : ui_state.

Let groups := map group (targets_table ui).

Lemma create_output_inv (out : output) :
  create_output ui = Ok out ->
  exists built,
    (0 <= on_points ui + taper_points ui)%Z /\
    targets_table ui <> [] /\
    mapM (build_group ui (times_of ui) (taper_points ui))
         (range (max_group groups + 1)) = Ok built /\
    out = {| regions := map fst built;
             intensity_matrix := map (fun b => fst (snd b)) built;
             x_matrix := map (fun b => fst (snd (snd b))) built;
             y_matrix := map (fun b => snd (snd (snd b))) built |}.
Proof.
  unfold create_output, np_linspace, np_zeros_shape.
  fold (on_points ui) (taper_points ui).
  destruct (on_points ui + taper_points ui <? 0)%Z eqn:EN;
    [cbn [bind]; discriminate |].
  cbn [bind]. fold groups.
  destruct (np_max groups) as [top|] eqn:Em; [| cbn [bind]; discriminate].
  apply np_max_inv in Em. destruct Em as [Hne ->].
  cbn [bind].
  destruct (max_group groups + 1 + 1 <? 0)%Z; [cbn [bind]; discriminate |].
  cbn [bind].
  destruct (max_group groups + 1 <? 0)%Z; [cbn [bind]; discriminate |].
  cbn [bind].
  fold (n_samples ui). fold (times_of ui).
  destruct (mapM _ _) as [built|] eqn:Eb; [| cbn [bind]; discriminate].
  cbn [bind]. intros [= <-]. exists built.
  split; [apply Z.ltb_ge in EN; exact EN |].
  split; [| split; [reflexivity | reflexivity]].
  intros E. apply Hne. unfold groups. now rewrite E.
Qed.

(** The steps of [create_output] before the loop over the groups. *)
Lemma create_output_unfold :
  (0 <= on_points ui + taper_points ui)%Z ->
  targets_table ui <> [] ->
  (0 <= max_group groups + 1)%Z ->
  create_output ui =
  (built <- mapM (build_group ui (times_of ui) (taper_points ui))
                 (range (max_group groups + 1)) ;;
   Ok {| regions := map fst built;
         intensity_matrix := map (fun b => fst (snd b)) built;
         x_matrix := map (fun b => fst (snd (snd b))) built;
         y_matrix := map (fun b => snd (snd (snd b))) built |}).
Proof.
  intros HN Hne Hmax.
  unfold create_output, np_linspace.
  fold (on_points ui) (taper_points ui).
  replace (on_points ui + taper_points ui <? 0)%Z with false
    by (symmetry; apply Z.ltb_ge; lia).
  cbn [bind]. fold groups.
  rewrite np_max_max_group
    by (unfold groups; destruct (targets_table ui); [congruence | discriminate]).
  cbn [bind]. unfold np_zeros_shape.
  replace (max_group groups + 1 + 1 <? 0)%Z with false
    by (symmetry; apply Z.ltb_ge; lia).
  replace (max_group groups + 1 <? 0)%Z with false
    by (symmetry; apply Z.ltb_ge; lia).
  cbn [bind]. reflexivity.
Qed.

Lemma create_output_ok :
  buildable ui -> create_output ui = Ok (built_output ui).
Proof.
  intros (Ht & Hne & Hmax & Hall).
  pose proof Ht as (Hon & Htp & _).
  fold groups in Hmax, Hall.
  rewrite create_output_unfold by (auto; lia).
  rewrite (mapM_ok _
             (fun g => (region_label ui g,
                        (intensity_row ui g, (x_row ui g, y_row ui g))))).
  - cbn [bind]. unfold built_output. fold groups.
    rewrite !map_map. reflexivity.
  - intros g Hg. apply range_In in Hg.
    apply build_group_ok; [exact Ht | apply Hall; lia].
Qed.

(** A group id in range without a member target makes the build raise. *)
Lemma create_output_hole (g : Z) :
  (0 <= g <= max_group groups)%Z ->
  members g (targets_table ui) = [] ->
  exists e, create_output ui = Raise e.
Proof.
  intros Hg Hmem.
  destruct (create_output ui) as [out|e] eqn:E; [| now exists e].
  exfalso.
  destruct (create_output_inv E) as (built & _ & _ & Hb & _).
  assert (Hr : build_group ui (times_of ui) (taper_points ui) g
               = Raise IndexError).
  { unfold build_group. rewrite count_eq_members, Hmem. reflexivity. }
  destruct (@mapM_raise _ _ (build_group ui (times_of ui) (taper_points ui))
              (range (max_group groups + 1)) g IndexError)
    as [e' He']; [apply range_In; lia | exact Hr |].
  congruence.
Qed.

(** Without taper samples, and with at least one sample and a target in
    group 0, the build raises [ValueError] at the first group. *)
Lemma create_output_no_taper :
  taper_points ui = 0%Z -> (0 < on_points ui)%Z ->
  members 0 (targets_table ui) <> [] ->
  create_output ui = Raise ValueError.
Proof.
  intros Htp Hon Hmem.
  assert (Hne : groups <> []).
  { unfold groups. destruct (targets_table ui); [| discriminate].
    now simpl in Hmem. }
  assert (H0 : In 0%Z groups).
  { unfold groups, members in *.
    destruct (filter _ (targets_table ui)) as [|t ts] eqn:Ef; [congruence |].
    assert (Ht : In t (filter (fun t => (group t =? 0)%Z) (targets_table ui)))
      by (rewrite Ef; now left).
    apply filter_In in Ht. destruct Ht as [Ht Hg].
    apply Z.eqb_eq in Hg. rewrite <- Hg. now apply in_map. }
  apply max_group_ge in H0.
  assert (Hne' : targets_table ui <> []).
  { intros E. apply Hne. unfold groups. now rewrite E. }
  rewrite create_output_unfold by (auto; lia).
  assert (Hr : range (max_group groups + 1)
               = 0%Z :: map Z.of_nat (seq 1 (Z.to_nat (max_group groups)))).
  { unfold range.
    replace (Z.to_nat (max_group groups + 1))
      with (S (Z.to_nat (max_group groups))) by lia.
    reflexivity. }
  rewrite Hr. simpl mapM.
  assert (Hg : build_group ui (times_of ui) (taper_points ui) 0
               = Raise ValueError).
  { assert (Ht : taper (create_stim (times_of ui) (stim_freq ui) (sin_stim ui)
                          (duty_cycle ui)) (taper_points ui)
                 = Raise ValueError).
    { rewrite Htp. apply taper_zero. intros E.
      apply (f_equal (@List.length R)) in E.
      rewrite create_stim_length, times_of_length in E.
      unfold n_samples in E. simpl in E. lia. }
    unfold build_group.
    destruct (2 <=? count_eq 0 (map group (targets_table ui)))%Z.
    - now rewrite Ht.
    - destruct (members 0 (targets_table ui)); [congruence |].
      now rewrite Ht. }
  now rewrite Hg.
Qed.

Lemma py_int_floor (q : Q) : 0 <= q -> py_int q = Qfloor q.
Proof.
  destruct q as [n d]. unfold Qle, py_int, Qfloor. simpl. intros H.
  apply Z.quot_div_nonneg; lia.
Qed.

End Matrix.

(** ** Claims on the shape of the matrix *)

Lemma Forall2_nth {A B : Type} (P : A -> B -> Prop) (l : list A) (l' : list B)
      (i : nat) (d : A) (d' : B) :
  Forall2 P l l' -> (i < List.length l)%nat -> P (nth i l d) (nth i l' d').
Proof.
  intros H. revert i. induction H as [|a b l l' Hab _ IH]; intros i Hi.
  - simpl in Hi. lia.
  - destruct i as [|i]; simpl; [assumption | apply IH; simpl in Hi; lia].
Qed.

Lemma Forall2_length_eq {A B : Type} (P : A -> B -> Prop) (l : list A)
      (l' : list B) :
  Forall2 P l l' -> List.length l = List.length l'.
Proof. induction 1; simpl; congruence. Qed.

Lemma short_run_timing : timing_ok short_run.
Proof.
  unfold timing_ok.
  split; [vm_compute; discriminate |].
  split; [vm_compute; discriminate |].
  split; [reflexivity | vm_compute; discriminate].
Qed.

Lemma short_run_buildable : buildable short_run.
Proof.
  split; [exact short_run_timing |].
  split; [discriminate |].
  split; [vm_compute; discriminate |].
  intros g Hg. change (max_group _) with 1%Z in Hg.
  assert (Eg : g = 0%Z \/ g = 1%Z) by lia.
  destruct Eg as [-> | ->]; discriminate.
Qed.

(** C1, on the code.  On the end-to-end scenario (targets A, B, C, one
    second at 1000 Hz, no taper), whatever the waveform and the switch
    settings, [create_output] does not return: the taper line multiplies
    the whole 1000-sample vector by an empty ramp and raises
    [ValueError]. *)
Theorem scenario_raises (freq : R) (sin : bool) (duty : R) (sw_freq sw_dur : Q) :
  create_output (scenario freq sin duty sw_freq sw_dur) = Raise ValueError.
Proof.
  apply create_output_no_taper.
  - reflexivity.
  - reflexivity.
  - discriminate.
Qed.

(** C6, as the code has it.  A build that returns holds one label and one
    row of each matrix for every group id in [[0, max_group]], and then
    every id of that range has a member target; when an id of that range
    has no member target the build raises instead of storing a zero row.
    On a buildable input the build does return. *)
Theorem one_matrix_per_group (ui : ui_state) :
  let top := max_group (map group (targets_table ui)) in
  (forall out, create_output ui = Ok out ->
     List.length (regions out) = Z.to_nat (top + 1) /\
     List.length (intensity_matrix out) = Z.to_nat (top + 1) /\
     List.length (x_matrix out) = Z.to_nat (top + 1) /\
     List.length (y_matrix out) = Z.to_nat (top + 1) /\
     forall g, (0 <= g <= top)%Z -> members g (targets_table ui) <> []) /\
  (forall g, (0 <= g <= top)%Z -> members g (targets_table ui) = [] ->
     exists e, create_output ui = Raise e) /\
  (buildable ui -> exists out, create_output ui = Ok out).
Proof.
  intros top. split; [| split].
  - intros out Hout.
    destruct (create_output_inv ui Hout) as (built & _ & _ & Hb & ->).
    apply mapM_inv, Forall2_length_eq in Hb. rewrite range_length in Hb.
    simpl. rewrite !length_map. fold top in Hb.
    repeat (split; [symmetry; exact Hb |]).
    intros g Hg Hmem.
    destruct (create_output_hole ui Hg Hmem) as [e He]. congruence.
  - intros g Hg Hmem. exact (create_output_hole ui Hg Hmem).
  - intros Hb. exists (built_output ui). now apply create_output_ok.
Qed.

(** C7.  For a consistent timing configuration, the matrices that
    [create_output] returns have one row for every group id from 0 to the
    largest id of the table, and for every such group the intensity, x
    and y rows have
    [floor(on_duration*sample_rate) + floor(taper_duration*sample_rate)]
    samples; the three matrices and the labels have the same number of
    rows; on a buildable input [create_output] does return, with at least
    one row. *)
Theorem row_lengths (ui : ui_state) :
  consistent ui ->
  let N := Z.to_nat (Qfloor (on_dur ui * sample_rate ui)
                     + Qfloor (taper_dur ui * sample_rate ui)) in
  let top := max_group (map group (targets_table ui)) in
  (forall out, create_output ui = Ok out ->
     List.length (intensity_matrix out) = Z.to_nat (top + 1) /\
     (forall g, (0 <= g <= top)%Z ->
        List.length (nth (Z.to_nat g) (intensity_matrix out) []) = N /\
        List.length (nth (Z.to_nat g) (x_matrix out) []) = N /\
        List.length (nth (Z.to_nat g) (y_matrix out) []) = N) /\
     rows_of_length N (intensity_matrix out) /\
     rows_of_length N (x_matrix out) /\
     rows_of_length N (y_matrix out) /\
     List.length (x_matrix out) = List.length (intensity_matrix out) /\
     List.length (y_matrix out) = List.length (intensity_matrix out) /\
     List.length (regions out) = List.length (intensity_matrix out)) /\
  (buildable ui ->
   exists out, create_output ui = Ok out /\
               (1 <= List.length (intensity_matrix out))%nat).
Proof.
  intros (Hon & Htap & Hsr) N top.
  assert (Hall : forall out, create_output ui = Ok out ->
     List.length (intensity_matrix out) = Z.to_nat (top + 1) /\
     rows_of_length N (intensity_matrix out) /\
     rows_of_length N (x_matrix out) /\
     rows_of_length N (y_matrix out) /\
     List.length (x_matrix out) = List.length (intensity_matrix out) /\
     List.length (y_matrix out) = List.length (intensity_matrix out) /\
     List.length (regions out) = List.length (intensity_matrix out)).
  { intros out Hout.
    assert (EN : N = n_samples ui).
    { unfold N, n_samples, on_points, taper_points.
      rewrite !py_int_floor; [reflexivity | |];
        apply Qmult_le_0_compat; auto using Qlt_le_weak. }
    destruct (create_output_inv ui Hout) as (built & _ & _ & Hb & ->).
    apply mapM_inv in Hb.
    assert (Hcount : List.length built = Z.to_nat (top + 1)).
    { apply Forall2_length_eq in Hb. rewrite range_length in Hb.
      symmetry. exact Hb. }
    assert (Hrows : Forall (fun b =>
              List.length (fst (snd b)) = N /\
              List.length (fst (snd (snd b))) = N /\
              List.length (snd (snd (snd b))) = N) built).
    { clear Hout Hcount.
      induction Hb as [|g b ids built Hg _ IH]; constructor; auto.
      destruct b as [label [irow [xrow yrow]]].
      apply build_group_lengths in Hg. rewrite times_of_length in Hg.
      simpl. rewrite EN. exact Hg. }
    unfold rows_of_length. simpl. rewrite !length_map.
    split; [exact Hcount |].
    repeat split; try reflexivity;
      apply Forall_map; eapply Forall_impl; [| exact Hrows | | exact Hrows
                                             | | exact Hrows];
      simpl; intros b Hlen; tauto. }
  split.
  - intros out Hout.
    destruct (Hall out Hout) as (Hcount & Hi & Hx & Hy & Hlx & Hly & Hlr).
    split; [exact Hcount |].
    split; [| repeat split; assumption].
    intros g Hg. unfold rows_of_length in Hi, Hx, Hy.
    rewrite Forall_forall in Hi, Hx, Hy.
    repeat split; [apply Hi | apply Hx | apply Hy]; apply nth_In; lia.
  - intros Hb. exists (built_output ui).
    assert (Hout : create_output ui = Ok (built_output ui))
      by now apply create_output_ok.
    split; [exact Hout |].
    destruct (Hall _ Hout) as (Hcount & _).
    destruct Hb as (_ & _ & Htop & _). fold top in Htop. lia.
Qed.

(** ** The waveform *)

Section Waveform.

Local Open Scope R_scope.

Lemma nth_map_in {A B : Type} (f : A -> B) (l : list A) (i : nat) (d : B) (d' : A) :
  (i < List.length l)%nat -> nth i (map f l) d = f (nth i l d').
Proof.
  intros Hi. rewrite (nth_indep _ d (f d')) by now rewrite length_map.
  apply map_nth.
Qed.

Lemma np_mod_bounds (a b : R) : 0 < b -> 0 <= np_mod a b < b.
Proof.
  intros Hb. unfold np_mod.
  destruct (base_Int_part (a / b)) as [H1 H2].
  assert (E : a = a / b * b) by (field; lra).
  split.
  - apply Rmult_le_compat_r with (r := b) in H1; lra.
  - assert (H3 : a / b - IZR (Int_part (a / b)) < 1) by lra.
    apply Rmult_lt_compat_r with (r := b) in H3; lra.
Qed.

Lemma square_values (t duty : R) : square t duty = 1 \/ square t duty = -1.
Proof. unfold square. destruct (Rlt_dec _ _); auto. Qed.

(** At full duty the wave is high all the time. *)
Lemma square_full_duty (t : R) : square t 1 = 1.
Proof.
  unfold square. destruct (Rlt_dec _ _) as [_|H]; [reflexivity |].
  exfalso. apply H.
  assert (H2 : 0 < 2 * PI) by (pose proof PI_RGT_0; lra).
  pose proof (np_mod_bounds t H2). lra.
Qed.

End Waveform.

(** C5.  For every time vector, frequency, kind and duty cycle,
    [create_stim] (a function of its four arguments only) returns as many
    samples as there are times, each in [[0,1]];
    sample [i] is [(sin(2*pi*f*t_i)+1)/2] for the sine kind and
    [(square(2*pi*f*t_i, duty/100)+1)/2] for the square kind, where
    [square] is +1 while the phase within the period of [2*pi] is below
    [duty*2*pi] and -1 otherwise. *)
Theorem create_stim_waveform (times : list R) (freq duty : R) (kind : bool) :
  List.length (create_stim times freq kind duty) = List.length times /\
  Forall (fun v => (0 <= v <= 1)%R) (create_stim times freq kind duty) /\
  (forall i, (i < List.length times)%nat ->
     nth i (create_stim times freq true duty) 0%R
     = ((sin (2 * PI * freq * nth i times 0) + 1) / 2)%R) /\
  (forall i, (i < List.length times)%nat ->
     nth i (create_stim times freq false duty) 0%R
     = ((square (2 * PI * freq * nth i times 0) (duty / 100) + 1) / 2)%R) /\
  (forall t w,
     (0 <= np_mod t (2 * PI) < 2 * PI)%R /\
     ((np_mod t (2 * PI) < w * (2 * PI))%R -> square t w = 1%R) /\
     (~ (np_mod t (2 * PI) < w * (2 * PI))%R -> square t w = (-1)%R)).
Proof.
  split; [apply create_stim_length |].
  split.
  { unfold create_stim. destruct kind; apply Forall_map, Forall_forall;
      intros t _.
    - pose proof (SIN_bound (2 * PI * t * freq)). lra.
    - destruct (square_values (2 * PI * t * freq) (duty / 100)) as [-> | ->];
        lra. }
  split.
  { intros i Hi. unfold create_stim.
    rewrite (nth_map_in _ _ 0%R 0%R Hi).
    do 3 f_equal. ring. }
  split.
  { intros i Hi. unfold create_stim.
    rewrite (nth_map_in _ _ 0%R 0%R Hi).
    do 3 f_equal. ring. }
  intros t w. split.
  { apply np_mod_bounds. pose proof PI_RGT_0. lra. }
  unfold square. split; intros H; destruct (Rlt_dec _ _); tauto.
Qed.

(** ** Blanking at the switch boundaries *)

Section Blanking.

Lemma Rneqb_true (a b : R) : Rneqb a b = true <-> a <> b.
Proof.
  unfold Rneqb. destruct (Req_dec_T a b); split; congruence.
Qed.

Lemma Rneqb_refl (a : R) : Rneqb a a = false.
Proof. unfold Rneqb. destruct (Req_dec_T a a); congruence. Qed.

Lemma assign_slice_nth {A : Type} (row : list A) (start stop : Z) (v d : A)
      (k : nat) :
  (k < List.length row)%nat ->
  nth k (assign_slice row start stop v) d =
  if ((slice_bound (Z.of_nat (List.length row)) start <=? Z.of_nat k)
      && (Z.of_nat k <? slice_bound (Z.of_nat (List.length row)) stop))%Z
  then v else nth k row d.
Proof.
  intros Hk. unfold assign_slice. now rewrite fill_from_nth.
Qed.

(** A sample that is zero stays zero through the rest of the loop. *)
Lemma blank_zero_stays (row : list R) (sp : Z) (cs : list Z) (k : nat) :
  (k < List.length row)%nat -> nth k row 0%R = 0%R ->
  nth k (blank row sp cs) 0%R = 0%R.
Proof.
  unfold blank. revert row.
  induction cs as [|c cs IH]; intros row Hk H0; simpl; [exact H0 |].
  apply IH.
  - now rewrite assign_slice_length.
  - rewrite assign_slice_nth by exact Hk.
    destruct (_ && _); [reflexivity | exact H0].
Qed.

(** The window of a change index is zero at the end of the loop. *)
Lemma blank_window (row : list R) (sp : Z) (cs : list Z) (c : Z) (k : nat) :
  In c cs -> (1 <= c)%Z ->
  (c - 1 <= Z.of_nat k < c + sp - 1)%Z ->
  (k < List.length row)%nat ->
  nth k (blank row sp cs) 0%R = 0%R.
Proof.
  revert row.
  induction cs as [|c0 cs IH]; intros row Hin Hc Hw Hk; [contradiction |].
  destruct Hin as [-> | Hin].
  - change (blank row sp (c :: cs))
      with (blank (assign_slice row (c - 1) (c + sp - 1) 0%R) sp cs).
    apply blank_zero_stays; [now rewrite assign_slice_length |].
    rewrite assign_slice_nth by exact Hk.
    unfold slice_bound.
    replace (c - 1 <? 0)%Z with false by (symmetry; apply Z.ltb_ge; lia).
    replace (c + sp - 1 <? 0)%Z with false by (symmetry; apply Z.ltb_ge; lia).
    replace (_ && _) with true; [reflexivity |].
    symmetry. apply andb_true_iff. split; [apply Z.leb_le | apply Z.ltb_lt]; lia.
  - change (blank row sp (c0 :: cs))
      with (blank (assign_slice row (c0 - 1) (c0 + sp - 1) 0%R) sp cs).
    apply IH; auto. now rewrite assign_slice_length.
Qed.

(** Every index at which a position changes is among the changes. *)
Lemma changes_from_hit (xs ys : list R) (k : Z) (i : nat) :
  List.length xs = List.length ys ->
  (S i < List.length xs)%nat ->
  nth (S i) xs 0%R <> nth i xs 0%R \/ nth (S i) ys 0%R <> nth i ys 0%R ->
  In (k + Z.of_nat i)%Z (changes_from k xs ys).
Proof.
  revert ys k i. induction xs as [|x0 xs IH]; intros ys k i Hlen Hi Hd.
  - simpl in Hi. lia.
  - destruct ys as [|y0 ys]; [discriminate |].
    destruct xs as [|x1 xs]; [simpl in Hi; lia |].
    destruct ys as [|y1 ys]; [discriminate |].
    change (changes_from k (x0 :: x1 :: xs) (y0 :: y1 :: ys))
      with (if Rneqb x1 x0 || Rneqb y1 y0
            then k :: changes_from (k + 1) (x1 :: xs) (y1 :: ys)
            else changes_from (k + 1) (x1 :: xs) (y1 :: ys)).
    destruct i as [|i].
    + simpl in Hd. rewrite Z.add_0_r.
      replace (Rneqb x1 x0 || Rneqb y1 y0) with true; [now left |].
      symmetry. apply orb_true_iff.
      destruct Hd as [Hd|Hd]; [left | right]; now apply Rneqb_true.
    + assert (Hin : In (k + 1 + Z.of_nat i)%Z
                       (changes_from (k + 1) (x1 :: xs) (y1 :: ys))).
      { apply IH; [simpl in *; lia | simpl in *; lia | exact Hd]. }
      replace (k + Z.of_nat (S i))%Z with (k + 1 + Z.of_nat i)%Z by lia.
      destruct (_ || _); [now right | assumption].
Qed.

End Blanking.

(** ** The rows of a returned matrix *)

Section Rows.

Variable ui : ui_state.

(** What [build_group] returned, read back from the code. *)
Lemma build_group_inv (g : Z) (label : string) (irow xrow yrow : list R) :
  build_group ui (times_of ui) (taper_points ui) g
  = Ok (label, (irow, (xrow, yrow))) ->
  exists tap scale,
    taper (stim_of ui) (taper_points ui) = Ok tap /\
    (multi_site ui g = true ->
       irow = blank (map (fun v => (v * scale)%R) tap) (switch_points ui)
                    (changes_from 0 xrow yrow)) /\
    (multi_site ui g = false -> irow = map (fun v => (v * scale)%R) tap).
Proof.
  unfold build_group, multi_site. fold (stim_of ui).
  destruct (2 <=? count_eq g (map group (targets_table ui)))%Z.
  - destruct (taper (stim_of ui) (taper_points ui)) as [tap|];
      [| cbn [bind]; discriminate].
    cbn [bind].
    destruct (Qeq_bool (switch_freq ui) 0); [cbn [bind]; discriminate |].
    cbn [bind].
    destruct (alternate (map x _) _ _) as [xr|]; [| cbn [bind]; discriminate].
    cbn [bind].
    destruct (alternate (map y _) _ _) as [yr|]; [| cbn [bind]; discriminate].
    cbn [bind]. intros [= _ <- <- <-].
    exists tap, (np_mean (map intensity (members g (targets_table ui)))).
    split; [reflexivity |]. split; [reflexivity | discriminate].
  - destruct (members g (targets_table ui)) as [|row rows]; [discriminate |].
    destruct (taper (stim_of ui) (taper_points ui)) as [tap|];
      [| cbn [bind]; discriminate].
    cbn [bind]. intros [= _ <- <- <-].
    exists tap, (intensity row).
    split; [reflexivity |]. split; [discriminate | reflexivity].
Qed.

(** Row [g] of a returned matrix is what [build_group] returned for [g]. *)
Lemma out_row (out : output) (g : nat) :
  create_output ui = Ok out ->
  (g < List.length (intensity_matrix out))%nat ->
  build_group ui (times_of ui) (taper_points ui) (Z.of_nat g)
  = Ok (nth g (regions out) EmptyString,
        (nth g (intensity_matrix out) [],
         (nth g (x_matrix out) [], nth g (y_matrix out) []))).
Proof.
  intros Hout Hg.
  destruct (create_output_inv ui Hout) as (built & _ & _ & Hb & ->).
  simpl in *. rewrite length_map in Hg.
  apply mapM_inv in Hb.
  pose proof (Forall2_length_eq Hb) as Hlen.
  pose proof (@Forall2_nth _ _ _ _ _ g 0%Z
                (EmptyString, (@nil R, (@nil R, @nil R))) Hb) as Hn.
  rewrite Hlen in Hn. specialize (Hn Hg).
  assert (Er : nth g (range (max_group (map group (targets_table ui)) + 1)) 0%Z
               = Z.of_nat g).
  { unfold range. rewrite (@nth_map_in _ _ Z.of_nat _ g 0%Z 0%nat).
    - rewrite seq_nth; [reflexivity |]. rewrite range_length in Hlen. lia.
    - rewrite length_seq. rewrite range_length in Hlen. lia. }
  rewrite Er in Hn. rewrite Hn.
  set (d := (EmptyString, (@nil R, (@nil R, @nil R)))).
  rewrite (@nth_map_in _ _ fst built g EmptyString d Hg).
  rewrite (@nth_map_in _ _ (fun b => fst (snd b)) built g [] d Hg).
  rewrite (@nth_map_in _ _ (fun b => fst (snd (snd b))) built g [] d Hg).
  rewrite (@nth_map_in _ _ (fun b => snd (snd (snd b))) built g [] d Hg).
  destruct (nth g built d) as [l [i [xx yy]]]. reflexivity.
Qed.

End Rows.

(** C3, as the code has it.  In a multi-site group of a returned matrix,
    for every index [c >= 1] at which x or y differs between the samples
    [c] and [c+1], the intensity is 0 on the [switch_points] samples
    [c-1, c, ..., c+switch_points-2] (as far as the row goes): the zeroed
    window begins one sample before [c] and is [switch_points] samples
    long.  This holds at the end of the loop, so windows that overlap
    stay zero. *)
Theorem blanking_window (ui : ui_state) (out : output) (g c k : nat) :
  create_output ui = Ok out ->
  (g < List.length (intensity_matrix out))%nat ->
  multi_site ui (Z.of_nat g) = true ->
  let irow := nth g (intensity_matrix out) [] in
  let xrow := nth g (x_matrix out) [] in
  let yrow := nth g (y_matrix out) [] in
  (1 <= c)%nat -> (S c < List.length xrow)%nat ->
  nth c xrow 0%R <> nth (S c) xrow 0%R \/
  nth c yrow 0%R <> nth (S c) yrow 0%R ->
  (Z.of_nat c - 1 <= Z.of_nat k < Z.of_nat c + switch_points ui - 1)%Z ->
  (k < List.length irow)%nat ->
  nth k irow 0%R = 0%R.
Proof.
  intros Hout Hg Hmulti irow xrow yrow Hc Hlen Hd Hw Hk.
  pose proof (@out_row ui out g Hout Hg) as Hrow.
  fold irow xrow yrow in Hrow.
  destruct (build_group_lengths _ _ _ _ Hrow) as (Hli & Hlx & Hly).
  destruct (@build_group_inv ui _ _ _ _ _ Hrow)
    as (tap & scale & Htap & Hm & _).
  specialize (Hm Hmulti).
  assert (Hin : In (0 + Z.of_nat c)%Z (changes_from 0 xrow yrow)).
  { apply changes_from_hit; [congruence | exact Hlen |].
    destruct Hd as [Hd|Hd]; [left | right]; congruence. }
  rewrite Hm.
  apply blank_window with (c := (0 + Z.of_nat c)%Z); try lia; [exact Hin |].
  rewrite Hm, blank_length in Hk. exact Hk.
Qed.

(** ** The taper ramp *)

Section Ramp.

Local Open Scope R_scope.

Lemma linspace_nth (a b d : R) (n i : nat) :
  (i < n)%nat ->
  nth i (linspace a b n) d = a + INR i * ((b - a) / INR (n - 1)).
Proof.
  intros Hi. unfold linspace.
  rewrite (@nth_map_in _ _ _ (seq 0 n) i d 0%nat) by now rewrite length_seq.
  now rewrite seq_nth.
Qed.

(** The ramp of [tp >= 2] samples: sample [i] is [1 - i/(tp-1)]. *)
Lemma ramp_nth (tp i : nat) :
  (2 <= tp)%nat -> (i < tp)%nat ->
  nth i (linspace 1 0 tp) 0 = 1 - INR i / INR (tp - 1).
Proof.
  intros Htp Hi. rewrite linspace_nth by exact Hi.
  assert (0 < INR (tp - 1)) by (apply lt_0_INR; lia).
  field. lra.
Qed.

Lemma ramp_falls (tp i j : nat) :
  (2 <= tp)%nat -> (i <= j)%nat -> (j < tp)%nat ->
  0 <= nth j (linspace 1 0 tp) 0 <= nth i (linspace 1 0 tp) 0 /\
  nth i (linspace 1 0 tp) 0 <= 1.
Proof.
  intros Htp Hij Hj. rewrite !ramp_nth by lia.
  assert (Hpos : 0 < INR (tp - 1)) by (apply lt_0_INR; lia).
  assert (Hi0 : 0 <= INR i) by apply pos_INR.
  assert (Hle : INR i <= INR j) by (apply le_INR; exact Hij).
  assert (Hjt : INR j <= INR (tp - 1)) by (apply le_INR; lia).
  assert (Hinv : 0 < / INR (tp - 1)) by now apply Rinv_0_lt_compat.
  assert (H1 : INR j / INR (tp - 1) <= 1).
  { apply (Rmult_le_reg_r (INR (tp - 1))); [exact Hpos |].
    unfold Rdiv. rewrite Rmult_assoc, Rinv_l by lra. lra. }
  assert (H2 : INR i / INR (tp - 1) <= INR j / INR (tp - 1)).
  { unfold Rdiv. apply Rmult_le_compat_r; lra. }
  assert (H3 : 0 <= INR i / INR (tp - 1)).
  { unfold Rdiv. apply Rmult_le_pos; lra. }
  lra.
Qed.

Lemma ramp_ends (tp : nat) :
  (2 <= tp)%nat ->
  nth 0 (linspace 1 0 tp) 0 = 1 /\ nth (tp - 1) (linspace 1 0 tp) 0 = 0.
Proof.
  intros Htp. rewrite !ramp_nth by lia.
  assert (0 < INR (tp - 1)) by (apply lt_0_INR; lia).
  split; simpl INR; field; lra.
Qed.

(** A ramp of one sample is the value 1. *)
Lemma ramp_one : nth 0 (linspace 1 0 1) 0 = 1.
Proof. rewrite linspace_nth by lia. simpl. lra. Qed.

Lemma zip_mul_nth (a b : list R) (i : nat) :
  List.length a = List.length b -> (i < List.length a)%nat ->
  nth i (zip_mul a b) 0 = nth i a 0 * nth i b 0.
Proof.
  revert b i. induction a as [|u a IH]; intros [|v b] i Hl Hi;
    simpl in *; try lia.
  destruct i; [reflexivity | apply IH; lia].
Qed.

Lemma zip_mul_assoc (a r : list R) :
  zip_mul (zip_mul a r) r = zip_mul a (zip_mul r r).
Proof.
  revert r. induction a as [|u a IH]; intros [|v r]; simpl; try reflexivity.
  now rewrite IH, Rmult_assoc.
Qed.

Lemma scale_tail_length (v r : list R) :
  (List.length r <= List.length v)%nat ->
  List.length (scale_tail v r) = List.length v.
Proof.
  intros H. unfold scale_tail.
  rewrite length_app, length_firstn, zip_mul_length;
    rewrite ?length_skipn; lia.
Qed.

Lemma scale_tail_nth_head (v r : list R) (i : nat) (d : R) :
  (i < List.length v - List.length r)%nat ->
  nth i (scale_tail v r) d = nth i v d.
Proof.
  intros Hi. unfold scale_tail.
  rewrite app_nth1 by (rewrite length_firstn; lia).
  rewrite nth_firstn.
  replace (Nat.ltb i _) with true; [reflexivity |].
  symmetry. apply Nat.ltb_lt. exact Hi.
Qed.

Lemma scale_tail_nth_tail (v r : list R) (j : nat) :
  (List.length r <= List.length v)%nat -> (j < List.length r)%nat ->
  nth (List.length v - List.length r + j) (scale_tail v r) 0
  = nth (List.length v - List.length r + j) v 0 * nth j r 0.
Proof.
  intros Hl Hj. unfold scale_tail.
  set (s := (List.length v - List.length r)%nat).
  rewrite app_nth2 by (rewrite length_firstn; lia).
  rewrite length_firstn.
  replace (s + j - Nat.min s (List.length v))%nat with j by lia.
  rewrite zip_mul_nth by (rewrite length_skipn; unfold s; lia).
  rewrite nth_skipn. reflexivity.
Qed.

Lemma firstn_app_exact {A : Type} (a b : list A) (n : nat) :
  List.length a = n -> firstn n (a ++ b) = a.
Proof.
  intros <-. induction a as [|u a IH]; simpl.
  - now destruct b.
  - now rewrite IH.
Qed.

Lemma skipn_app_exact {A : Type} (a b : list A) (n : nat) :
  List.length a = n -> skipn n (a ++ b) = b.
Proof.
  intros <-. induction a as [|u a IH]; simpl; auto.
Qed.

(** Applying a ramp twice is applying its square once. *)
Lemma scale_tail_twice (v r : list R) :
  (List.length r <= List.length v)%nat ->
  scale_tail (scale_tail v r) r = scale_tail v (zip_mul r r).
Proof.
  intros Hl. unfold scale_tail at 1.
  rewrite scale_tail_length by exact Hl.
  unfold scale_tail. rewrite zip_mul_length by reflexivity.
  set (s := (List.length v - List.length r)%nat).
  assert (Hs : List.length (firstn s v) = s)
    by (rewrite length_firstn; unfold s; lia).
  rewrite (@firstn_app_exact _ _ _ s Hs), (@skipn_app_exact _ _ _ s Hs).
  now rewrite zip_mul_assoc.
Qed.

End Ramp.

(** C8, as the code has it.  For a group of a returned matrix built with
    [taper_points >= 2] (and a non-negative number of on-samples): the
    taper multiplies the final [taper_points] samples of the waveform,
    sample by sample, by a ramp that starts at 1, never rises and ends at
    0, so the last intensity sample is 0 (the tapered samples themselves
    follow the waveform); a single-site row is that tapered waveform times
    the intensity; and applying the ramp twice equals applying the squared
    ramp once. *)
Theorem taper_ramp (ui : ui_state) (out : output) (g : nat) :
  create_output ui = Ok out ->
  (g < List.length (intensity_matrix out))%nat ->
  (0 <= on_points ui)%Z -> (2 <= taper_points ui)%Z ->
  let tp := Z.to_nat (taper_points ui) in
  let ramp := linspace 1 0 tp in
  let N := n_samples ui in
  let irow := nth g (intensity_matrix out) [] in
  taper (stim_of ui) (taper_points ui) = Ok (scale_tail (stim_of ui) ramp) /\
  (forall j, (j < tp)%nat ->
     nth (N - tp + j) (scale_tail (stim_of ui) ramp) 0%R
     = (nth (N - tp + j) (stim_of ui) 0 * nth j ramp 0)%R) /\
  nth 0 ramp 0%R = 1%R /\ nth (tp - 1) ramp 0%R = 0%R /\
  (forall i j, (i <= j)%nat -> (j < tp)%nat ->
     (0 <= nth j ramp 0 <= nth i ramp 0)%R /\ (nth i ramp 0 <= 1)%R) /\
  List.length irow = N /\
  nth (N - 1) irow 0%R = 0%R /\
  (multi_site ui (Z.of_nat g) = false ->
     exists scale,
       irow = map (fun v => (v * scale)%R) (scale_tail (stim_of ui) ramp)) /\
  (forall v, (List.length ramp <= List.length v)%nat ->
     scale_tail (scale_tail v ramp) ramp = scale_tail v (zip_mul ramp ramp)).
Proof.
  intros Hout Hg Hon Htp tp ramp N irow.
  assert (Htp2 : (2 <= tp)%nat) by (unfold tp; lia).
  assert (Hstim : List.length (stim_of ui) = N).
  { unfold stim_of. now rewrite create_stim_length, times_of_length. }
  assert (Hramp : List.length ramp = tp) by apply linspace_length.
  assert (HN : (tp <= N)%nat) by (unfold tp, N, n_samples; lia).
  assert (Htaper : taper (stim_of ui) (taper_points ui)
                   = Ok (scale_tail (stim_of ui) ramp)).
  { apply taper_ok. rewrite Hstim. unfold N, n_samples. lia. }
  assert (Helem : forall j, (j < tp)%nat ->
     nth (N - tp + j) (scale_tail (stim_of ui) ramp) 0%R
     = (nth (N - tp + j) (stim_of ui) 0 * nth j ramp 0)%R).
  { intros j Hj. rewrite <- Hstim, <- Hramp.
    apply scale_tail_nth_tail; lia. }
  pose proof (@out_row ui out g Hout Hg) as Hrow.
  fold irow in Hrow.
  destruct (build_group_lengths _ _ _ _ Hrow) as (Hli & _ & _).
  rewrite times_of_length in Hli. fold N in Hli.
  destruct (@build_group_inv ui _ _ _ _ _ Hrow)
    as (tap & scale & Htap & Hm & Hs).
  rewrite Htaper in Htap. injection Htap as <-.
  assert (Hlast : nth (N - 1)
                    (map (fun v => (v * scale)%R)
                         (scale_tail (stim_of ui) ramp)) 0%R = 0%R).
  { rewrite (@nth_map_in _ _ _ _ (N - 1)%nat 0%R 0%R)
      by (rewrite scale_tail_length; lia).
    replace (N - 1)%nat with (N - tp + (tp - 1))%nat by lia.
    rewrite Helem by lia.
    destruct (ramp_ends Htp2) as [_ E]. fold ramp in E. rewrite E. ring. }
  split; [exact Htaper |].
  split; [exact Helem |].
  split; [apply (ramp_ends Htp2) |].
  split; [apply (ramp_ends Htp2) |].
  split; [intros i j Hij Hj; now apply ramp_falls |].
  split; [exact Hli |].
  split.
  { destruct (multi_site ui (Z.of_nat g)) eqn:Em.
    - rewrite (Hm eq_refl). apply blank_zero_stays; [| exact Hlast].
      rewrite length_map, scale_tail_length; lia.
    - rewrite (Hs eq_refl). exact Hlast. }
  split.
  { intros Em. exists scale. now apply Hs. }
  intros v Hv. now apply scale_tail_twice.
Qed.

(** ** Reading samples of a built matrix *)

Section Samples.

Local Open Scope R_scope.

Lemma changes_from_same (k : Z) (x0 y0 : R) (xs ys : list R) :
  changes_from k (x0 :: x0 :: xs) (y0 :: y0 :: ys)
  = changes_from (k + 1) (x0 :: xs) (y0 :: ys).
Proof.
  change (changes_from k (x0 :: x0 :: xs) (y0 :: y0 :: ys))
    with (if Rneqb x0 x0 || Rneqb y0 y0
          then k :: changes_from (k + 1) (x0 :: xs) (y0 :: ys)
          else changes_from (k + 1) (x0 :: xs) (y0 :: ys)).
  now rewrite !Rneqb_refl.
Qed.

Lemma changes_from_diff (k : Z) (x0 x1 y0 y1 : R) (xs ys : list R) :
  x1 <> x0 \/ y1 <> y0 ->
  changes_from k (x0 :: x1 :: xs) (y0 :: y1 :: ys)
  = k :: changes_from (k + 1) (x1 :: xs) (y1 :: ys).
Proof.
  intros H.
  change (changes_from k (x0 :: x1 :: xs) (y0 :: y1 :: ys))
    with (if Rneqb x1 x0 || Rneqb y1 y0
          then k :: changes_from (k + 1) (x1 :: xs) (y1 :: ys)
          else changes_from (k + 1) (x1 :: xs) (y1 :: ys)).
  replace (Rneqb x1 x0 || Rneqb y1 y0)%bool with true; [reflexivity |].
  symmetry. apply orb_true_iff.
  destruct H as [H|H]; [left | right]; now apply Rneqb_true.
Qed.

(** A sample outside every window is left as it was. *)
Lemma blank_miss (row : list R) (sp : Z) (cs : list Z) (k : nat) (d : R) :
  (k < List.length row)%nat ->
  Forall (fun c =>
            ((slice_bound (Z.of_nat (List.length row)) (c - 1) <=? Z.of_nat k)
             && (Z.of_nat k
                 <? slice_bound (Z.of_nat (List.length row)) (c + sp - 1)))%Z
            = false) cs ->
  nth k (blank row sp cs) d = nth k row d.
Proof.
  unfold blank. revert row.
  induction cs as [|c cs IH]; intros row Hk Hall; simpl; [reflexivity |].
  inversion Hall as [|? ? Hc Hcs]; subst.
  rewrite IH.
  - rewrite assign_slice_nth by exact Hk. now rewrite Hc.
  - now rewrite assign_slice_length.
  - now rewrite assign_slice_length.
Qed.

Lemma built_output_rows (ui : ui_state) (g : nat) :
  (Z.of_nat g <= max_group (map group (targets_table ui)))%Z ->
  nth g (intensity_matrix (built_output ui)) [] = intensity_row ui (Z.of_nat g)
  /\ nth g (x_matrix (built_output ui)) [] = x_row ui (Z.of_nat g)
  /\ nth g (y_matrix (built_output ui)) [] = y_row ui (Z.of_nat g)
  /\ nth g (regions (built_output ui)) EmptyString
     = region_label ui (Z.of_nat g).
Proof.
  intros Hg. unfold built_output. simpl.
  set (n := (max_group (map group (targets_table ui)) + 1)%Z).
  assert (Hlen : (g < List.length (range n))%nat)
    by (rewrite range_length; unfold n; lia).
  assert (Er : nth g (range n) 0%Z = Z.of_nat g).
  { unfold range. rewrite (@nth_map_in _ _ Z.of_nat _ g 0%Z 0%nat).
    - rewrite seq_nth; [reflexivity |]. rewrite range_length in Hlen. lia.
    - rewrite length_seq. rewrite range_length in Hlen. lia. }
  rewrite (@nth_map_in _ _ (intensity_row ui) _ g [] 0%Z Hlen).
  rewrite (@nth_map_in _ _ (x_row ui) _ g [] 0%Z Hlen).
  rewrite (@nth_map_in _ _ (y_row ui) _ g [] 0%Z Hlen).
  rewrite (@nth_map_in _ _ (region_label ui) _ g EmptyString 0%Z Hlen).
  now rewrite Er.
Qed.

Lemma stim_of_length (ui : ui_state) :
  List.length (stim_of ui) = n_samples ui.
Proof. unfold stim_of. now rewrite create_stim_length, times_of_length. Qed.

Lemma tapered_stim_length (ui : ui_state) :
  (0 <= on_points ui)%Z -> (0 <= taper_points ui)%Z ->
  List.length (tapered_stim ui) = n_samples ui.
Proof.
  intros Hon Htp. unfold tapered_stim.
  rewrite scale_tail_length; rewrite ?linspace_length, stim_of_length;
    unfold n_samples; lia.
Qed.

(** Sample [i] of the tapered waveform, before and inside the taper. *)
Lemma tapered_stim_head (ui : ui_state) (i : nat) :
  (i < n_samples ui - Z.to_nat (taper_points ui))%nat ->
  nth i (tapered_stim ui) 0 = nth i (stim_of ui) 0.
Proof.
  intros Hi. unfold tapered_stim. apply scale_tail_nth_head.
  now rewrite linspace_length, stim_of_length.
Qed.

Lemma tapered_stim_tail (ui : ui_state) (j : nat) :
  (0 <= on_points ui)%Z -> (0 <= taper_points ui)%Z ->
  (j < Z.to_nat (taper_points ui))%nat ->
  nth (n_samples ui - Z.to_nat (taper_points ui) + j) (tapered_stim ui) 0
  = nth (n_samples ui - Z.to_nat (taper_points ui) + j) (stim_of ui) 0
    * nth j (linspace 1 0 (Z.to_nat (taper_points ui))) 0.
Proof.
  intros Hon Htp Hj. unfold tapered_stim.
  rewrite <- (stim_of_length ui).
  rewrite <- (linspace_length 1 0 (Z.to_nat (taper_points ui))) at 1 3.
  apply scale_tail_nth_tail; rewrite linspace_length; [| exact Hj].
  rewrite stim_of_length. unfold n_samples. lia.
Qed.

Lemma stim_of_nth (ui : ui_state) (i : nat) :
  (i < n_samples ui)%nat ->
  nth i (stim_of ui) 0 =
  let t := INR i * (Q2R (on_dur ui + taper_dur ui) / INR (n_samples ui - 1)) in
  if sin_stim ui then (sin (2 * PI * t * stim_freq ui) + 1) / 2
  else (square (2 * PI * t * stim_freq ui) (duty_cycle ui / 100) + 1) / 2.
Proof.
  intros Hi. cbv zeta. unfold stim_of, create_stim.
  assert (Ht : nth i (times_of ui) 0
               = INR i * (Q2R (on_dur ui + taper_dur ui)
                          / INR (n_samples ui - 1))).
  { unfold times_of. rewrite linspace_nth by exact Hi.
    rewrite Rminus_0_r, Rplus_0_l. reflexivity. }
  destruct (sin_stim ui);
    rewrite (@nth_map_in _ _ _ _ i 0 0) by (now rewrite times_of_length);
    now rewrite Ht.
Qed.

End Samples.

(** ** The short run *)

Section ShortRun.

Local Open Scope R_scope.

Lemma short_run_x :
  x_row short_run 1 = [2; 2; 2; 2; 2; -2; -2; -2; -2; -2; 2].
Proof. reflexivity. Qed.

Lemma short_run_y :
  y_row short_run 1 = [2; 2; 2; 2; 2; 2; 2; 2; 2; 2; 2].
Proof. reflexivity. Qed.

Lemma short_run_changes :
  changes_from 0 (x_row short_run 1) (y_row short_run 1) = [4; 9]%Z.
Proof.
  rewrite short_run_x, short_run_y.
  rewrite !changes_from_same.
  rewrite changes_from_diff by (left; lra).
  rewrite !changes_from_same.
  rewrite changes_from_diff by (left; lra).
  reflexivity.
Qed.

(** In the short run the waveform is 1 on every sample. *)
Lemma short_run_stim (i : nat) :
  (i < 11)%nat -> nth i (stim_of short_run) 0 = 1.
Proof.
  intros Hi. rewrite stim_of_nth by exact Hi.
  cbv zeta. change (sin_stim short_run) with false.
  change (duty_cycle short_run) with 100.
  replace (100 / 100) with 1 by lra.
  rewrite square_full_duty. lra.
Qed.

Lemma short_run_intensity_row :
  intensity_row short_run 1
  = blank (map (fun v => v * 10) (tapered_stim short_run)) 2 [4; 9]%Z.
Proof.
  unfold intensity_row. change (multi_site short_run 1) with true.
  cbv iota. rewrite short_run_changes.
  change (switch_points short_run) with 2%Z.
  f_equal. apply map_ext. intros v. f_equal.
  unfold np_mean. simpl. lra.
Qed.

Lemma short_run_tapered_length :
  List.length (tapered_stim short_run) = 11%nat.
Proof. apply (tapered_stim_length short_run); vm_compute; discriminate. Qed.

(** The samples right after each switch are not blanked. *)
Lemma short_run_after_switch :
  nth 5 (intensity_row short_run 1) 0 = 10 /\
  nth 6 (intensity_row short_run 1) 0 = 10.
Proof.
  rewrite short_run_intensity_row.
  split.
  - rewrite blank_miss.
    + rewrite (@nth_map_in _ _ _ _ 5%nat 0 0)
        by (rewrite short_run_tapered_length; lia).
      rewrite tapered_stim_head by (vm_compute; lia).
      rewrite short_run_stim by lia. lra.
    + rewrite length_map, short_run_tapered_length. lia.
    + rewrite length_map, short_run_tapered_length.
      repeat constructor.
  - rewrite blank_miss.
    + rewrite (@nth_map_in _ _ _ _ 6%nat 0 0)
        by (rewrite short_run_tapered_length; lia).
      rewrite tapered_stim_head by (vm_compute; lia).
      rewrite short_run_stim by lia. lra.
    + rewrite length_map, short_run_tapered_length. lia.
    + rewrite length_map, short_run_tapered_length.
      repeat constructor.
Qed.

End ShortRun.

(** ** Two runs with one target *)

Section SingleTarget.

Local Open Scope R_scope.

Lemma timing_ok_single (ui : ui_state) (t : target) :
  timing_ok ui -> targets_table ui = [t] -> group t = 0%Z -> buildable ui.
Proof.
  intros Ht Etab Eg. split; [exact Ht |].
  rewrite Etab. change (max_group (map group [t])) with (group t).
  rewrite Eg.
  split; [discriminate |]. split; [lia |].
  intros g Hg. assert (g = 0%Z) by lia. subst g.
  unfold members. simpl. rewrite Eg. discriminate.
Qed.

Lemma one_taper_sample_buildable : buildable one_taper_sample.
Proof.
  apply (@timing_ok_single _ target_A); [| reflexivity | reflexivity].
  unfold timing_ok.
  split; [vm_compute; discriminate |].
  split; [vm_compute; discriminate |].
  split; [reflexivity | vm_compute; discriminate].
Qed.

Lemma sine_run_buildable : buildable sine_run.
Proof.
  eapply timing_ok_single; [| reflexivity | reflexivity].
  unfold timing_ok.
  split; [vm_compute; discriminate |].
  split; [vm_compute; discriminate |].
  split; [reflexivity | vm_compute; discriminate].
Qed.

(** With a single taper sample the ramp is [[1]]: the last sample keeps
    the full intensity. *)
Lemma one_taper_sample_last :
  nth 2 (intensity_row one_taper_sample 0) 0 = 5.
Proof.
  change (intensity_row one_taper_sample 0)
    with (map (fun v => v * 5) (tapered_stim one_taper_sample)).
  rewrite (@nth_map_in _ _ _ _ 2%nat 0 0).
  2:{ rewrite tapered_stim_length; vm_compute; (lia || discriminate). }
  pose proof (@tapered_stim_tail one_taper_sample 0) as H.
  change (n_samples one_taper_sample) with 3%nat in H.
  change (Z.to_nat (taper_points one_taper_sample)) with 1%nat in H.
  simpl Nat.add in H. simpl Nat.sub in H.
  rewrite H; [| vm_compute; discriminate | vm_compute; discriminate | lia].
  rewrite ramp_one.
  rewrite stim_of_nth by (vm_compute; lia).
  cbv zeta. change (sin_stim one_taper_sample) with false.
  change (duty_cycle one_taper_sample) with 100.
  replace (100 / 100) with 1 by lra.
  rewrite square_full_duty. lra.
Qed.

(** In the sine run the tapered samples 3 and 4 are 0 and 1: the tapered
    segment rises again. *)
Lemma sine_run_rises :
  nth 3 (intensity_row sine_run 0) 0 = 0 /\
  nth 4 (intensity_row sine_run 0) 0 = 1.
Proof.
  change (intensity_row sine_run 0)
    with (map (fun v => v * 6) (tapered_stim sine_run)).
  assert (Hlen : List.length (tapered_stim sine_run) = 6%nat)
    by (apply (tapered_stim_length sine_run); vm_compute; discriminate).
  assert (Htot : Q2R (on_dur sine_run + taper_dur sine_run) = 3 / 2).
  { unfold Q2R. simpl. lra. }
  split.
  - rewrite (@nth_map_in _ _ _ _ 3%nat 0 0) by (rewrite Hlen; lia).
    pose proof (@tapered_stim_tail sine_run 1) as H.
    change (n_samples sine_run) with 6%nat in H.
    change (Z.to_nat (taper_points sine_run)) with 4%nat in H.
    simpl Nat.add in H. simpl Nat.sub in H.
    rewrite H; [| vm_compute; discriminate | vm_compute; discriminate | lia].
    rewrite stim_of_nth by (vm_compute; lia).
    cbv zeta. change (sin_stim sine_run) with true. cbv iota.
    change (n_samples sine_run) with 6%nat.
    change (stim_freq sine_run) with (5 / 6).
    rewrite Htot.
    replace (2 * PI * (INR 3 * (3 / 2 / INR (6 - 1))) * (5 / 6))
      with (3 * (PI / 2)) by (simpl; field).
    rewrite sin_3PI2. lra.
  - rewrite (@nth_map_in _ _ _ _ 4%nat 0 0) by (rewrite Hlen; lia).
    pose proof (@tapered_stim_tail sine_run 2) as H.
    change (n_samples sine_run) with 6%nat in H.
    change (Z.to_nat (taper_points sine_run)) with 4%nat in H.
    simpl Nat.add in H. simpl Nat.sub in H.
    rewrite H; [| vm_compute; discriminate | vm_compute; discriminate | lia].
    rewrite stim_of_nth by (vm_compute; lia).
    cbv zeta. change (sin_stim sine_run) with true. cbv iota.
    change (n_samples sine_run) with 6%nat.
    change (stim_freq sine_run) with (5 / 6).
    rewrite Htot.
    replace (2 * PI * (INR 4 * (3 / 2 / INR (6 - 1))) * (5 / 6))
      with (2 * PI) by (simpl; field).
    rewrite sin_2PI.
    rewrite (@ramp_nth 4 2) by lia.
    simpl. lra.
Qed.

End SingleTarget.

(** ** The claims on concrete inputs *)

Lemma validation_gate_witness :
  idle (idle_gui three_groups) /\
  accepted (idle_gui three_groups) /\
  (refused (idle_gui three_groups) <->
   ~ gate_checks (table_groups (idle_gui three_groups))).
Proof.
  assert (Hi : idle (idle_gui three_groups)) by reflexivity.
  split; [exact Hi |].
  destruct (validation_gate Hi)
    as (Hiff & _ & _ & _ & _ & _ & _ & _ & _ & _ & _ & H).
  split; [apply H; reflexivity | exact Hiff].
Defined.

(** C2, against the claim as stated.  The table with the ids -1, 0 and 1
    has rows, a group 0 and a non-zero group, and its distinct ids do not
    form a run starting at 0, so one of the four trial-selection
    invariants fails; the start is accepted all the same. *)
Lemma validation_gate_counterexample :
  idle (idle_gui negative_ids) /\
  table_groups (idle_gui negative_ids) = [-1; 0; 1]%Z /\
  (trial_selection_invariants (table_groups (idle_gui negative_ids)) -> False) /\
  accepted (idle_gui negative_ids) /\
  (refused (idle_gui negative_ids) -> False).
Proof.
  destruct negative_ids_pass as [Hacc Hrun].
  split; [reflexivity |]. split; [reflexivity |].
  split; [intros (_ & _ & _ & H); exact (Hrun H) |].
  split; [exact Hacc |].
  intros [text Ht]. destruct Hacc as [_ [rest Hrest]].
  rewrite Ht in Hrest. discriminate Hrest.
Qed.

Lemma create_stim_waveform_witness :
  nth 0 (create_stim [0%R] 1 true 50) 0%R
  = ((sin (2 * PI * 1 * nth 0 [0%R] 0) + 1) / 2)%R.
Proof.
  destruct (create_stim_waveform [0%R] 1 50 true) as (_ & _ & H & _).
  apply H. simpl. lia.
Defined.

Lemma one_matrix_per_group_witness :
  (exists out, create_output short_run = Ok out) /\
  (exists e, create_output holed_run = Raise e).
Proof.
  split.
  - destruct (one_matrix_per_group short_run) as (_ & _ & H).
    apply H. exact short_run_buildable.
  - destruct (one_matrix_per_group holed_run) as (_ & H & _).
    apply (H 1%Z); [vm_compute; split; discriminate | reflexivity].
Defined.

Lemma row_lengths_witness :
  consistent short_run /\
  exists out, create_output short_run = Ok out /\
              List.length (intensity_matrix out) = 2%nat /\
              List.length (nth 1 (intensity_matrix out) []) = 11%nat /\
              List.length (nth 1 (x_matrix out) []) = 11%nat /\
              List.length (nth 1 (y_matrix out) []) = 11%nat.
Proof.
  assert (Hc : consistent short_run).
  { unfold consistent. repeat split; vm_compute; (discriminate || reflexivity). }
  split; [exact Hc |].
  destruct (row_lengths Hc) as [Hlen Hret].
  destruct (Hret short_run_buildable) as (out & Hout & _).
  exists out. split; [exact Hout |].
  destruct (Hlen out Hout) as (Hcount & Hrows & _).
  split; [exact Hcount |].
  apply (Hrows 1%Z). vm_compute. split; discriminate.
Defined.

Lemma blanking_window_witness :
  nth 3 (nth 1 (intensity_matrix (built_output short_run)) []) 0%R = 0%R.
Proof.
  pose proof (create_output_ok short_run_buildable) as Hout.
  destruct (@built_output_rows short_run 1) as (Hi & Hx & Hy & _);
    [vm_compute; discriminate |].
  change (Z.of_nat 1) with 1%Z in Hi, Hx, Hy.
  apply (@blanking_window short_run (built_output short_run) 1 4 3 Hout).
  - simpl. lia.
  - reflexivity.
  - lia.
  - rewrite Hx, short_run_x. simpl. lia.
  - left. rewrite Hx, short_run_x. simpl. lra.
  - change (switch_points short_run) with 2%Z. lia.
  - rewrite Hi, short_run_intensity_row, blank_length, length_map,
      short_run_tapered_length. lia.
Defined.

Lemma taper_ramp_witness :
  nth 5 (nth 0 (intensity_matrix (built_output sine_run)) []) 0%R = 0%R.
Proof.
  pose proof (create_output_ok sine_run_buildable) as Hout.
  assert (Hg : (0 < List.length (intensity_matrix (built_output sine_run)))%nat)
    by (simpl; lia).
  assert (Hon : (0 <= on_points sine_run)%Z) by (vm_compute; discriminate).
  assert (Htp : (2 <= taper_points sine_run)%Z) by (vm_compute; discriminate).
  destruct (@taper_ramp sine_run (built_output sine_run) 0 Hout Hg Hon Htp)
    as (_ & _ & _ & _ & _ & _ & H & _).
  exact H.
Defined.

Lemma save_load_round_trip_witness :
  load_all "targets.csv" []
    (fst (save_all "targets.csv" plain_table empty_fs))
  = (plain_table, Ok tt).
Proof.
  apply save_load_round_trip; [discriminate |].
  repeat constructor.
Defined.

(** C3, against the claim as stated.  In the short run the positions of
    group 1 differ between the samples 4 and 5, and with 2 switch points
    the samples 5 and 6 still carry the full intensity 10: the sample at
    the new position and those after it are not blanked. *)
Lemma blanking_counterexample :
  exists out,
    create_output short_run = Ok out /\
    multi_site short_run 1 = true /\
    switch_points short_run = 2%Z /\
    nth 4 (nth 1 (x_matrix out) []) 0%R <> nth 5 (nth 1 (x_matrix out) []) 0%R /\
    nth 5 (nth 1 (intensity_matrix out) []) 0%R = 10%R /\
    nth 6 (nth 1 (intensity_matrix out) []) 0%R = 10%R /\
    nth 5 (nth 1 (intensity_matrix out) []) 0%R <> 0%R.
Proof.
  exists (built_output short_run).
  destruct (@built_output_rows short_run 1) as (Hi & Hx & _);
    [vm_compute; discriminate |].
  change (Z.of_nat 1) with 1%Z in Hi, Hx.
  destruct short_run_after_switch as [H5 H6].
  split; [exact (create_output_ok short_run_buildable) |].
  split; [reflexivity |]. split; [reflexivity |].
  rewrite Hi, Hx, short_run_x, H5, H6. simpl.
  repeat split; lra.
Qed.

(** C6, against the claim as stated.  The table of [holed_run] uses the
    ids 0 and 2; id 1 lies in range and has no member target, and the
    build raises [IndexError] at that group instead of returning a zero
    row. *)
Lemma hole_counterexample :
  max_group (map group (targets_table holed_run)) = 2%Z /\
  members 1 (targets_table holed_run) = [] /\
  create_output holed_run = Raise IndexError /\
  ~ (exists out, create_output holed_run = Ok out).
Proof.
  assert (E : create_output holed_run = Raise IndexError).
  { rewrite create_output_unfold;
      [| vm_compute; discriminate | discriminate | vm_compute; discriminate].
    change (range (max_group (map group (targets_table holed_run)) + 1))
      with [0; 1; 2]%Z.
    cbn [mapM].
    rewrite build_group_ok.
    - reflexivity.
    - unfold timing_ok.
      split; [vm_compute; discriminate |].
      split; [vm_compute; discriminate |].
      split; [reflexivity | vm_compute; discriminate].
    - discriminate. }
  split; [reflexivity |]. split; [reflexivity |]. split; [exact E |].
  intros [out Hout]. congruence.
Qed.

(** C8, against the claim as stated.  With one taper sample the last
    intensity sample is the full intensity 5, not 0; and in the sine run,
    whose last 4 of 6 samples are tapered, sample 3 is 0 and sample 4 is
    1: the tapered segment is not non-increasing. *)
Lemma taper_counterexample :
  (exists out,
     create_output one_taper_sample = Ok out /\
     taper_points one_taper_sample = 1%Z /\
     n_samples one_taper_sample = 3%nat /\
     nth 2 (nth 0 (intensity_matrix out) []) 0%R = 5%R) /\
  (exists out,
     create_output sine_run = Ok out /\
     taper_points sine_run = 4%Z /\
     n_samples sine_run = 6%nat /\
     (nth 3 (nth 0 (intensity_matrix out) []) 0
      < nth 4 (nth 0 (intensity_matrix out) []) 0)%R).
Proof.
  split.
  - exists (built_output one_taper_sample).
    split; [exact (create_output_ok one_taper_sample_buildable) |].
    split; [reflexivity |]. split; [reflexivity |].
    destruct (@built_output_rows one_taper_sample 0) as (Hi & _);
      [vm_compute; discriminate |].
    change (Z.of_nat 0) with 0%Z in Hi.
    rewrite Hi. exact one_taper_sample_last.
  - exists (built_output sine_run).
    split; [exact (create_output_ok sine_run_buildable) |].
    split; [reflexivity |]. split; [reflexivity |].
    destruct (@built_output_rows sine_run 0) as (Hi & _);
      [vm_compute; discriminate |].
    change (Z.of_nat 0) with 0%Z in Hi.
    rewrite Hi. destruct sine_run_rises as [-> ->]. lra.
Qed.

(** C10, against the claim as stated.  The name of [two_line_row] holds a
    line feed and no comma; the saved file then has two lines, and loading
    it raises [IndexError] on the first, leaving a row that is not the
    saved one. *)
Lemma round_trip_counterexample :
  contains comma (header two_line_row) = false /\
  snd (save_all "t.csv" [two_line_row] empty_fs) = Ok tt /\
  load_all "t.csv" [] (fst (save_all "t.csv" [two_line_row] empty_fs))
  = ([{| header := String "a" (String LF EmptyString); cells := [] |}],
     Raise IndexError) /\
  fst (load_all "t.csv" [] (fst (save_all "t.csv" [two_line_row] empty_fs)))
  <> [two_line_row].
Proof.
  split; [reflexivity |]. split; [reflexivity |].
  split; [reflexivity |].
  vm_compute. discriminate.
Qed.

(** * Further properties of the code *)

(** ** The status line *)

Section StatusLine.

Local Open Scope string_scope.

Variables cwd title : string.

Lemma lines_single (s : string) :
  s <> EmptyString -> contains LF s = false -> lines s = [s].
Proof.
  induction s as [| a s IH]; intros Hne Hlf; [congruence |].
  cbn [contains] in Hlf. apply orb_false_iff in Hlf as [Ha Hs].
  cbn [lines]. rewrite Ha.
  destruct s as [| b s'].
  - reflexivity.
  - rewrite IH; [reflexivity | discriminate | exact Hs].
Qed.

Lemma status_after_log (status : string) (w : world) :
  update_status cwd title (files (snd (log_status status cwd w)))
  = Ok (fold_left (fun _ line => line) (lines (universal_newlines status))
                  title).
Proof.
  unfold update_status, log_status, write_file.
  cbn [snd files]. rewrite String.eqb_refl. reflexivity.
Qed.

Lemma status_after_plain_log (status : string) (w : world) :
  status <> EmptyString ->
  contains LF status = false -> contains CR status = false ->
  update_status cwd title (files (snd (log_status status cwd w))) = Ok status.
Proof.
  intros Hne Hlf Hcr. rewrite status_after_log.
  rewrite (universal_newlines_id _ Hcr), (lines_single Hne Hlf).
  reflexivity.
Qed.

Lemma log_status_world (status : string) (w : world) :
  fst (log_status status cwd w) = Ok tt /\
  answers (snd (log_status status cwd w)) = answers w /\
  hw_log (snd (log_status status cwd w)) = hw_log w.
Proof. repeat split. Qed.

End StatusLine.

(** X1.  What [log_status] writes is what [update_status] shows: a
    non-empty status text without line breaks becomes the title of the
    status menu, whatever the file held before, so the latest of two logs
    wins; after an empty status text the title stays as it was. *)
Theorem status_round_trip (status earlier cwd title : string) (w : world) :
  let shown s :=
    update_status cwd title
      (files (snd (log_status s cwd (snd (log_status earlier cwd w))))) in
  (status <> EmptyString ->
   contains LF status = false -> contains CR status = false ->
   shown status = Ok status) /\
  shown EmptyString = Ok title.
Proof.
  intros shown. split.
  - intros Hne Hlf Hcr. exact (status_after_plain_log cwd title _ Hne Hlf Hcr).
  - unfold shown. rewrite status_after_log. reflexivity.
Qed.

Lemma status_round_trip_witness :
  update_status "run" "old"
    (files (snd (log_status "Ready." "run"
                   (snd (log_status could_not_connect "run"
                           {| answers := fun _ => true; files := empty_fs;
                              hw_log := [] |})))))
  = Ok "Ready."%string.
Proof.
  apply (status_round_trip "Ready." could_not_connect "run" "old");
    [discriminate | reflexivity | reflexivity].
Defined.

(** X2.  [reset] never raises.  When the card answers it is reset once and
    the status line then reads "Ready."; when it does not, nothing reaches
    the card and the status line reads the could-not-connect message. *)
Theorem reset_status (card cwd title : string) (w : world) :
  let w' := snd (reset card cwd w) in
  fst (reset card cwd w) = Ok tt /\
  answers w' = answers w /\
  hw_log w' = (if answers w card then hw_log w ++ [ResetDevice card]
               else hw_log w) /\
  update_status cwd title (files w')
  = Ok (if answers w card then "Ready."%string else could_not_connect).
Proof.
  unfold reset, try_except, io_bind, daq.
  destruct (answers w card) eqn:E; cbn [fst snd].
  - repeat split.
    apply (status_after_plain_log cwd title); [discriminate | reflexivity ..].
  - repeat split.
    apply (status_after_plain_log cwd title); [discriminate | reflexivity ..].
Qed.

(** X3.  [analog_out_single] never raises.  With an answering card the
    value is written once and no file changes, so a status line set by an
    earlier failure stays; with a card that does not answer nothing is
    written to it and the status line reads the could-not-connect
    message. *)
Theorem scalar_write_status (card cwd title : string) (channel : Z) (val : R)
        (w : world) :
  let w' := snd (analog_out_single card channel val cwd w) in
  fst (analog_out_single card channel val cwd w) = Ok tt /\
  answers w' = answers w /\
  (answers w card = true ->
   hw_log w' = hw_log w ++ [WriteScalar card channel val] /\
   files w' = files w) /\
  (answers w card = false ->
   hw_log w' = hw_log w /\
   update_status cwd title (files w') = Ok could_not_connect).
Proof.
  unfold analog_out_single, try_except, io_bind, add_ao_voltage_chan, daq.
  destruct (answers w card) eqn:E; cbn [fst snd]; rewrite ?E; cbn [fst snd].
  - repeat split; intros; try discriminate; reflexivity.
  - repeat split; intros; try discriminate.
    apply (status_after_plain_log cwd title); [discriminate | reflexivity ..].
Qed.

Lemma scalar_write_status_witness :
  let w := {| answers := fun _ => false; files := empty_fs; hw_log := [] |} in
  hw_log (snd (analog_out_single "Dev1" 0 1 "run" w)) = [] /\
  update_status "run" "Ready."
    (files (snd (analog_out_single "Dev1" 0 1 "run" w)))
  = Ok could_not_connect.
Proof.
  intros w.
  exact (proj2 (proj2 (proj2
           (scalar_write_status "Dev1" "run" "Ready." 0 1 w))) eq_refl).
Defined.

(** ** The passes of the protocol loop *)

(** The value of [np.random.random()] lies in [[0, 1)]. *)
Lemma np_random_random_range (e : Q) :
  0 <= np_random_random e /\ np_random_random e < 1.
Proof.
  unfold np_random_random.
  pose proof (Qfloor_le e) as Hlo. pose proof (Qlt_floor e) as Hhi.
  rewrite inject_Z_plus in Hhi. change (inject_Z 1) with 1 in Hhi.
  split.
  - apply (Qplus_le_l _ _ (inject_Z (Qfloor e))).
    setoid_replace (e - inject_Z (Qfloor e) + inject_Z (Qfloor e)) with e
      by ring.
    rewrite Qplus_0_l. exact Hlo.
  - apply (Qplus_lt_l _ _ (inject_Z (Qfloor e))).
    setoid_replace (e - inject_Z (Qfloor e) + inject_Z (Qfloor e)) with e
      by ring.
    rewrite Qplus_comm. exact Hhi.
Qed.

(** The value of [np.random.randint(low, high)] lies in [[low, high)]. *)
Lemma np_random_randint_range (low high e : Z) :
  (low < high)%Z ->
  np_random_randint low high e = Ok (low + e mod (high - low))%Z /\
  (low <= low + e mod (high - low) < high)%Z.
Proof.
  intros H. unfold np_random_randint.
  destruct (high <=? low)%Z eqn:E; [apply Z.leb_le in E; lia |].
  split; [reflexivity |].
  pose proof (Z.mod_pos_bound e (high - low)). lia.
Qed.

Section Protocol.

Local Open Scope string_scope.

Variables (channels : string) (sr : Q) (trigger : string).
Variables (out : output) (stim_prob : Q) (cwd : string).

Let n_rows := Z.of_nat (List.length (intensity_matrix out)).

Lemma string_app_assoc (s t u : string) : (s ++ t) ++ u = s ++ (t ++ u).
Proof. induction s as [| a s IH]; simpl; [| rewrite IH]; reflexivity. Qed.

Lemma path_join_eqb (a b : string) :
  String.eqb (path_join cwd a) (path_join cwd b) = String.eqb a b.
Proof.
  unfold path_join. induction cwd as [| c s IH]; simpl.
  - reflexivity.
  - rewrite Ascii.eqb_refl. exact IH.
Qed.

Lemma select_group_range (eu : Q) (ek : Z) :
  (1 <= n_rows)%Z ->
  exists g, select_group stim_prob n_rows eu ek = Ok g /\ (0 <= g < n_rows)%Z.
Proof.
  intros Hn. unfold select_group.
  destruct (Qlt_le_dec stim_prob (100 * np_random_random eu));
    [exists 0%Z; split; [reflexivity | lia] |].
  destruct (n_rows =? 1)%Z eqn:E1; [exists 0%Z; split; [reflexivity | lia] |].
  apply Z.eqb_neq in E1.
  destruct (@np_random_randint_range 1%Z n_rows ek) as (Hv & Hr); [lia |].
  eexists. split; [exact Hv | lia].
Qed.

Lemma index_nth {A : Type} (l : list A) (i : Z) (d : A) :
  (0 <= i < Z.of_nat (List.length l))%Z ->
  index l i = Ok (nth (Z.to_nat i) l d).
Proof.
  intros Hi. unfold index.
  rewrite (nth_error_nth' l d) by lia.
  destruct (0 <=? i)%Z eqn:E; [reflexivity |].
  apply Z.leb_gt in E. lia.
Qed.

Lemma np_vstack_same (a b c : list R) :
  List.length b = List.length a -> List.length c = List.length a ->
  np_vstack a b c = Ok [a; b; c].
Proof.
  intros Hb Hc. unfold np_vstack. rewrite Hb, Hc, Nat.eqb_refl. reflexivity.
Qed.

Lemma trial_group_range (d : Q * Z * string) :
  well_shaped out ->
  select_group stim_prob n_rows (fst (fst d)) (snd (fst d))
  = Ok (trial_group out stim_prob d) /\
  (0 <= trial_group out stim_prob d < n_rows)%Z.
Proof.
  intros (Hn & _).
  destruct (@select_group_range (fst (fst d)) (snd (fst d))) as (g & Hg & Hr);
    [unfold n_rows; lia |].
  unfold trial_group. fold n_rows. rewrite Hg. split; [reflexivity | exact Hr].
Qed.

(** The files after a completed pass. *)
Lemma pass_returns (d : Q * Z * string) (w : world) :
  well_shaped out ->
  answers w channels = true ->
  exists w',
    protocol_iteration channels sr trigger out stim_prob cwd
      (fst (fst d)) (snd (fst d)) (snd d) w = (Ok tt, w') /\
    answers w' = answers w /\
    hw_log w' = (hw_log w ++ [trial_write channels sr trigger out stim_prob d])%list /\
    forall p,
      files w' p =
      if String.eqb p (path_join cwd "log.txt")
      then Some (read_file (files w) (path_join cwd "log.txt")
                 ++ trial_line out stim_prob d)
      else if String.eqb p (path_join cwd "stim.txt")
      then Some (trial_label out stim_prob d)
      else if String.eqb p (path_join cwd "status.txt")
      then Some (waiting_status out stim_prob d)
      else files w p.
Proof.
  intros Hshape Hans.
  destruct (trial_group_range d Hshape) as (Hsel & Hr).
  destruct Hshape as (Hn & Hreg & Hx & Hy & Hrows).
  unfold protocol_iteration. fold n_rows. rewrite Hsel.
  unfold waiting_status, trial_write, trial_line, trial_label.
  set (g := trial_group out stim_prob d) in *.
  destruct (Hrows (Z.to_nat g)) as (Hlx & Hly); [unfold n_rows in Hr; lia |].
  assert (Hlog_stim :
            String.eqb (path_join cwd "log.txt") (path_join cwd "stim.txt") = false)
    by (rewrite path_join_eqb; reflexivity).
  assert (Hlog_status :
            String.eqb (path_join cwd "log.txt") (path_join cwd "status.txt") = false)
    by (rewrite path_join_eqb; reflexivity).
  remember (path_join cwd "log.txt") as lg.
  remember (path_join cwd "stim.txt") as st.
  remember (path_join cwd "status.txt") as ss.
  unfold io_bind at 1. unfold lift at 1.
  rewrite (@index_nth _ (regions out) g EmptyString) by (unfold n_rows in Hr; lia).
  rewrite (@index_nth _ (intensity_matrix out) g []) by (unfold n_rows in Hr; lia).
  rewrite (@index_nth _ (x_matrix out) g []) by (unfold n_rows in Hr; lia).
  rewrite (@index_nth _ (y_matrix out) g []) by (unfold n_rows in Hr; lia).
  unfold io_bind, lift, log_status, log_last_stimulation, log_stimulation,
    add_ao_voltage_chan, daq, write_file, append_file, io_bind.
  rewrite <- Heqlg, <- Heqst, <- Heqss.
  destruct (g =? 0)%Z;
    do 4 (rewrite ?Hans, ?(@np_vstack_same _ _ _ Hlx Hly);
          cbn [answers files hw_log fst snd]);
    (eexists; split; [reflexivity |]; cbn [answers files hw_log];
     split; [reflexivity |]; split; [reflexivity |];
     intros p; rewrite !String.eqb_refl, Hlog_stim, Hlog_status;
     destruct (String.eqb p lg); [| reflexivity];
     unfold read_file; destruct (files w lg);
     rewrite ?string_app_assoc; reflexivity).
Qed.

(** The pass on a machine whose card does not answer. *)
Lemma pass_raises (d : Q * Z * string) (w : world) :
  well_shaped out ->
  answers w channels = false ->
  exists w',
    protocol_iteration channels sr trigger out stim_prob cwd
      (fst (fst d)) (snd (fst d)) (snd d) w = (Raise DaqError, w') /\
    answers w' = answers w /\
    hw_log w' = hw_log w /\
    forall p,
      files w' p =
      if String.eqb p (path_join cwd "status.txt")
      then Some (waiting_status out stim_prob d)
      else files w p.
Proof.
  intros Hshape Hans.
  destruct (trial_group_range d Hshape) as (Hsel & Hr).
  destruct Hshape as (Hn & Hreg & Hx & Hy & Hrows).
  unfold protocol_iteration. fold n_rows. rewrite Hsel.
  unfold waiting_status, trial_label.
  set (g := trial_group out stim_prob d) in *.
  destruct (Hrows (Z.to_nat g)) as (Hlx & Hly); [unfold n_rows in Hr; lia |].
  remember (path_join cwd "status.txt") as ss.
  unfold io_bind at 1. unfold lift at 1.
  rewrite (@index_nth _ (regions out) g EmptyString) by (unfold n_rows in Hr; lia).
  rewrite (@index_nth _ (intensity_matrix out) g []) by (unfold n_rows in Hr; lia).
  rewrite (@index_nth _ (x_matrix out) g []) by (unfold n_rows in Hr; lia).
  rewrite (@index_nth _ (y_matrix out) g []) by (unfold n_rows in Hr; lia).
  unfold io_bind, lift, log_status, add_ao_voltage_chan, write_file, io_bind.
  rewrite <- Heqss.
  destruct (g =? 0)%Z;
    do 4 (rewrite ?Hans, ?(@np_vstack_same _ _ _ Hlx Hly);
          cbn [answers files hw_log fst snd]);
    (eexists; split; [reflexivity |]; cbn [answers files hw_log];
     repeat split).
Qed.


Lemma run_returns (draws : list (Q * Z * string)) (w : world) :
  well_shaped out ->
  answers w channels = true ->
  exists w',
    start_protocol channels sr trigger out stim_prob cwd draws w = (Ok tt, w') /\
    answers w' = answers w /\
    hw_log w'
    = (hw_log w ++ map (trial_write channels sr trigger out stim_prob) draws)%list /\
    read_file (files w') (path_join cwd "log.txt")
    = read_file (files w) (path_join cwd "log.txt")
      ++ trial_lines out stim_prob draws /\
    (forall d0, draws <> [] ->
       files w' (path_join cwd "stim.txt")
       = Some (trial_label out stim_prob (last draws d0))) /\
    (forall p, String.eqb p (path_join cwd "log.txt") = false ->
               String.eqb p (path_join cwd "stim.txt") = false ->
               String.eqb p (path_join cwd "status.txt") = false ->
               files w' p = files w p).
Proof.
  intros Hshape. revert w.
  induction draws as [| d draws IH]; intros w Hans.
  - exists w. cbn [start_protocol ret map trial_lines fold_right].
    split; [reflexivity |]. split; [reflexivity |].
    split; [rewrite app_nil_r; reflexivity |].
    split; [| split; [intros d0 H; congruence | reflexivity]].
    generalize (read_file (files w) (path_join cwd "log.txt")).
    intros s. induction s as [| a s IHs]; simpl; [| rewrite <- IHs]; reflexivity.
  - destruct (@pass_returns d w Hshape Hans) as (w1 & Hpass & Ha1 & Hh1 & Hf1).
    destruct (IH w1) as (w' & Hrun & Ha' & Hh' & Hlog' & Hstim' & Hrest');
      [rewrite Ha1; exact Hans |].
    exists w'. destruct d as [[u k] now].
    cbn [start_protocol]. cbn [fst snd] in Hpass.
    unfold io_bind at 1. rewrite Hpass.
    split; [exact Hrun |]. split; [rewrite Ha', Ha1; reflexivity |].
    split; [rewrite Hh', Hh1, <- app_assoc; reflexivity |].
    split; [| split].
    + rewrite Hlog'. unfold read_file at 1. rewrite Hf1, String.eqb_refl.
      cbn [trial_lines fold_right]. apply string_app_assoc.
    + intros d0 _. destruct draws as [| d' draws'].
      * cbn [start_protocol ret] in Hrun.
        injection Hrun as <-. rewrite Hf1.
        rewrite path_join_eqb. cbn [String.eqb Ascii.eqb Bool.eqb].
        rewrite String.eqb_refl. reflexivity.
      * rewrite (Hstim' d0) by discriminate. reflexivity.
    + intros p H1 H2 H3. rewrite (Hrest' p H1 H2 H3), Hf1, H1, H2, H3.
      reflexivity.
Qed.

End Protocol.

Lemma create_output_well_shaped (ui : ui_state) (out : output) :
  create_output ui = Ok out ->
  (0 <= max_group (map group (targets_table ui)))%Z ->
  well_shaped out.
Proof.
  intros Hout Htop.
  assert (Hcount : List.length (intensity_matrix out)
                   = Z.to_nat (max_group (map group (targets_table ui)) + 1)
                   /\ List.length (regions out) = List.length (intensity_matrix out)
                   /\ List.length (x_matrix out) = List.length (intensity_matrix out)
                   /\ List.length (y_matrix out) = List.length (intensity_matrix out)).
  { destruct (@create_output_inv ui out Hout) as (built & _ & _ & Hbuilt & ->).
    apply mapM_inv, Forall2_length_eq in Hbuilt.
    rewrite range_length in Hbuilt.
    cbn [regions intensity_matrix x_matrix y_matrix].
    rewrite !length_map. repeat split. symmetry. exact Hbuilt. }
  destruct Hcount as (Hcount & Hr & Hx & Hy).
  unfold well_shaped. split; [lia |].
  split; [exact Hr |]. split; [exact Hx |]. split; [exact Hy |].
  intros g Hg.
  destruct (build_group_lengths _ _ _ _ (@out_row ui out g Hout Hg))
    as (Hli & Hlx & Hly).
  rewrite Hli, Hlx, Hly. split; reflexivity.
Qed.

Lemma short_run_well_shaped : well_shaped (built_output short_run).
Proof.
  apply (@create_output_well_shaped short_run).
  - exact (create_output_ok short_run_buildable).
  - vm_compute. discriminate.
Qed.

(** C4.  One pass of the protocol loop over an output matrix with the
    rows [0..max_group], with [eu] and [ek] the two draws of the
    generator.  The value [r = 100 * np.random.random()] lies in
    [[0, 100)].  When [r > stim_prob] the group is 0; otherwise, when
    the matrix has the single row of group 0 the group is 0, and when
    [max_group >= 1] the group is the value of [randint(1, max_group+1)]:
    it lies in [1..max_group] whatever the draw, over one period of
    draws it takes the values [1, 2, ..., max_group] once each, and it
    repeats with that period, so that every group of the set is equally
    likely.  The pass works on the selected group and no other: on a
    matrix whose groups have three rows of one length and with an
    answering card it sends the rows of that group to the card. *)
Theorem group_selection (channels : string) (sr : Q) (trigger : string)
        (out : output) (stim_prob : Q) (cwd : string) (eu : Q) (ek : Z)
        (now : string) (w : world) (max_group : Z) :
  let n_rows := Z.of_nat (List.length (intensity_matrix out)) in
  let r := 100 * np_random_random eu in
  n_rows = (max_group + 1)%Z -> (0 <= max_group)%Z ->
  0 <= r /\ r < 100 /\
  (exists g,
     select_group stim_prob n_rows eu ek = Ok g /\
     (stim_prob < r -> g = 0%Z) /\
     (~ stim_prob < r -> max_group = 0%Z -> g = 0%Z) /\
     (~ stim_prob < r -> (1 <= max_group)%Z ->
      (1 <= g <= max_group)%Z /\ g = (1 + ek mod max_group)%Z) /\
     (well_shaped out -> answers w channels = true ->
      exists w',
        protocol_iteration channels sr trigger out stim_prob cwd eu ek now w
        = (Ok tt, w') /\
        hw_log w'
        = (hw_log w ++
           [WriteTriggered channels sr trigger
              [nth (Z.to_nat g) (intensity_matrix out) [];
               nth (Z.to_nat g) (x_matrix out) [];
               nth (Z.to_nat g) (y_matrix out) []]])%list)) /\
  (~ stim_prob < r -> (1 <= max_group)%Z ->
   map (select_group stim_prob n_rows eu) (run 0 (Z.to_nat max_group))
   = map Ok (run 1 (Z.to_nat max_group)) /\
   NoDup (run 1 (Z.to_nat max_group)) /\
   (forall v, In v (run 1 (Z.to_nat max_group)) <-> (1 <= v <= max_group)%Z) /\
   forall e, select_group stim_prob n_rows eu (e + max_group)
             = select_group stim_prob n_rows eu e).
Proof.
  intros n_rows r Hn Hmax.
  destruct (np_random_random_range eu) as (Hu0 & Hu1).
  assert (Hr0 : 0 <= r).
  { unfold r. apply Qmult_le_0_compat; [unfold Qle; simpl; lia | exact Hu0]. }
  assert (Hr1 : r < 100).
  { unfold r. apply Qlt_le_trans with (100 * 1).
    - apply Qmult_lt_l; [reflexivity | exact Hu1].
    - unfold Qle. simpl. lia. }
  split; [exact Hr0 |]. split; [exact Hr1 |].
  assert (Hsel : forall e,
            select_group stim_prob n_rows eu e
            = if Qlt_le_dec stim_prob r then Ok 0%Z
              else if (max_group =? 0)%Z then Ok 0%Z
                   else Ok (1 + e mod max_group)%Z).
  { intros e. unfold select_group. fold r.
    destruct (Qlt_le_dec stim_prob r); [reflexivity |].
    destruct (max_group =? 0)%Z eqn:E0.
    - apply Z.eqb_eq in E0.
      replace (n_rows =? 1)%Z with true by (symmetry; apply Z.eqb_eq; lia).
      reflexivity.
    - apply Z.eqb_neq in E0.
      replace (n_rows =? 1)%Z with false by (symmetry; apply Z.eqb_neq; lia).
      destruct (@np_random_randint_range 1%Z n_rows e) as (Hv & _); [lia |].
      rewrite Hv. replace (n_rows - 1)%Z with max_group by lia. reflexivity. }
  split.
  - destruct (@select_group_range out stim_prob eu ek) as (g & Hg & _);
      [fold n_rows; lia |].
    fold n_rows in Hg.
    exists g. split; [exact Hg |].
    assert (Hg' := Hg). rewrite Hsel in Hg'.
    split; [| split; [| split]].
    + intros Hlt. destruct (Qlt_le_dec stim_prob r) as [_ | Hle];
        [congruence |].
      exfalso. exact (Qlt_not_le _ _ Hlt Hle).
    + intros Hnlt Hm. destruct (Qlt_le_dec stim_prob r); [congruence |].
      rewrite Hm in Hg'. cbn in Hg'. congruence.
    + intros Hnlt Hm. destruct (Qlt_le_dec stim_prob r); [contradiction |].
      destruct (max_group =? 0)%Z eqn:E0; [apply Z.eqb_eq in E0; lia |].
      assert (Hv := f_equal (fun x => match x with
                                      | Ok v => v
                                      | Raise _ => 0%Z
                                      end) Hg').
      cbv beta iota in Hv.
      pose proof (Z.mod_pos_bound ek max_group ltac:(lia)).
      split; [lia | symmetry; exact Hv].
    + intros Hshape Hans.
      destruct (@pass_returns channels sr trigger out stim_prob cwd
                  (eu, ek, now) w Hshape Hans) as (w' & Hpass & _ & Hh & _).
      cbn [fst snd] in Hpass.
      exists w'. split; [exact Hpass |].
      rewrite Hh. unfold trial_write, trial_group. cbn [fst snd].
      fold n_rows. rewrite Hg. reflexivity.
  - intros Hnlt Hm.
    split; [| split; [apply run_NoDup | split]].
    + unfold run. rewrite !map_map. apply map_ext_in.
      intros i Hi. apply in_seq in Hi. rewrite Hsel.
      destruct (Qlt_le_dec stim_prob r); [contradiction |].
      destruct (max_group =? 0)%Z eqn:E0; [apply Z.eqb_eq in E0; lia |].
      rewrite Z.mod_small by lia. reflexivity.
    + intros v. rewrite run_In. lia.
    + intros e. rewrite !Hsel.
      destruct (Qlt_le_dec stim_prob r); [reflexivity |].
      destruct (max_group =? 0)%Z; [reflexivity |].
      replace (e + max_group)%Z with (e + 1 * max_group)%Z by lia.
      rewrite Z.mod_add by lia. reflexivity.
Qed.

Lemma group_selection_witness :
  let w := {| answers := fun _ => true; files := empty_fs; hw_log := [] |} in
  let out := built_output short_run in
  (exists g,
     select_group 50 2 (9 # 10) 7 = Ok g /\ g = 0%Z) /\
  (exists g,
     select_group 50 2 (1 # 10) 7 = Ok g /\ g = 1%Z /\
     exists w',
       protocol_iteration "Dev1/ao0" 10 "PFI0" out 50 "run" (1 # 10) 7 "noon" w
       = (Ok tt, w') /\
       hw_log w'
       = [WriteTriggered "Dev1/ao0" 10 "PFI0"
            [nth 1 (intensity_matrix out) []; nth 1 (x_matrix out) [];
             nth 1 (y_matrix out) []]]) /\
  map (select_group 50 2 (1 # 10)) (run 0 1) = [Ok 1%Z].
Proof.
  intros w out.
  destruct (@group_selection "Dev1/ao0" 10 "PFI0" out 50 "run" (9 # 10) 7
              "noon" w 1 eq_refl ltac:(lia))
    as (_ & _ & (g & Hg & Hctl & _) & _).
  destruct (@group_selection "Dev1/ao0" 10 "PFI0" out 50 "run" (1 # 10) 7
              "noon" w 1 eq_refl ltac:(lia))
    as (_ & _ & (g' & Hg' & _ & _ & Htr & Hrun) & Huni).
  assert (Hno : ~ 50 < 100 * np_random_random (1 # 10))
    by (vm_compute; discriminate).
  destruct (Htr Hno ltac:(lia)) as (Hrange & _).
  assert (Eg' : g' = 1%Z) by lia.
  destruct (Hrun short_run_well_shaped eq_refl) as (w' & Hpass & Hh).
  split; [| split].
  - exists g. split; [exact Hg |]. apply Hctl. reflexivity.
  - exists g'. split; [exact Hg' |]. split; [exact Eg' |].
    exists w'. split; [exact Hpass |]. rewrite Hh, Eg'. reflexivity.
  - exact (proj1 (Huni Hno ltac:(lia))).
Defined.



(** X5.  A run of the protocol loop over any number of passes, on an
    output whose groups have three rows of one length each and with an
    answering card, returns from every pass whatever the draws; the card
    receives one triggered write per pass, in order; log.txt keeps what
    it held and gains one line per pass, in order; stim.txt names the
    group of the last pass; no file other than log.txt, stim.txt and
    status.txt changes. *)
Theorem protocol_run (channels : string) (sr : Q) (trigger : string)
        (out : output) (stim_prob : Q) (cwd : string)
        (draws : list (Q * Z * string)) (w : world) :
  well_shaped out ->
  answers w channels = true ->
  exists w',
    start_protocol channels sr trigger out stim_prob cwd draws w = (Ok tt, w') /\
    hw_log w'
    = hw_log w ++ map (trial_write channels sr trigger out stim_prob) draws /\
    read_file (files w') (path_join cwd "log.txt")
    = (read_file (files w) (path_join cwd "log.txt")
       ++ trial_lines out stim_prob draws)%string /\
    (forall d0, draws <> [] ->
       files w' (path_join cwd "stim.txt")
       = Some (trial_label out stim_prob (last draws d0))) /\
    (forall p, String.eqb p (path_join cwd "log.txt") = false ->
               String.eqb p (path_join cwd "stim.txt") = false ->
               String.eqb p (path_join cwd "status.txt") = false ->
               files w' p = files w p).
Proof.
  intros Hshape Hans.
  destruct (@run_returns channels sr trigger out stim_prob cwd draws w
              Hshape Hans)
    as (w' & Hrun & _ & Hh & Hlog & Hstim & Hrest).
  exists w'. repeat split; assumption.
Qed.

Lemma protocol_run_witness :
  let w := {| answers := fun _ => true;
              files := fun p => if String.eqb p (path_join "run" "log.txt")
                                then Some "earlier"%string else None;
              hw_log := [] |} in
  let out := built_output short_run in
  let draws := [(1 # 10, 7%Z, "noon"%string); (9 # 10, 7%Z, "one"%string)] in
  exists w',
    start_protocol "Dev1/ao0" 10 "PFI0" out 50 "run" draws w = (Ok tt, w') /\
    hw_log w' = map (trial_write "Dev1/ao0" 10 "PFI0" out 50) draws /\
    read_file (files w') (path_join "run" "log.txt")
    = ("earlier" ++ "B, C at noon" ++ newline ++ "A at one" ++ newline)%string /\
    files w' (path_join "run" "stim.txt") = Some "A"%string.
Proof.
  intros w out draws.
  destruct (@protocol_run "Dev1/ao0" 10 "PFI0" out 50 "run" draws w)
    as (w' & Hrun & Hh & Hlog & Hstim & _).
  - exact short_run_well_shaped.
  - reflexivity.
  - exists w'. split; [exact Hrun |]. split; [exact Hh |].
    split; [exact Hlog |].
    exact (Hstim (0, 0%Z, EmptyString) ltac:(discriminate)).
Defined.

(** X6.  A protocol loop started on a card that does not answer, with an
    output whose groups have three rows of one length each, dies in its
    first pass with the driver error, whatever the draws and whatever
    passes would follow: nothing reaches the card, log.txt and stim.txt
    stay as they were, and status.txt is left announcing a stimulation
    that never comes. *)
Theorem protocol_without_card (channels : string) (sr : Q) (trigger : string)
        (out : output) (stim_prob : Q) (cwd : string)
        (d : Q * Z * string) (draws : list (Q * Z * string)) (w : world) :
  well_shaped out ->
  answers w channels = false ->
  exists w',
    start_protocol channels sr trigger out stim_prob cwd (d :: draws) w
    = (Raise DaqError, w') /\
    hw_log w' = hw_log w /\
    files w' (path_join cwd "status.txt")
    = Some (waiting_status out stim_prob d) /\
    files w' (path_join cwd "stim.txt") = files w (path_join cwd "stim.txt") /\
    files w' (path_join cwd "log.txt") = files w (path_join cwd "log.txt").
Proof.
  intros Hshape Hans.
  destruct (@pass_raises channels sr trigger out stim_prob cwd d w Hshape Hans)
    as (w' & Hpass & _ & Hh & Hf).
  exists w'. destruct d as [[u k] now].
  cbn [start_protocol]. cbn [fst snd] in Hpass.
  unfold io_bind at 1. rewrite Hpass.
  split; [reflexivity |]. split; [exact Hh |].
  rewrite !Hf, !path_join_eqb, String.eqb_refl. repeat split.
Qed.

Lemma protocol_without_card_witness :
  let w := {| answers := fun _ => false; files := empty_fs; hw_log := [] |} in
  let out := built_output short_run in
  exists w',
    start_protocol "Dev1/ao0" 10 "PFI0" out 50 "run"
      [(9 # 10, 7%Z, "noon"%string); (1 # 10, 7%Z, "one"%string)] w
    = (Raise DaqError, w') /\
    hw_log w' = [] /\
    files w' (path_join "run" "status.txt")
    = Some "Waiting to apply control stimulation."%string /\
    files w' (path_join "run" "stim.txt") = None /\
    files w' (path_join "run" "log.txt") = None.
Proof.
  intros w out.
  apply (@protocol_without_card "Dev1/ao0" 10 "PFI0" out 50 "run"
           (9 # 10, 7%Z, "noon"%string) [(1 # 10, 7%Z, "one"%string)] w).
  - exact short_run_well_shaped.
  - reflexivity.
Defined.

(** X7.  The ends of the stimulation probability, whatever the draws:
    below 0 every pass is a control pass; from 100 on, with more than one
    row, no pass is: the group is the value of [randint(1, n_rows)], a
    treatment row that exists; and at exactly 0 a value 0 of
    [np.random.random()] still selects a treatment group, because the
    comparison is strict. *)
Theorem stim_prob_extremes (stim_prob eu : Q) (n_rows ek : Z) :
  (stim_prob < 0 -> select_group stim_prob n_rows eu ek = Ok 0%Z) /\
  (100 <= stim_prob -> (1 < n_rows)%Z ->
   select_group stim_prob n_rows eu ek = np_random_randint 1 n_rows ek /\
   exists g, select_group stim_prob n_rows eu ek = Ok g /\
             (1 <= g < n_rows)%Z) /\
  (stim_prob == 0 -> np_random_random eu == 0 -> (1 < n_rows)%Z ->
   select_group stim_prob n_rows eu ek = np_random_randint 1 n_rows ek /\
   exists g, select_group stim_prob n_rows eu ek = Ok g /\
             (1 <= g < n_rows)%Z).
Proof.
  destruct (np_random_random_range eu) as (Hu0 & Hu1).
  unfold select_group.
  assert (H100 : 100 * np_random_random eu < 100).
  { apply Qlt_le_trans with (100 * 1).
    - apply Qmult_lt_l; [reflexivity | exact Hu1].
    - unfold Qle. simpl. lia. }
  assert (H0 : 0 <= 100 * np_random_random eu).
  { apply Qmult_le_0_compat; [unfold Qle; simpl; lia | exact Hu0]. }
  assert (Htreat : (1 < n_rows)%Z ->
            (if (n_rows =? 1)%Z then Ok 0%Z else np_random_randint 1 n_rows ek)
            = np_random_randint 1 n_rows ek /\
            exists g, (if (n_rows =? 1)%Z then Ok 0%Z
                       else np_random_randint 1 n_rows ek) = Ok g /\
                      (1 <= g < n_rows)%Z).
  { intros Hn. destruct (n_rows =? 1)%Z eqn:E; [apply Z.eqb_eq in E; lia |].
    split; [reflexivity |].
    destruct (@np_random_randint_range 1%Z n_rows ek Hn) as (Hv & Hr).
    eexists. split; [exact Hv | exact Hr]. }
  split; [| split].
  - intros Hp.
    destruct (Qlt_le_dec stim_prob (100 * np_random_random eu)) as [_ | Hle];
      [reflexivity |].
    exfalso. apply (Qlt_irrefl 0).
    apply Qle_lt_trans with (100 * np_random_random eu); [exact H0 |].
    apply Qle_lt_trans with stim_prob; assumption.
  - intros Hp Hn.
    destruct (Qlt_le_dec stim_prob (100 * np_random_random eu)) as [Hlt | _].
    + exfalso. apply (Qlt_irrefl 100).
      apply Qle_lt_trans with stim_prob; [exact Hp |].
      apply Qlt_trans with (100 * np_random_random eu); assumption.
    + exact (Htreat Hn).
  - intros Hp Hu Hn.
    destruct (Qlt_le_dec stim_prob (100 * np_random_random eu)) as [Hlt | _].
    + exfalso. rewrite Hp, Hu in Hlt. revert Hlt. apply Qlt_irrefl.
    + exact (Htreat Hn).
Qed.

Lemma stim_prob_extremes_witness :
  select_group (-1) 3 (1 # 2) 5 = Ok 0%Z /\
  select_group 100 3 (1 # 2) 5 = Ok 2%Z /\
  select_group 0 3 0 5 = Ok 2%Z.
Proof.
  destruct (@stim_prob_extremes (-1) (1 # 2) 3 5) as (H & _ & _).
  destruct (@stim_prob_extremes 100 (1 # 2) 3 5) as (_ & H' & _).
  destruct (@stim_prob_extremes 0 0 3 5) as (_ & _ & H'').
  split; [apply H; reflexivity |].
  split.
  - rewrite (proj1 (H' ltac:(vm_compute; discriminate) ltac:(lia))).
    reflexivity.
  - rewrite (proj1 (H'' ltac:(reflexivity) ltac:(reflexivity) ltac:(lia))).
    reflexivity.
Defined.

(** ** The group column and the start of a run *)

Section GroupColumn.

Lemma set_nth_length {A : Type} (i : nat) (v : A) (l : list A) :
  List.length (set_nth i v l) = List.length l.
Proof.
  revert i. induction l as [| a l IH]; intros [| i]; simpl; try reflexivity.
  rewrite IH. reflexivity.
Qed.

Lemma set_nth_same {A : Type} (i : nat) (v d : A) (l : list A) :
  (i < List.length l)%nat -> nth i (set_nth i v l) d = v.
Proof.
  revert i. induction l as [| a l IH]; intros [| i] Hi; simpl in *; try lia.
  - reflexivity.
  - apply IH. lia.
Qed.

Lemma set_nth_other {A : Type} (i j : nat) (v d : A) (l : list A) :
  j <> i -> nth j (set_nth i v l) d = nth j l d.
Proof.
  revert i j. induction l as [| a l IH]; intros [| i] [| j] Hij; simpl;
    try reflexivity; try congruence.
  apply IH. congruence.
Qed.

Lemma fold_left_max_In (l : list Z) (a : Z) : In (fold_left Z.max l a) (a :: l).
Proof.
  revert a. induction l as [| b l IH]; intros a; [left; reflexivity |].
  cbn [fold_left]. destruct (IH (Z.max a b)) as [H | H].
  - rewrite <- H.
    destruct (Z.max_spec a b) as [[_ E] | [_ E]]; rewrite E.
    + right. left. reflexivity.
    + left. reflexivity.
  - right. right. exact H.
Qed.

Lemma max_group_In (groups : list Z) :
  groups <> [] -> In (max_group groups) groups.
Proof.
  destruct groups as [| a l]; [congruence |]. intros _.
  apply fold_left_max_In.
Qed.

Lemma members_In (g : Z) (table : list target) :
  In g (map group table) -> members g table <> [].
Proof.
  intros Hin. apply in_map_iff in Hin as (t & Ht & Hin).
  assert (H : In t (members g table)).
  { unfold members. apply filter_In. split; [exact Hin |].
    apply Z.eqb_eq. exact Ht. }
  intros E. rewrite E in H. exact H.
Qed.

Lemma gate_buildable (ui : ui_state) :
  gate_checks (map group (targets_table ui)) ->
  timing_ok ui -> buildable ui.
Proof.
  intros (Hne & H0 & _ & (lo & top & Htop)) Ht.
  split; [exact Ht |].
  split; [intros E; apply Hne; rewrite E; reflexivity |].
  split; [apply max_group_ge; exact H0 |].
  intros g Hg. apply members_In. apply Htop.
  assert (Hm := max_group_In Hne). apply Htop in Hm.
  apply Htop in H0. lia.
Qed.

End GroupColumn.

(** X8.  [get_groups] returns the group column of the table.  With a row
    index and a new group it returns the column with exactly that entry
    replaced, a negative index counting from the end; an index outside
    the table, and any index on an empty table, raises [IndexError]. *)
Theorem get_groups_edit (table : list target) (cur_row new_group : Z) :
  let n := Z.of_nat (List.length table) in
  let i := Z.to_nat (if (cur_row <? 0)%Z then cur_row + n else cur_row)%Z in
  get_groups table None = Ok (map group table) /\
  ((- n <= cur_row < n)%Z ->
   exists groups,
     get_groups table (Some (cur_row, new_group)) = Ok groups /\
     List.length groups = List.length table /\
     nth i groups 0%Z = new_group /\
     forall j, j <> i -> nth j groups 0%Z = nth j (map group table) 0%Z) /\
  ((cur_row < - n \/ n <= cur_row)%Z ->
   get_groups table (Some (cur_row, new_group)) = Raise IndexError).
Proof.
  intros n i. split; [reflexivity |]. unfold get_groups.
  rewrite length_map. fold n.
  split.
  - intros Hr.
    assert (Hin : ((0 <=? (if (cur_row <? 0)%Z then cur_row + n else cur_row))
                   && ((if (cur_row <? 0)%Z then cur_row + n else cur_row) <? n))%Z
                  = true).
    { apply andb_true_iff. rewrite Z.leb_le, Z.ltb_lt.
      destruct (cur_row <? 0)%Z eqn:E;
        [apply Z.ltb_lt in E | apply Z.ltb_ge in E]; lia. }
    rewrite Hin. fold i.
    exists (set_nth i new_group (map group table)).
    split; [reflexivity |].
    split; [rewrite set_nth_length, length_map; reflexivity |].
    split.
    + apply set_nth_same. rewrite length_map. unfold i.
      destruct (cur_row <? 0)%Z eqn:E;
        [apply Z.ltb_lt in E | apply Z.ltb_ge in E]; lia.
    + intros j Hj. apply set_nth_other. exact Hj.
  - intros Hr.
    assert (Hin : ((0 <=? (if (cur_row <? 0)%Z then cur_row + n else cur_row))
                   && ((if (cur_row <? 0)%Z then cur_row + n else cur_row) <? n))%Z
                  = false).
    { apply andb_false_iff. rewrite Z.leb_gt, Z.ltb_ge.
      destruct (cur_row <? 0)%Z eqn:E;
        [apply Z.ltb_lt in E | apply Z.ltb_ge in E]; lia. }
    rewrite Hin. reflexivity.
Qed.

Lemma get_groups_edit_witness :
  get_groups [target_A; target_B; target_C] (Some ((-1)%Z, 2%Z))
  = Ok [0; 1; 2]%Z /\
  get_groups [target_A; target_B; target_C] (Some (3%Z, 2%Z))
  = Raise IndexError /\
  get_groups [] (Some ((-1)%Z, 2%Z)) = Raise IndexError.
Proof.
  split; [reflexivity |]. split.
  - apply (proj2 (proj2 (get_groups_edit [target_A; target_B; target_C] 3 2))).
    right. simpl. lia.
  - apply (proj2 (proj2 (get_groups_edit [] (-1) 2))). left. simpl. lia.
Defined.

(** X9.  Pressing the button on an idle GUI whose table passes the four
    checks.  With a timing that gives at least one taper sample (and a
    switch cadence of at least one sample) the output matrix is built and
    the protocol process is started with it, one row per group and three
    rows of one length in each; a second press then terminates it, logs
    "none" and "Ready.", resets the card and puts the GUI back in its
    idle state.  With a taper of zero samples and at least one on-sample
    the build raises after the button already reads "Stop protocol", and
    no process is started; a second press then raises [AttributeError]
    when no protocol had been started before, and stops the earlier
    process otherwise. *)
Theorem accepted_start_launches (g : gui) :
  idle g ->
  gate_checks (table_groups g) ->
  let g' := set_btn g "Stop protocol" (switch_protocol_btn_checked g) in
  let out := built_output (widgets g) in
  let stop := [TerminateProcess; LogLastStimulation "none"; LogStatus "Ready.";
               ResetCard; ZeroAllLater] in
  (timing_ok (widgets g) ->
   switch_protocol g
   = (set_protocol g' out (stim_prob_value g),
      [StopTask; ResetCard; ZeroAll; StartProcess out (stim_prob_value g)]) /\
   well_shaped out /\
   switch_protocol (set_protocol g' out (stim_prob_value g))
   = (set_protocol g out (stim_prob_value g), stop) /\
   idle (set_protocol g out (stim_prob_value g))) /\
  (taper_points (widgets g) = 0%Z -> (0 < on_points (widgets g))%Z ->
   switch_protocol g
   = (g', [StopTask; ResetCard; ZeroAll; Uncaught ValueError]) /\
   (protocol g = None ->
    switch_protocol g' = (g, [Uncaught AttributeError])) /\
   (forall p, protocol g = Some p -> switch_protocol g' = (g, stop))).
Proof.
  intros Hidle Hgate g' out stop.
  assert (Hsw := switch_protocol_idle Hidle).
  cbv zeta in Hsw.
  destruct (proj2 (checks_pass_gate (table_groups g)) Hgate)
    as (C1 & C2 & C3 & C4).
  rewrite C1, C2, C3, C4 in Hsw.
  assert (Hback : set_btn g' "Start protocol" (switch_protocol_btn_checked g')
                  = g).
  { unfold idle in Hidle. destruct g as [text checked prob ui proc].
    cbn in Hidle. subst text. reflexivity. }
  split.
  - intros Ht.
    assert (Hb : buildable (widgets g)) by (apply gate_buildable; assumption).
    rewrite (create_output_ok Hb) in Hsw. split; [exact Hsw |].
    split.
    + apply (@create_output_well_shaped (widgets g)).
      * exact (create_output_ok Hb).
      * destruct Hb as (_ & _ & H & _). exact H.
    + unfold idle in Hidle. destruct g as [text checked prob ui proc].
      cbn in Hidle. subst text. split; reflexivity.
  - intros Htp Hon.
    rewrite (@create_output_no_taper (widgets g)) in Hsw;
      [| exact Htp | exact Hon
       | apply members_In; destruct Hgate as (_ & H0 & _); exact H0].
    split; [exact Hsw |].
    unfold switch_protocol. cbn [g' set_btn switch_protocol_btn_text protocol].
    change (String.eqb "Stop protocol" "Start protocol") with false.
    cbv iota. fold g'. rewrite Hback.
    split.
    + intros Hnone. rewrite Hnone. reflexivity.
    + intros p Hp. rewrite Hp. reflexivity.
Qed.

Lemma accepted_start_launches_witness :
  let g := idle_gui three_groups in
  let started :=
    set_protocol (set_btn g "Stop protocol" true) (built_output three_groups)
                 50 in
  switch_protocol g
  = (started,
     [StopTask; ResetCard; ZeroAll;
      StartProcess (built_output three_groups) 50]) /\
  well_shaped (built_output three_groups) /\
  switch_protocol started
  = (set_protocol g (built_output three_groups) 50,
     [TerminateProcess; LogLastStimulation "none"; LogStatus "Ready.";
      ResetCard; ZeroAllLater]) /\
  idle (set_protocol g (built_output three_groups) 50).
Proof.
  intros g started.
  apply (proj1 (@accepted_start_launches g eq_refl
                  ltac:(apply checks_pass_gate; repeat split; reflexivity))).
  repeat split; try reflexivity; vm_compute; discriminate.
Defined.

(** ** Positions, bounds and blanking of the built rows *)

Section Cadence.

Lemma np_repeat_nth {A : Type} (a : list A) (k i : nat) (d : A) :
  (i < List.length a * k)%nat ->
  nth i (np_repeat a k) d = nth (i / k) a d.
Proof.
  unfold np_repeat. revert i.
  induction a as [| v a IH]; intros i Hi; [simpl in Hi; lia |].
  assert (Hk : k <> 0%nat) by (intros ->; simpl in Hi; lia).
  cbn [flat_map]. cbn [List.length] in Hi.
  destruct (Nat.lt_ge_cases i k) as [Hlt | Hge].
  - rewrite app_nth1 by (rewrite repeat_length; exact Hlt).
    rewrite (Nat.div_small i k Hlt). cbn [nth].
    apply nth_repeat_lt. exact Hlt.
  - rewrite app_nth2 by (rewrite repeat_length; lia).
    rewrite repeat_length, IH by lia.
    replace i with ((i - k) + 1 * k)%nat at 2 by lia.
    rewrite Nat.div_add by exact Hk.
    rewrite Nat.add_1_r. reflexivity.
Qed.

Lemma np_tile_nth {A : Type} (c : list A) (reps i : nat) (d : A) :
  (i < reps * List.length c)%nat ->
  nth i (np_tile c reps) d = nth (i mod List.length c) c d.
Proof.
  unfold np_tile. revert i.
  induction reps as [| reps IH]; intros i Hi; [simpl in Hi; lia |].
  cbn [repeat List.concat].
  destruct (Nat.lt_ge_cases i (List.length c)) as [Hlt | Hge].
  - rewrite app_nth1 by exact Hlt.
    rewrite (Nat.mod_small i _ Hlt). reflexivity.
  - rewrite app_nth2 by lia.
    rewrite IH by (simpl in Hi; lia).
    replace i with ((i - List.length c) + 1 * List.length c)%nat at 2 by lia.
    rewrite Nat.Div0.mod_add. reflexivity.
Qed.

Lemma positions_row_nth {A : Type} (positions : list A) (cp : Z) (n i : nat)
      (d : A) :
  (1 <= cp)%Z -> positions <> [] -> (i < n)%nat ->
  nth i (positions_row positions cp n) d
  = nth ((i / Z.to_nat cp) mod List.length positions) positions d.
Proof.
  intros Hcp Hne Hi.
  assert (Hlen := positions_row_length n Hcp Hne).
  unfold positions_row in *.
  set (k := Z.to_nat cp) in *.
  set (reps := Z.to_nat (Qceiling (inject_Z (Z.of_nat n) / inject_Z cp))) in *.
  assert (Hk : k <> 0%nat) by (unfold k; lia).
  assert (Hm : List.length positions <> 0%nat)
    by (destruct positions; [congruence | discriminate]).
  rewrite nth_firstn.
  destruct (i <? n)%nat eqn:E; [| apply Nat.ltb_ge in E; lia].
  assert (Hcover : (n <= List.length (np_tile (np_repeat positions k) reps))%nat).
  { rewrite length_firstn in Hlen. lia. }
  rewrite np_tile_length in Hcover.
  rewrite np_tile_nth by lia.
  rewrite np_repeat_length.
  rewrite np_repeat_nth
    by (apply Nat.mod_upper_bound; rewrite np_repeat_length in *; nia).
  f_equal.
  rewrite (Nat.mul_comm (List.length positions) k).
  rewrite Nat.Div0.mod_mul_r.
  rewrite (Nat.mul_comm k), Nat.div_add by exact Hk.
  rewrite (Nat.div_small (i mod k) k) by (apply Nat.mod_upper_bound; exact Hk).
  reflexivity.
Qed.

Lemma alternate_inv (positions : list R) (cp : Z) (n : nat) (r : list R) :
  positions <> [] ->
  alternate positions cp n = Ok r ->
  (1 <= cp)%Z /\ r = positions_row positions cp n.
Proof.
  intros Hne H.
  assert (Hcp : (1 <= cp)%Z).
  { unfold alternate in H.
    destruct (cp <? 0)%Z eqn:E1; [cbn [bind] in H; discriminate |].
    destruct (cp =? 0)%Z eqn:E2; [cbn [bind] in H; discriminate |].
    apply Z.ltb_ge in E1. apply Z.eqb_neq in E2. lia. }
  split; [exact Hcp |].
  rewrite (alternate_ok n Hcp Hne) in H. congruence.
Qed.

End Cadence.

Section RowsBuilt.

Variable ui : ui_state.

Lemma multi_site_members (g : Z) :
  multi_site ui g = true ->
  (2 <= List.length (members g (targets_table ui)))%nat.
Proof.
  unfold multi_site. rewrite count_eq_members. intros H.
  apply Z.leb_le in H. lia.
Qed.

(** What [build_group] returned for a group of two or more targets. *)
Lemma build_group_multi (g : Z) (label : string) (irow xrow yrow : list R) :
  multi_site ui g = true ->
  build_group ui (times_of ui) (taper_points ui) g
  = Ok (label, (irow, (xrow, yrow))) ->
  let rows := members g (targets_table ui) in
  exists tap,
    taper (stim_of ui) (taper_points ui) = Ok tap /\
    Qeq_bool (switch_freq ui) 0 = false /\
    (1 <= cycle_points ui)%Z /\
    xrow = positions_row (map x rows) (cycle_points ui) (n_samples ui) /\
    yrow = positions_row (map y rows) (cycle_points ui) (n_samples ui) /\
    irow = blank (map (fun v => (v * np_mean (map intensity rows))%R) tap)
                 (switch_points ui) (changes_from 0 xrow yrow).
Proof.
  intros Hm. assert (Hlen := multi_site_members g Hm).
  unfold multi_site in Hm. unfold build_group. fold (stim_of ui).
  rewrite Hm, times_of_length.
  destruct (taper (stim_of ui) (taper_points ui)) as [tap|];
    [| cbn [bind]; discriminate].
  cbn [bind].
  destruct (Qeq_bool (switch_freq ui) 0); [cbn [bind]; discriminate |].
  cbn [bind]. fold (cycle_points ui).
  destruct (alternate (map x _) _ _) as [xr|] eqn:Ex; [| cbn [bind]; discriminate].
  cbn [bind].
  destruct (alternate (map y _) _ _) as [yr|] eqn:Ey; [| cbn [bind]; discriminate].
  cbn [bind]. intros [= _ <- <- <-].
  apply alternate_inv in Ex as (Hcp & ->);
    [| destruct (members g (targets_table ui)); [simpl in Hlen; lia | discriminate]].
  apply alternate_inv in Ey as (_ & ->);
    [| destruct (members g (targets_table ui)); [simpl in Hlen; lia | discriminate]].
  exists tap. repeat split; assumption || reflexivity.
Qed.

(** What [build_group] returned for a group of one target. *)
Lemma build_group_single (g : Z) (label : string) (irow xrow yrow : list R) :
  multi_site ui g = false ->
  build_group ui (times_of ui) (taper_points ui) g
  = Ok (label, (irow, (xrow, yrow))) ->
  exists tap row rest,
    members g (targets_table ui) = row :: rest /\
    taper (stim_of ui) (taper_points ui) = Ok tap /\
    xrow = repeat (x row) (n_samples ui) /\
    yrow = repeat (y row) (n_samples ui) /\
    irow = map (fun v => (v * intensity row)%R) tap.
Proof.
  intros Hm. unfold multi_site in Hm. unfold build_group. fold (stim_of ui).
  rewrite Hm, times_of_length.
  destruct (members g (targets_table ui)) as [| row rest]; [discriminate |].
  destruct (taper (stim_of ui) (taper_points ui)) as [tap|];
    [| cbn [bind]; discriminate].
  cbn [bind]. intros [= _ <- <- <-].
  exists tap, row, rest. repeat split.
Qed.

Lemma taper_tapered_stim :
  (0 <= on_points ui)%Z -> (1 <= taper_points ui)%Z ->
  taper (stim_of ui) (taper_points ui) = Ok (tapered_stim ui).
Proof.
  intros Hon Htp. unfold tapered_stim. apply taper_ok.
  rewrite stim_of_length. unfold n_samples. lia.
Qed.

End RowsBuilt.

(** X10.  The positions of a returned matrix.  In a group of two or more
    targets the beam dwells [cycle_points = floor(sample_rate/switch_freq)]
    samples on each target, in table order, and starts over after the
    last: sample [i] of the x and y rows holds the coordinates of target
    [(i / cycle_points) mod m] of the group's [m] targets.  In a group of
    one target every sample holds the coordinates of that target. *)
Theorem position_cadence (ui : ui_state) (out : output) (g i : nat) :
  create_output ui = Ok out ->
  (g < List.length (intensity_matrix out))%nat ->
  (i < n_samples ui)%nat ->
  let rows := members (Z.of_nat g) (targets_table ui) in
  let xrow := nth g (x_matrix out) [] in
  let yrow := nth g (y_matrix out) [] in
  (multi_site ui (Z.of_nat g) = true ->
   let j := ((i / Z.to_nat (cycle_points ui)) mod List.length rows)%nat in
   (1 <= cycle_points ui)%Z /\
   nth i xrow 0%R = nth j (map x rows) 0%R /\
   nth i yrow 0%R = nth j (map y rows) 0%R) /\
  (multi_site ui (Z.of_nat g) = false ->
   rows <> [] /\
   nth i xrow 0%R = nth 0 (map x rows) 0%R /\
   nth i yrow 0%R = nth 0 (map y rows) 0%R).
Proof.
  intros Hout Hg Hi rows xrow yrow.
  assert (Hrow := @out_row ui out g Hout Hg). fold xrow yrow in Hrow.
  split; intros Hm.
  - destruct (@build_group_multi ui _ _ _ _ _ Hm Hrow)
      as (tap & _ & _ & Hcp & Hx & Hy & _).
    fold rows in Hx, Hy.
    assert (Hlen := @multi_site_members ui _ Hm). fold rows in Hlen.
    assert (Hne : rows <> []) by (destruct rows; [simpl in Hlen; lia | discriminate]).
    intros j. split; [exact Hcp |].
    rewrite Hx, Hy. unfold j.
    rewrite !positions_row_nth;
      try assumption;
      try (destruct rows; [congruence | discriminate]).
    rewrite !length_map. split; reflexivity.
  - destruct (@build_group_single ui _ _ _ _ _ Hm Hrow)
      as (tap & row & rest & Hrows & _ & Hx & Hy & _).
    fold rows in Hrows. rewrite Hrows.
    split; [discriminate |].
    rewrite Hx, Hy. cbn [map nth].
    rewrite !nth_repeat_lt by exact Hi. split; reflexivity.
Qed.

Lemma position_cadence_witness :
  let out := built_output short_run in
  nth 7 (nth 1 (x_matrix out) []) 0%R
  = nth 1 (map x (members 1 (targets_table short_run))) 0%R /\
  nth 10 (nth 1 (x_matrix out) []) 0%R
  = nth 0 (map x (members 1 (targets_table short_run))) 0%R /\
  nth 7 (nth 0 (x_matrix out) []) 0%R
  = nth 0 (map x (members 0 (targets_table short_run))) 0%R.
Proof.
  intros out.
  assert (Hout : create_output short_run = Ok out)
    by exact (create_output_ok short_run_buildable).
  split; [| split].
  - apply (proj1 (@position_cadence short_run out 1 7 Hout
                    ltac:(apply Nat.ltb_lt; reflexivity)
                    ltac:(apply Nat.ltb_lt; reflexivity)) eq_refl).
  - apply (proj1 (@position_cadence short_run out 1 10 Hout
                    ltac:(apply Nat.ltb_lt; reflexivity)
                    ltac:(apply Nat.ltb_lt; reflexivity)) eq_refl).
  - apply (proj2 (@position_cadence short_run out 0 7 Hout
                    ltac:(apply Nat.ltb_lt; reflexivity)
                    ltac:(apply Nat.ltb_lt; reflexivity)) eq_refl).
Defined.

Section Bounds.

Local Open Scope R_scope.

Variable top : R.

Lemma Forall_firstn_keep {A : Type} (P : A -> Prop) (n : nat) (l : list A) :
  Forall P l -> Forall P (firstn n l).
Proof.
  intros H. revert n. induction H as [| a l Ha _ IH]; intros [| n]; simpl;
    constructor; auto.
Qed.

Lemma Forall_skipn_keep {A : Type} (P : A -> Prop) (n : nat) (l : list A) :
  Forall P l -> Forall P (skipn n l).
Proof.
  intros H. revert n. induction H as [| a l Ha Hl IH]; intros [| n]; simpl;
    try constructor; auto.
Qed.

Lemma zip_mul_within (a b : list R) :
  Forall (within 1) a -> Forall (within 1) b -> Forall (within 1) (zip_mul a b).
Proof.
  intros Ha. revert b. induction Ha as [| u a Hu _ IH]; intros b Hb;
    [constructor |].
  destruct Hb as [| v b Hv Hb]; [constructor |].
  cbn [zip_mul]. constructor; [| apply IH; exact Hb].
  unfold within in *. nra.
Qed.

Lemma scale_tail_within (v r : list R) :
  Forall (within 1) v -> Forall (within 1) r ->
  Forall (within 1) (scale_tail v r).
Proof.
  intros Hv Hr. unfold scale_tail. apply Forall_app. split.
  - apply Forall_firstn_keep. exact Hv.
  - apply zip_mul_within; [apply Forall_skipn_keep; exact Hv | exact Hr].
Qed.

Lemma ramp_within (tp : nat) : Forall (within 1) (linspace 1 0 tp).
Proof.
  unfold linspace. apply Forall_forall. intros v Hv.
  apply in_map_iff in Hv as (i & <- & Hi). apply in_seq in Hi.
  unfold within.
  destruct (Nat.eq_dec (tp - 1) 0) as [E | E].
  - assert (i = 0%nat) by lia. subst i. simpl INR. lra.
  - assert (H1 : 0 < INR (tp - 1)) by (apply lt_0_INR; lia).
    assert (H2 : 0 <= INR i) by apply pos_INR.
    assert (H3 : INR i <= INR (tp - 1)) by (apply le_INR; lia).
    replace (1 + INR i * ((0 - 1) / INR (tp - 1)))
      with (1 - INR i / INR (tp - 1)) by (field; lra).
    assert (H4 : 0 <= INR i / INR (tp - 1) <= 1).
    { split.
      - apply Rmult_le_pos; [exact H2 |].
        apply Rlt_le, Rinv_0_lt_compat. exact H1.
      - apply (Rmult_le_reg_r (INR (tp - 1))); [exact H1 |].
        unfold Rdiv. rewrite Rmult_assoc, Rinv_l by lra. lra. }
    lra.
Qed.

Lemma create_stim_within (times : list R) (freq : R) (kind : bool) (duty : R) :
  Forall (within 1) (create_stim times freq kind duty).
Proof.
  unfold create_stim. destruct kind; apply Forall_forall; intros v Hv;
    apply in_map_iff in Hv as (t & <- & _); unfold within.
  - pose proof (SIN_bound (2 * PI * t * freq)). lra.
  - destruct (square_values (2 * PI * t * freq) (duty / 100)) as [-> | ->]; lra.
Qed.

Lemma tapered_stim_within (ui : ui_state) : Forall (within 1) (tapered_stim ui).
Proof.
  unfold tapered_stim, stim_of.
  apply scale_tail_within; [apply create_stim_within | apply ramp_within].
Qed.

Lemma scaled_within (scale : R) (l : list R) :
  0 <= scale <= top -> Forall (within 1) l ->
  Forall (within top) (map (fun v => v * scale) l).
Proof.
  intros Hs Hl. apply Forall_forall. intros v Hv.
  apply in_map_iff in Hv as (u & <- & Hu).
  rewrite Forall_forall in Hl. specialize (Hl u Hu).
  unfold within in *. nra.
Qed.

Lemma fill_from_within (k lo hi : Z) (row : list R) :
  0 <= top -> Forall (within top) row ->
  Forall (within top) (fill_from k lo hi 0 row).
Proof.
  intros Ht H. revert k. induction H as [| a row Ha _ IH]; intros k;
    cbn [fill_from]; constructor; [| apply IH].
  destruct ((lo <=? k) && (k <? hi))%Z; [| exact Ha].
  unfold within. lra.
Qed.

Lemma blank_within (row : list R) (sp : Z) (cs : list Z) :
  0 <= top -> Forall (within top) row -> Forall (within top) (blank row sp cs).
Proof.
  intros Ht. unfold blank. revert row.
  induction cs as [| c cs IH]; intros row H; [exact H |].
  cbn [fold_left]. apply IH. unfold assign_slice.
  apply fill_from_within; assumption.
Qed.

Lemma fold_plus_bounds (l : list R) :
  Forall (within top) l ->
  0 <= fold_right Rplus 0 l <= INR (List.length l) * top.
Proof.
  induction 1 as [| a l Ha _ IH].
  - simpl. lra.
  - cbn [fold_right]. change (List.length (a :: l)) with (S (List.length l)).
    rewrite S_INR. unfold within in Ha. lra.
Qed.

Lemma np_mean_within (l : list R) :
  l <> [] -> Forall (within top) l -> within top (np_mean l).
Proof.
  intros Hne H. pose proof (fold_plus_bounds H) as Hs.
  assert (Hn : 0 < INR (List.length l)).
  { apply lt_0_INR. destruct l; [congruence | simpl; lia]. }
  unfold np_mean, within. split.
  - apply Rmult_le_pos; [lra |]. apply Rlt_le, Rinv_0_lt_compat. exact Hn.
  - apply (Rmult_le_reg_r (INR (List.length l))); [exact Hn |].
    unfold Rdiv. rewrite Rmult_assoc, Rinv_l by lra. lra.
Qed.

End Bounds.

(** X11.  No sample of a returned intensity row is negative or larger than
    the largest intensity of the targets of its group: when every target
    of the group has an intensity between 0 and [top], so has every
    sample of the row (the waveform and the taper ramp stay within
    [[0, 1]], a multi-site group is scaled by the mean intensity, and
    blanking only writes zeros). *)
Theorem intensity_bounded (ui : ui_state) (out : output) (g : nat) (top : R) :
  create_output ui = Ok out ->
  (g < List.length (intensity_matrix out))%nat ->
  (0 <= on_points ui)%Z -> (1 <= taper_points ui)%Z ->
  Forall (fun t => within top (intensity t))
         (members (Z.of_nat g) (targets_table ui)) ->
  Forall (within top) (nth g (intensity_matrix out) []).
Proof.
  intros Hout Hg Hon Htp Hint.
  assert (Hrow := @out_row ui out g Hout Hg).
  assert (Htap := @taper_tapered_stim ui Hon Htp).
  assert (Hmap : Forall (within top)
                   (map intensity (members (Z.of_nat g) (targets_table ui)))).
  { apply Forall_forall. intros v Hv. apply in_map_iff in Hv as (t & <- & Ht).
    rewrite Forall_forall in Hint. apply Hint. exact Ht. }
  destruct (multi_site ui (Z.of_nat g)) eqn:Hm.
  - destruct (@build_group_multi ui _ _ _ _ _ Hm Hrow)
      as (tap & Ht & _ & _ & _ & _ & ->).
    rewrite Htap in Ht. injection Ht as <-.
    assert (Hlen := @multi_site_members ui _ Hm).
    assert (Hmean : within top
              (np_mean (map intensity (members (Z.of_nat g) (targets_table ui))))).
    { apply np_mean_within; [| exact Hmap].
      destruct (members (Z.of_nat g) (targets_table ui));
        [simpl in Hlen; lia | discriminate]. }
    apply blank_within; [unfold within in Hmean; lra |].
    apply scaled_within; [exact Hmean | apply tapered_stim_within].
  - destruct (@build_group_single ui _ _ _ _ _ Hm Hrow)
      as (tap & row & rest & Hrows & Ht & _ & _ & ->).
    rewrite Htap in Ht. injection Ht as <-.
    rewrite Hrows in Hint. apply Forall_inv in Hint.
    apply scaled_within; [exact Hint | apply tapered_stim_within].
Qed.

Lemma intensity_bounded_witness :
  Forall (within 10) (nth 1 (intensity_matrix (built_output short_run)) []).
Proof.
  apply (@intensity_bounded short_run (built_output short_run) 1 10).
  - exact (create_output_ok short_run_buildable).
  - apply Nat.ltb_lt. reflexivity.
  - vm_compute. discriminate.
  - vm_compute. discriminate.
  - repeat constructor; unfold within; simpl; lra.
Defined.

Section Untouched.

Lemma changes_from_In (xs ys : list R) (k c : Z) :
  In c (changes_from k xs ys) ->
  exists i : nat,
    c = (k + Z.of_nat i)%Z /\ (S i < List.length xs)%nat /\
    (nth (S i) xs 0%R <> nth i xs 0%R \/ nth (S i) ys 0%R <> nth i ys 0%R).
Proof.
  revert ys k. induction xs as [| x0 xs IH]; intros ys k Hin; [destruct Hin |].
  destruct ys as [| y0 ys]; [destruct Hin |].
  destruct xs as [| x1 xs]; [destruct Hin |].
  destruct ys as [| y1 ys]; [destruct Hin |].
  cbn [changes_from] in Hin.
  assert (Hrest : In c (changes_from (k + 1) (x1 :: xs) (y1 :: ys)) ->
                  exists i : nat,
                    c = (k + Z.of_nat i)%Z /\
                    (S i < List.length (x0 :: x1 :: xs))%nat /\
                    (nth (S i) (x0 :: x1 :: xs) 0%R <> nth i (x0 :: x1 :: xs) 0%R \/
                     nth (S i) (y0 :: y1 :: ys) 0%R <> nth i (y0 :: y1 :: ys) 0%R)).
  { intros H. destruct (IH _ _ H) as (i & -> & Hi & Hd).
    exists (S i). split; [lia |]. split; [simpl in *; lia | exact Hd]. }
  destruct (Rneqb x1 x0 || Rneqb y1 y0) eqn:E.
  - destruct Hin as [<- | Hin]; [| exact (Hrest Hin)].
    exists 0%nat. split; [lia |]. split; [simpl; lia |].
    apply orb_true_iff in E as [E | E]; apply Rneqb_true in E;
      [left | right]; exact E.
  - exact (Hrest Hin).
Qed.

Lemma mapM_ext {A B : Type} (f h : A -> result B) (l : list A) :
  (forall a, In a l -> f a = h a) -> mapM f l = mapM h l.
Proof.
  induction l as [| a l IH]; intros H; [reflexivity |].
  cbn [mapM]. rewrite (H a (or_introl eq_refl)), IH; [reflexivity |].
  intros b Hb. apply H. right. exact Hb.
Qed.

Lemma mapM_raises {A B : Type} (f : A -> result B) (l : list A) (e : exn) :
  (forall a, In a l -> (exists b, f a = Ok b) \/ f a = Raise e) ->
  (exists a, In a l /\ f a = Raise e) ->
  mapM f l = Raise e.
Proof.
  induction l as [| a l IH]; intros Hall (a0 & Hin & Hr); [destruct Hin |].
  cbn [mapM].
  destruct (Hall a (or_introl eq_refl)) as [(b & Hb) | Hb]; rewrite Hb;
    [| reflexivity].
  cbn [bind]. rewrite IH; [reflexivity | |].
  - intros a' Ha'. apply Hall. right. exact Ha'.
  - destruct Hin as [-> | Hin]; [congruence |].
    exists a0. split; assumption.
Qed.

End Untouched.

(** X12.  Blanking touches nothing but its windows.  In a multi-site group
    of a returned matrix, a sample that lies in no window
    [[c - 1, c + switch_points - 1)] of a position change at an index
    [c >= 1] keeps the tapered waveform scaled by the mean intensity of
    the group.  A position change at index 0 blanks no sample: its window
    starts at the slice bound -1, the last sample. *)
Theorem blanking_exact (ui : ui_state) (out : output) (g k : nat) :
  create_output ui = Ok out ->
  (g < List.length (intensity_matrix out))%nat ->
  multi_site ui (Z.of_nat g) = true ->
  (0 <= on_points ui)%Z -> (1 <= taper_points ui)%Z ->
  (0 <= switch_points ui <= Z.of_nat (n_samples ui))%Z ->
  (k < n_samples ui)%nat ->
  let irow := nth g (intensity_matrix out) [] in
  let xrow := nth g (x_matrix out) [] in
  let yrow := nth g (y_matrix out) [] in
  (forall c : nat,
     (1 <= c)%nat -> (S c < n_samples ui)%nat ->
     nth c xrow 0%R <> nth (S c) xrow 0%R \/
     nth c yrow 0%R <> nth (S c) yrow 0%R ->
     ~ (Z.of_nat c - 1 <= Z.of_nat k < Z.of_nat c + switch_points ui - 1)%Z) ->
  nth k irow 0%R
  = (nth k (tapered_stim ui) 0
     * np_mean (map intensity (members (Z.of_nat g) (targets_table ui))))%R.
Proof.
  intros Hout Hg Hm Hon Htp Hsp Hk irow xrow yrow Hfree.
  assert (Hrow := @out_row ui out g Hout Hg). fold irow xrow yrow in Hrow.
  destruct (build_group_lengths _ _ _ _ Hrow) as (_ & Hlx & _).
  rewrite times_of_length in Hlx.
  destruct (@build_group_multi ui _ _ _ _ _ Hm Hrow)
    as (tap & Ht & _ & _ & _ & _ & Hi).
  rewrite (@taper_tapered_stim ui Hon Htp) in Ht. injection Ht as <-.
  assert (Hlen : List.length (tapered_stim ui) = n_samples ui)
    by (apply tapered_stim_length; lia).
  rewrite Hi, blank_miss.
  - apply (@nth_map_in _ _ (fun v => (v * _)%R) (tapered_stim ui) k 0%R 0%R).
    rewrite Hlen. exact Hk.
  - rewrite length_map, Hlen. exact Hk.
  - rewrite length_map, Hlen. apply Forall_forall. intros c Hc.
    apply changes_from_In in Hc as (i & -> & Hi' & Hd).
    rewrite Hlx in Hi'.
    apply andb_false_iff. rewrite Z.leb_gt, Z.ltb_ge.
    unfold slice_bound.
    destruct i as [| i].
    + change (0 + Z.of_nat 0 - 1 <? 0)%Z with true. cbv iota.
      destruct (0 + Z.of_nat 0 + switch_points ui - 1 <? 0)%Z eqn:E;
        [apply Z.ltb_lt in E | apply Z.ltb_ge in E]; lia.
    + assert (Hw := Hfree (S i) ltac:(lia) Hi'
                      ltac:(destruct Hd as [Hd | Hd]; [left | right];
                            intros E; apply Hd; symmetry; exact E)).
      destruct (0 + Z.of_nat (S i) - 1 <? 0)%Z eqn:E1;
        [apply Z.ltb_lt in E1; lia | apply Z.ltb_ge in E1].
      destruct (0 + Z.of_nat (S i) + switch_points ui - 1 <? 0)%Z eqn:E2;
        [apply Z.ltb_lt in E2; lia | apply Z.ltb_ge in E2].
      lia.
Qed.

Lemma blanking_exact_witness :
  nth 5 (nth 1 (intensity_matrix (built_output short_run)) []) 0%R
  = (nth 5 (tapered_stim short_run) 0
     * np_mean (map intensity (members 1 (targets_table short_run))))%R.
Proof.
  assert (Hout : create_output short_run = Ok (built_output short_run))
    by exact (create_output_ok short_run_buildable).
  apply (@blanking_exact short_run (built_output short_run) 1 5 Hout).
  - apply Nat.ltb_lt. reflexivity.
  - reflexivity.
  - vm_compute. discriminate.
  - vm_compute. discriminate.
  - split; vm_compute; discriminate.
  - apply Nat.ltb_lt. reflexivity.
  - intros c Hc1 Hc2 Hd.
    change (switch_points short_run) with 2%Z.
    destruct (@built_output_rows short_run 1) as (_ & Hx & Hy & _);
      [vm_compute; discriminate |].
    change (Z.of_nat 1) with 1%Z in Hx, Hy.
    rewrite Hx, Hy, short_run_x, short_run_y in Hd.
    intros Hwin. assert (c = 5%nat \/ c = 6%nat) as [-> | ->] by lia;
      destruct Hd as [Hd | Hd]; apply Hd; reflexivity.
Defined.

(** X13.  The switching settings are read for multi-site groups only: on
    a table in which no group has two or more targets, [create_output]
    returns or raises the same whatever the switch frequency and the
    switch duration are, a switch frequency of 0 included. *)
Theorem single_site_ignores_switching (ui : ui_state) (freq dur : Q) :
  (forall g, multi_site ui g = false) ->
  create_output (with_switching ui freq dur) = create_output ui.
Proof.
  intros Hsingle.
  assert (Hb : forall times tp g,
             build_group (with_switching ui freq dur) times tp g
             = build_group ui times tp g).
  { intros times tp g. unfold build_group.
    cbn [with_switching targets_table stim_freq sin_stim duty_cycle].
    specialize (Hsingle g). unfold multi_site in Hsingle.
    rewrite Hsingle. reflexivity. }
  unfold create_output.
  cbn [with_switching on_dur taper_dur sample_rate targets_table].
  destruct (np_linspace _ _ _) as [times |]; [| reflexivity].
  cbn [bind].
  destruct (np_max _) as [top |]; [| reflexivity].
  cbn [bind].
  destruct (np_zeros_shape (top + 1 + 1)); [| reflexivity].
  cbn [bind].
  destruct (np_zeros_shape (top + 1)); [| reflexivity].
  cbn [bind].
  rewrite (@mapM_ext _ _ (build_group (with_switching ui freq dur) times
                            (py_int (taper_dur ui * sample_rate ui)))
             (build_group ui times (py_int (taper_dur ui * sample_rate ui))));
    [reflexivity |].
  intros g _. apply Hb.
Qed.

Lemma single_site_ignores_switching_witness :
  create_output (with_switching one_taper_sample 0 5)
  = create_output one_taper_sample.
Proof.
  apply (@single_site_ignores_switching one_taper_sample 0 5).
  intros g. unfold multi_site. cbn [one_taper_sample targets_table map target_A group].
  unfold count_eq. cbn [filter]. destruct (0 =? g)%Z; reflexivity.
Defined.

(** X14.  With a group of two or more targets, a switch frequency of 0 or
    one above the sample rate (so that [cycle_points] is 0) makes
    [create_output] raise [ZeroDivisionError], on a table that has every
    group up to the largest and a timing with at least one taper
    sample. *)
Theorem switching_too_fast_raises (ui : ui_state) (g0 : Z) :
  let top := max_group (map group (targets_table ui)) in
  (0 <= on_points ui)%Z -> (1 <= taper_points ui)%Z ->
  (forall g, (0 <= g <= top)%Z -> members g (targets_table ui) <> []) ->
  (0 <= g0 <= top)%Z -> multi_site ui g0 = true ->
  Qeq_bool (switch_freq ui) 0 = true \/ cycle_points ui = 0%Z ->
  create_output ui = Raise ZeroDivisionError.
Proof.
  intros top Hon Htp Hfull Hg0 Hm0 Hfast.
  assert (Hne : targets_table ui <> []).
  { intros E. specialize (Hfull g0 Hg0). rewrite E in Hfull. apply Hfull.
    reflexivity. }
  rewrite create_output_unfold; [| lia | exact Hne | fold top; lia].
  fold top.
  rewrite (@mapM_raises _ _ (build_group ui (times_of ui) (taper_points ui))
             (range (top + 1)) ZeroDivisionError); [reflexivity | |].
  - intros g Hg. apply range_In in Hg.
    unfold build_group. fold (stim_of ui).
    rewrite (@taper_tapered_stim ui Hon Htp). cbn [bind].
    destruct (2 <=? count_eq g (map group (targets_table ui)))%Z.
    + right.
      destruct (Qeq_bool (switch_freq ui) 0) eqn:E; [reflexivity |].
      destruct Hfast as [Hfast | Hfast]; [congruence |].
      cbn [bind]. fold (cycle_points ui). rewrite Hfast. reflexivity.
    + left. destruct (members g (targets_table ui)) as [| row rest] eqn:E.
      * exfalso. apply (Hfull g); [lia | exact E].
      * eexists. reflexivity.
  - exists g0. split; [apply range_In; lia |].
    unfold build_group. fold (stim_of ui).
    rewrite (@taper_tapered_stim ui Hon Htp). cbn [bind].
    unfold multi_site in Hm0. rewrite Hm0.
    destruct (Qeq_bool (switch_freq ui) 0) eqn:E; [reflexivity |].
    destruct Hfast as [Hfast | Hfast]; [congruence |].
    cbn [bind]. fold (cycle_points ui). rewrite Hfast. reflexivity.
Qed.

Lemma switching_too_fast_raises_witness :
  create_output (with_switching short_run 0 200) = Raise ZeroDivisionError /\
  create_output (with_switching short_run 11 200) = Raise ZeroDivisionError.
Proof.
  split.
  - apply (@switching_too_fast_raises (with_switching short_run 0 200) 1).
    + vm_compute. discriminate.
    + vm_compute. discriminate.
    + intros g Hg.
      change (max_group (map group (targets_table (with_switching short_run 0 200))))
        with 1%Z in Hg.
      assert (g = 0%Z \/ g = 1%Z) as [-> | ->] by lia; discriminate.
    + split; vm_compute; discriminate.
    + reflexivity.
    + left. reflexivity.
  - apply (@switching_too_fast_raises (with_switching short_run 11 200) 1).
    + vm_compute. discriminate.
    + vm_compute. discriminate.
    + intros g Hg.
      change (max_group (map group (targets_table (with_switching short_run 11 200))))
        with 1%Z in Hg.
      assert (g = 0%Z \/ g = 1%Z) as [-> | ->] by lia; discriminate.
    + split; vm_compute; discriminate.
    + reflexivity.
    + right. reflexivity.
Defined.

(** ** The plot, the live output and the test pulse *)

Section Plot.

Lemma py_int_zero_rate (t sr : Q) :
  Qeq_bool sr 0 = true -> py_int (t * sr) = 0%Z.
Proof.
  intros H. apply Qeq_bool_iff in H. unfold Qeq in H. simpl in H.
  rewrite Z.mul_1_r in H. unfold py_int. destruct t as [a b], sr as [c d].
  simpl in *. subst c. rewrite Z.mul_0_r. apply Z.quot_0_l. discriminate.
Qed.

Lemma update_plot_returns (ui : ui_state) :
  (0 <= on_points ui)%Z -> (1 <= taper_points ui)%Z ->
  update_plot ui
  = Ok (linspace 0 (Q2R (inject_Z (on_points ui + taper_points ui)
                         / sample_rate ui)) (n_samples ui),
        tapered_stim ui).
Proof.
  intros Hon Htp.
  assert (Hsr : Qeq_bool (sample_rate ui) 0 = false).
  { destruct (Qeq_bool (sample_rate ui) 0) eqn:E; [| reflexivity].
    unfold taper_points in Htp. rewrite (py_int_zero_rate _ _ E) in Htp. lia. }
  unfold update_plot. fold (on_points ui) (taper_points ui).
  unfold np_linspace.
  destruct (on_points ui + taper_points ui <? 0)%Z eqn:E;
    [apply Z.ltb_lt in E; lia |].
  cbn [bind]. fold (n_samples ui) (times_of ui) (stim_of ui).
  rewrite (@taper_tapered_stim ui Hon Htp). cbn [bind].
  rewrite Hsr. reflexivity.
Qed.

Lemma update_plot_no_taper (ui : ui_state) :
  taper_points ui = 0%Z -> (0 < on_points ui)%Z ->
  update_plot ui = Raise ValueError.
Proof.
  intros Htp Hon.
  unfold update_plot. fold (on_points ui) (taper_points ui).
  unfold np_linspace.
  destruct (on_points ui + taper_points ui <? 0)%Z eqn:E;
    [apply Z.ltb_lt in E; lia |].
  cbn [bind]. fold (n_samples ui) (times_of ui) (stim_of ui).
  rewrite Htp, taper_zero; [reflexivity |].
  intros E'. apply (f_equal (@List.length R)) in E'.
  rewrite stim_of_length in E'. unfold n_samples in E'. simpl in E'. lia.
Qed.

End Plot.

(** X15.  [update_plot] draws the waveform the protocol delivers.  With at
    least one taper sample it plots, over [N = on_points + taper_points]
    evenly spaced times from 0 to [N / sample_rate], a curve of [N] values
    in [[0, 1]]; every single-target row of the matrix [create_output]
    returns for the same settings is that curve times the intensity of
    the target.  With a taper of zero samples and at least one on-sample
    it raises [ValueError]. *)
Theorem update_plot_curve (ui : ui_state) :
  ((0 <= on_points ui)%Z -> (1 <= taper_points ui)%Z ->
   exists times_sec curve,
     update_plot ui = Ok (times_sec, curve) /\
     times_sec
     = linspace 0 (Q2R (inject_Z (on_points ui + taper_points ui)
                        / sample_rate ui)) (n_samples ui) /\
     List.length times_sec = n_samples ui /\
     List.length curve = n_samples ui /\
     Forall (within 1) curve /\
     forall out g,
       create_output ui = Ok out ->
       (g < List.length (intensity_matrix out))%nat ->
       multi_site ui (Z.of_nat g) = false ->
       exists row rest,
         members (Z.of_nat g) (targets_table ui) = row :: rest /\
         nth g (intensity_matrix out) []
         = map (fun v => (v * intensity row)%R) curve) /\
  (taper_points ui = 0%Z -> (0 < on_points ui)%Z ->
   update_plot ui = Raise ValueError).
Proof.
  split; [| apply update_plot_no_taper].
  intros Hon Htp.
  exists (linspace 0 (Q2R (inject_Z (on_points ui + taper_points ui)
                           / sample_rate ui)) (n_samples ui)),
         (tapered_stim ui).
  split; [apply update_plot_returns; assumption |].
  split; [reflexivity |].
  split; [apply linspace_length |].
  split; [apply tapered_stim_length; lia |].
  split; [apply tapered_stim_within |].
  intros out g Hout Hg Hm.
  assert (Hrow := @out_row ui out g Hout Hg).
  destruct (@build_group_single ui _ _ _ _ _ Hm Hrow)
    as (tap & row & rest & Hrows & Ht & _ & _ & Hi).
  rewrite (@taper_tapered_stim ui Hon Htp) in Ht. injection Ht as <-.
  exists row, rest. split; assumption.
Qed.

Lemma update_plot_curve_witness :
  (exists times_sec curve,
     update_plot sine_run = Ok (times_sec, curve) /\
     List.length curve = 6%nat) /\
  update_plot (scenario 1 true 50 2 0) = Raise ValueError.
Proof.
  split.
  - destruct (proj1 (update_plot_curve sine_run))
      as (ts & curve & Hp & _ & _ & Hlen & _);
      [vm_compute; discriminate | vm_compute; discriminate |].
    exists ts, curve. split; [exact Hp | exact Hlen].
  - apply (proj2 (update_plot_curve (scenario 1 true 50 2 0)));
      [reflexivity | reflexivity].
Defined.

Section LiveOutput.

Variable w : Live.widgets.

Let n : Z := Qfloor (Live.sample_rate w / Live.stim_freq w).

Lemma linspace_open_length (a b : R) (num : nat) :
  List.length (linspace_open a b num) = num.
Proof. unfold linspace_open. rewrite length_map, length_seq. reflexivity. Qed.

Lemma linspace_open_nth (a b d : R) (num i : nat) :
  (i < num)%nat ->
  nth i (linspace_open a b num) d = (a + INR i * ((b - a) / INR num))%R.
Proof.
  intros Hi. unfold linspace_open.
  rewrite (@nth_map_in _ _ _ (seq 0 num) i d 0%nat)
    by (rewrite length_seq; exact Hi).
  rewrite seq_nth by exact Hi. reflexivity.
Qed.

Lemma one_period_returns :
  Qeq_bool (Live.stim_freq w) 0 = false -> (0 <= n)%Z ->
  Live.one_period w
  = Ok (create_stim (linspace_open 0 (Q2R (1 / Live.stim_freq w)) (Z.to_nat n))
          (Q2R (Live.stim_freq w)) (Live.sin_stim w) (Live.duty_cycle w)).
Proof.
  intros Hf Hn. unfold Live.one_period, np_linspace_open. rewrite Hf.
  fold n. destruct (n <? 0)%Z eqn:E; [apply Z.ltb_lt in E; lia |].
  reflexivity.
Qed.

(** The phase of sample [i] of the period. *)
Lemma period_phase (i : nat) :
  Qeq_bool (Live.stim_freq w) 0 = false -> (i < Z.to_nat n)%nat ->
  (2 * PI
   * nth i (linspace_open 0 (Q2R (1 / Live.stim_freq w)) (Z.to_nat n)) 0
   * Q2R (Live.stim_freq w)
   = 2 * PI * (INR i / INR (Z.to_nat n)))%R.
Proof.
  intros Hf Hi. rewrite linspace_open_nth by exact Hi.
  assert (Hf' : Q2R (Live.stim_freq w) <> 0%R).
  { rewrite <- RMicromega.Q2R_0. apply RMicromega.Qeq_false. exact Hf. }
  assert (Hn : INR (Z.to_nat n) <> 0%R) by (apply not_0_INR; lia).
  rewrite Q2R_div by (apply Qeq_bool_neq; exact Hf).
  rewrite RMicromega.Q2R_1. field. split; assumption.
Qed.

Lemma period_nth (i : nat) :
  Qeq_bool (Live.stim_freq w) 0 = false -> (i < Z.to_nat n)%nat ->
  nth i (create_stim
           (linspace_open 0 (Q2R (1 / Live.stim_freq w)) (Z.to_nat n))
           (Q2R (Live.stim_freq w)) (Live.sin_stim w) (Live.duty_cycle w)) 0%R
  = (if Live.sin_stim w
     then (sin (2 * PI * (INR i / INR (Z.to_nat n))) + 1) / 2
     else (square (2 * PI * (INR i / INR (Z.to_nat n)))
                  (Live.duty_cycle w / 100) + 1) / 2)%R.
Proof.
  intros Hf Hi. unfold create_stim.
  destruct (Live.sin_stim w).
  - rewrite (@nth_map_in _ _ _ _ i 0%R 0%R)
      by (rewrite linspace_open_length; exact Hi).
    rewrite (@period_phase i Hf Hi). reflexivity.
  - rewrite (@nth_map_in _ _ _ _ i 0%R 0%R)
      by (rewrite linspace_open_length; exact Hi).
    rewrite (@period_phase i Hf Hi). reflexivity.
Qed.

Lemma taper_too_long (vec : list R) (tp : Z) :
  vec <> [] -> (Z.of_nat (List.length vec) < tp)%Z ->
  taper vec tp = Raise ValueError.
Proof.
  intros Hne Hlong. unfold taper, np_linspace.
  destruct (tp <? 0)%Z eqn:E; [apply Z.ltb_lt in E; lia |].
  cbn [bind].
  assert (Hs : slice_bound (Z.of_nat (List.length vec)) (- tp) = 0%Z).
  { unfold slice_bound. destruct (- tp <? 0)%Z eqn:E'; [lia |].
    apply Z.ltb_ge in E'. lia. }
  rewrite Hs. change (Z.to_nat 0) with 0%nat. cbn [skipn firstn].
  assert (Hr : List.length (linspace 1 0 (Z.to_nat tp)) = Z.to_nat tp)
    by apply linspace_length.
  unfold broadcast_mul.
  destruct (Nat.eqb (List.length vec) (List.length (linspace 1 0 (Z.to_nat tp))))
    eqn:El; [apply Nat.eqb_eq in El; lia |].
  destruct (linspace 1 0 (Z.to_nat tp)) as [| r0 [| r1 ramp]];
    [simpl in Hr; lia | simpl in Hr; destruct vec; simpl in *; [congruence | lia] |].
  destruct vec as [| v0 [| v1 vec]]; [congruence | | reflexivity].
  cbn [bind map]. unfold broadcast_to. reflexivity.
Qed.

End LiveOutput.

(** X16.  [output_wave] first stops and closes the task it holds, then
    writes one period of the waveform for continuous replay:
    [n = floor(sample_rate/stim_freq)] samples, sample [i] being the
    waveform at the phase [2*pi*i/n] times the current intensity, the end
    point left out; the new task is held.  With a stimulation frequency
    of 0 it raises [ZeroDivisionError], and with a card that does not
    answer the driver error; in both cases the old task is already
    stopped, no task is held afterwards and nothing has reached the
    card. *)
Theorem output_wave_period (w : Live.widgets) (s : Live.session) (m : world) :
  let n := Z.to_nat (Qfloor (Live.sample_rate w / Live.stim_freq w)) in
  let stopped := Live.stop_task s in
  Live.held stopped = None /\
  (forall t, Live.held s = Some t ->
             Live.closed stopped = Live.closed s ++ [t]) /\
  (Qeq_bool (Live.stim_freq w) 0 = true ->
   Live.output_wave w s m = (Raise ZeroDivisionError, stopped, m)) /\
  (Qeq_bool (Live.stim_freq w) 0 = false ->
   (0 <= Qfloor (Live.sample_rate w / Live.stim_freq w))%Z ->
   (answers m (Live.NI_card w) = false ->
    Live.output_wave w s m = (Raise DaqError, stopped, m)) /\
   (answers m (Live.NI_card w) = true ->
    exists wave,
      Live.output_wave w s m
      = (Ok tt,
         {| Live.held := Some (running_task (Live.NI_card w)
                                            (Live.intensity_ch w));
            Live.closed := Live.closed stopped |},
         {| answers := answers m; files := files m;
            hw_log := hw_log m ++
                      [WriteContinuous (Live.NI_card w) (Live.intensity_ch w)
                         (Live.sample_rate w) wave] |}) /\
      List.length wave = n /\
      forall i, (i < n)%nat ->
        nth i wave 0%R
        = ((if Live.sin_stim w
            then (sin (2 * PI * (INR i / INR n)) + 1) / 2
            else (square (2 * PI * (INR i / INR n))
                         (Live.duty_cycle w / 100) + 1) / 2)
           * Live.cur_intensity w)%R)).
Proof.
  intros n stopped.
  split; [unfold stopped, Live.stop_task; destruct (Live.held s) eqn:E;
          [reflexivity | exact E] |].
  split; [intros t Ht; unfold stopped, Live.stop_task; rewrite Ht; reflexivity |].
  split.
  - intros Hf. unfold Live.output_wave, Live.one_period. rewrite Hf.
    reflexivity.
  - intros Hf Hn. unfold Live.output_wave. fold stopped.
    rewrite (@one_period_returns w Hf Hn).
    unfold analog_out_wave, io_bind, add_ao_voltage_chan, daq, ret.
    split; intros Hans; rewrite Hans; [reflexivity |].
    cbn [answers files hw_log]. rewrite Hans.
    eexists. split; [reflexivity |].
    split.
    + rewrite length_map, create_stim_length, linspace_open_length.
      reflexivity.
    + intros i Hi.
      rewrite (@nth_map_in _ _ (fun v => (v * Live.cur_intensity w)%R) _ i 0%R 0%R)
        by (rewrite create_stim_length, linspace_open_length; exact Hi).
      rewrite (@period_nth w i Hf Hi). reflexivity.
Qed.

Lemma output_wave_period_witness :
  let m := {| answers := fun _ => true; files := empty_fs; hw_log := [] |} in
  let s := {| Live.held := Some (running_task "Dev1" 0); Live.closed := [] |} in
  exists wave,
    Live.output_wave live_example s m
    = (Ok tt,
       {| Live.held := Some (running_task "Dev1" 0);
          Live.closed := [running_task "Dev1" 0] |},
       {| answers := answers m; files := files m;
          hw_log := [WriteContinuous "Dev1" 0 8 wave] |}) /\
    List.length wave = 4%nat.
Proof.
  intros m s.
  destruct (proj2 (proj2 (proj2 (output_wave_period live_example s m))) eq_refl)
    as (_ & H); [vm_compute; discriminate |].
  destruct (H eq_refl) as (wave & Hw & Hlen & _).
  exists wave. split; [exact Hw | exact Hlen].
Defined.

(** X17.  The vector [output_pulse] sends is the scaled period repeated
    [reps = int(pulse_dur * stim_freq / 1000)] times: sample [j] is sample
    [j mod n] of the period times the pulse intensity.  A negative [reps]
    raises [ValueError] when the period has a sample, and leaves the empty
    period empty.  With the taper box ticked the last [taper_points]
    samples are ramped down when the pulse has at least that many
    samples; a taper of zero samples, or one longer than the pulse,
    raises [ValueError] on a non-empty pulse. *)
Theorem pulse_wave_tiles (w : Live.widgets) :
  let n := Z.to_nat (Qfloor (Live.sample_rate w / Live.stim_freq w)) in
  let reps := py_int (Live.pulse_dur w * Live.stim_freq w / 1000) in
  let tp := py_int (Live.taper_dur w * Live.sample_rate w) in
  Qeq_bool (Live.stim_freq w) 0 = false ->
  (0 <= Qfloor (Live.sample_rate w / Live.stim_freq w))%Z ->
  exists period,
    Live.one_period w = Ok period /\
    List.length period = n /\
    let tiled :=
      np_tile (map (fun v => (v * Live.pulse_intensity w)%R) period)
              (Z.to_nat reps) in
    ((reps < 0)%Z -> (1 <= n)%nat -> Live.pulse_wave w = Raise ValueError) /\
    ((reps < 0)%Z -> n = 0%nat -> Live.include_taper w = false ->
     Live.pulse_wave w = Ok []) /\
    ((0 <= reps)%Z ->
     List.length tiled = (Z.to_nat reps * n)%nat /\
     (forall j, (j < Z.to_nat reps * n)%nat ->
        nth j tiled 0%R
        = (nth (j mod n) period 0 * Live.pulse_intensity w)%R) /\
     (Live.include_taper w = false -> Live.pulse_wave w = Ok tiled) /\
     (Live.include_taper w = true ->
      ((1 <= tp <= Z.of_nat (List.length tiled))%Z ->
       Live.pulse_wave w
       = Ok (scale_tail tiled (linspace 1 0 (Z.to_nat tp)))) /\
      (tiled <> [] -> (tp = 0 \/ Z.of_nat (List.length tiled) < tp)%Z ->
       Live.pulse_wave w = Raise ValueError))).
Proof.
  intros n reps tp Hf Hn.
  eexists. split; [exact (@one_period_returns w Hf Hn) |].
  set (period := create_stim _ _ _ _).
  assert (Hlen : List.length period = n).
  { unfold period. rewrite create_stim_length, linspace_open_length.
    reflexivity. }
  split; [exact Hlen |].
  intros tiled. unfold Live.pulse_wave.
  rewrite (@one_period_returns w Hf Hn). fold period. cbn [bind].
  fold reps tp.
  split; [| split].
  - intros Hr Hn1.
    destruct period as [| v period']; [simpl in Hlen; lia |].
    cbn [map]. destruct (reps <? 0)%Z eqn:E; [reflexivity |].
    apply Z.ltb_ge in E. lia.
  - intros Hr Hn0 Ht.
    destruct period as [| v period']; [| simpl in Hlen; lia].
    cbn [map bind]. rewrite Ht. reflexivity.
  - intros Hr.
    assert (Hwave :
              match map (fun v => (v * Live.pulse_intensity w)%R) period with
              | [] => Ok []
              | _ :: _ => if (reps <? 0)%Z then Raise ValueError
                          else Ok tiled
              end = Ok tiled).
    { destruct (map (fun v => (v * Live.pulse_intensity w)%R) period)
        as [| v wave] eqn:Ew.
      - unfold tiled. rewrite ?Ew. unfold np_tile.
        induction (Z.to_nat reps) as [| k IH]; [reflexivity |].
        cbn [repeat List.concat app]. exact IH.
      - destruct (reps <? 0)%Z eqn:E; [apply Z.ltb_lt in E; lia |].
        reflexivity. }
    fold tiled. rewrite Hwave. cbn [bind].
    assert (Htl : List.length tiled = (Z.to_nat reps * n)%nat).
    { unfold tiled. rewrite np_tile_length, length_map, Hlen. reflexivity. }
    split; [exact Htl |].
    split.
    + intros j Hj. unfold tiled.
      rewrite np_tile_nth by (rewrite length_map, Hlen; exact Hj).
      rewrite length_map, Hlen.
      apply (@nth_map_in _ _ (fun v => (v * Live.pulse_intensity w)%R)
               period (j mod n) 0%R 0%R).
      rewrite Hlen. apply Nat.mod_upper_bound. lia.
    + split; intros Ht; rewrite Ht; [reflexivity |].
      split.
      * intros Htp. apply taper_ok. exact Htp.
      * intros Hne [Htp | Htp].
        -- rewrite Htp. apply taper_zero. exact Hne.
        -- apply taper_too_long; assumption.
Qed.

Lemma pulse_wave_tiles_witness :
  (exists wave, Live.pulse_wave live_example = Ok wave /\
                List.length wave = 12%nat) /\
  Live.pulse_wave
    {| Live.NI_card := "Dev1"; Live.intensity_ch := 0;
       Live.sample_rate := 8; Live.stim_freq := 2;
       Live.sin_stim := true; Live.duty_cycle := 50;
       Live.cur_intensity := 3; Live.pulse_intensity := 2;
       Live.pulse_dur := 1500; Live.include_taper := true;
       Live.taper_dur := 0 |}
  = Raise ValueError /\
  Live.pulse_wave
    {| Live.NI_card := "Dev1"; Live.intensity_ch := 0;
       Live.sample_rate := 10; Live.stim_freq := 20;
       Live.sin_stim := true; Live.duty_cycle := 50;
       Live.cur_intensity := 3; Live.pulse_intensity := 2;
       Live.pulse_dur := -100; Live.include_taper := false;
       Live.taper_dur := 0 |}
  = Ok [].
Proof.
  split; [| split].
  - destruct (@pulse_wave_tiles live_example eq_refl)
      as (period & Hp & Hlen & _ & _ & H); [vm_compute; discriminate |].
    destruct H as (Htl & _ & _ & Ht); [vm_compute; discriminate |].
    destruct (Ht eq_refl) as (Hok & _).
    eexists. split.
    + apply Hok. rewrite Htl. split; [vm_compute; discriminate |].
      apply Z.leb_le. reflexivity.
    + rewrite scale_tail_length; [exact Htl |].
      rewrite linspace_length, Htl. apply Nat.leb_le. reflexivity.
  - match goal with |- Live.pulse_wave ?w = _ =>
      destruct (@pulse_wave_tiles w eq_refl)
        as (period & Hp & Hlen & _ & _ & H); [vm_compute; discriminate |]
    end.
    destruct H as (Htl & _ & _ & Ht); [vm_compute; discriminate |].
    destruct (Ht eq_refl) as (_ & Hbad).
    apply Hbad; [| left; reflexivity].
    intros E. apply (f_equal (@List.length R)) in E.
    rewrite Htl in E. discriminate E.
  - match goal with |- Live.pulse_wave ?w = _ =>
      destruct (@pulse_wave_tiles w eq_refl)
        as (period & Hp & Hlen & _ & Hempty & _); [vm_compute; discriminate |]
    end.
    apply Hempty; reflexivity.
Defined.

(** ** Files that do not come back as they were saved *)

Section CsvEdges.

Local Open Scope string_scope.

Lemma write_rows_app (pre rest : list table_row) (text : string) :
  write_rows pre = (text, Ok tt) ->
  write_rows (pre ++ rest)%list
  = (let (text', res) := write_rows rest in (text ++ text', res)).
Proof.
  revert text. induction pre as [| r pre IH]; intros text H.
  - cbn [write_rows] in H. injection H as <-.
    cbn [app]. destruct (write_rows rest). reflexivity.
  - cbn [app]. rewrite write_rows_cons in *.
    destruct (write_row r) as [line [[] | e]]; [| discriminate].
    destruct (write_rows pre) as [t res] eqn:E.
    injection H as <- ->.
    rewrite (IH t eq_refl). destruct (write_rows rest) as [t' res'].
    rewrite string_app_assoc. reflexivity.
Qed.

(** Loading a text that starts with saved complete rows loads those rows
    and goes on with the rest. *)
Lemma load_saved_prefix (table : list table_row) :
  Forall plain_row table ->
  exists text,
    write_rows table = (text, Ok tt) /\
    contains CR text = false /\
    forall rest acc,
      load_lines (lines (text ++ rest)) acc
      = load_lines (lines rest) (acc ++ table)%list.
Proof.
  induction 1 as [| r table Hr _ IH].
  - exists EmptyString. repeat split. intros rest acc.
    rewrite app_nil_r. reflexivity.
  - destruct IH as (text & Hw & Hcr & Hload).
    destruct (plain_row_inv Hr)
      as (h & c0 & c1 & c2 & c3 & -> & Hh & H0 & H1 & H2 & H3).
    unfold plain in *.
    destruct Hh as (Hh1 & Hh2 & Hh3), H0 as (H01 & H02 & H03),
      H1 as (H11 & H12 & H13), H2 as (H21 & H22 & H23),
      H3 as (H31 & H32 & H33).
    rewrite write_rows_cons, write_row_plain, Hw.
    eexists. split; [reflexivity |]. split.
    + repeat (rewrite ?contains_app; simpl).
      rewrite Hh3, H03, H13, H23, H33, Hcr. reflexivity.
    + intros rest acc.
      set (body := h ++ String comma (c0 ++ String comma (c1 ++ String comma
                     (c2 ++ String comma (c3 ++ String comma EmptyString))))).
      assert (E : ((h ++ String comma (c0 ++ String comma (c1 ++ String comma
                     (c2 ++ String comma (c3 ++ String comma (String LF EmptyString))))))
                  ++ text) ++ rest = body ++ String LF (text ++ rest)).
      { unfold body. rewrite !append_cons_assoc. reflexivity. }
      rewrite E, lines_app.
      2:{ unfold body. repeat (rewrite ?contains_app; simpl).
          rewrite Hh2, H02, H12, H22, H32. reflexivity. }
      cbn [load_lines].
      assert (S : split_comma (body ++ String LF EmptyString)
                  = [h; c0; c1; c2; c3; String LF EmptyString]).
      { unfold body. rewrite !append_cons_assoc.
        rewrite !split_comma_app by assumption. reflexivity. }
      rewrite S. cbn [set_items]. rewrite Hload, <- app_assoc. reflexivity.
Qed.

Lemma split_comma_cons (s : string) :
  exists h fields, split_comma s = h :: fields.
Proof.
  induction s as [| a s (h & fields & IH)]; [exists EmptyString, []; reflexivity |].
  cbn [split_comma]. destruct (Ascii.eqb a comma).
  - eexists. eexists. reflexivity.
  - rewrite IH. eexists. eexists. reflexivity.
Qed.

Lemma set_items_short (n : nat) (fields : list string) :
  (List.length fields < n)%nat ->
  set_items n fields = (fields, Raise IndexError).
Proof.
  revert fields. induction n as [| n IH]; intros fields H; [lia |].
  destruct fields as [| f fields]; [reflexivity |].
  cbn [set_items]. rewrite IH by (simpl in H; lia). reflexivity.
Qed.

Lemma write_cells_short (n : nat) (items : list string) :
  (List.length items < n)%nat ->
  write_cells n items
  = (fold_right (fun c text => c ++ String comma text) EmptyString items,
     Raise AttributeError).
Proof.
  revert items. induction n as [| n IH]; intros items H; [lia |].
  destruct items as [| c items]; [reflexivity |].
  cbn [write_cells]. rewrite IH by (simpl in H; lia). reflexivity.
Qed.

End CsvEdges.

(** X18.  A comma in a target name is saved as it is and read back as a
    column break: the name is cut at the comma, the rest of it becomes
    the intensity, every other column moves one place to the right and
    the group is dropped.  Neither saving nor loading raises, and the
    rows around it come back unchanged. *)
Theorem comma_in_name_shifts (fname h1 h2 c0 c1 c2 c3 : string)
        (pre post prior : list table_row) (fs : filesystem) :
  fname <> EmptyString ->
  Forall plain_row pre -> Forall plain_row post ->
  plain h1 -> plain h2 -> Forall plain [c0; c1; c2; c3] ->
  let saved :=
    (pre ++ {| header := h1 ++ String comma h2; cells := [c0; c1; c2; c3] |}
         :: post)%list in
  snd (save_all fname saved fs) = Ok tt /\
  load_all fname prior (fst (save_all fname saved fs))
  = ((pre ++ {| header := h1; cells := [h2; c0; c1; c2] |} :: post)%list,
     Ok tt).
Proof.
  intros Hname Hpre Hpost Hh1 Hh2 Hcells saved.
  destruct (load_saved_prefix Hpre) as (t1 & Hw1 & Hcr1 & Hload1).
  destruct (load_saved_prefix Hpost) as (t2 & Hw2 & Hcr2 & Hload2).
  inversion Hcells as [| ? ? H0 Hc1]; subst.
  inversion Hc1 as [| ? ? H1 Hc2]; subst.
  inversion Hc2 as [| ? ? H2 Hc3]; subst.
  inversion Hc3 as [| ? ? H3 _]; subst.
  unfold plain in *.
  destruct Hh1 as (Ha1 & Ha2 & Ha3), Hh2 as (Hb1 & Hb2 & Hb3),
    H0 as (H01 & H02 & H03), H1 as (H11 & H12 & H13),
    H2 as (H21 & H22 & H23), H3 as (H31 & H32 & H33).
  assert (Hw : write_rows saved
               = ((t1 ++ ((h1 ++ String comma (h2 ++ String comma (c0 ++ String comma
                     (c1 ++ String comma (c2 ++ String comma (c3 ++ String comma
                        EmptyString))))))
                          ++ String LF t2))%string, Ok tt)).
  { unfold saved. rewrite (@write_rows_app pre _ t1 Hw1), write_rows_cons,
      write_row_plain, Hw2.
    cbn [header]. rewrite !append_cons_assoc. reflexivity. }
  unfold save_all, load_all.
  apply String.eqb_neq in Hname. rewrite Hname, Hw. cbn [fst snd].
  split; [reflexivity |].
  rewrite String.eqb_refl, universal_newlines_id.
  2:{ repeat (rewrite ?contains_app; cbn [contains]).
      rewrite Hcr1, Ha3, Hb3, H03, H13, H23, H33, Hcr2. reflexivity. }
  rewrite Hload1, lines_app.
  2:{ repeat (rewrite ?contains_app; cbn [contains]).
      rewrite Ha2, Hb2, H02, H12, H22, H32. reflexivity. }
  cbn [load_lines].
  rewrite !append_cons_assoc, !split_comma_app by assumption.
  cbn [set_items].
  specialize (Hload2 EmptyString).
  replace (t2 ++ EmptyString)%string with t2 in Hload2
    by (clear; induction t2 as [| a s IH]; simpl; [| rewrite <- IH]; reflexivity).
  rewrite Hload2. cbn [lines load_lines]. rewrite <- app_assoc. reflexivity.
Qed.

Lemma comma_in_name_shifts_witness :
  load_all "t.csv" []
    (fst (save_all "t.csv"
            [{| header := "M1,left"; cells := ["5"; "1"; "2"; "0"]%string |}]
            empty_fs))
  = ([{| header := "M1"; cells := ["left"; "5"; "1"; "2"]%string |}], Ok tt).
Proof.
  apply (@comma_in_name_shifts "t.csv" "M1" "left" "5" "1" "2" "0" [] [] []
           empty_fs).
  - discriminate.
  - constructor.
  - constructor.
  - repeat split.
  - repeat split.
  - repeat constructor.
Defined.

(** X19.  Loading stops at the first line with fewer than four commas
    after the name, a blank line included: [load_all] raises [IndexError],
    the rows of the lines before it are in the table, the row of the
    short line is left with the items it had, the lines after it are not
    read, and the table that was there before is gone. *)
Theorem load_short_line (fname line rest : string)
        (good prior : list table_row) (fs : filesystem) :
  fname <> EmptyString ->
  Forall plain_row good ->
  contains LF line = false ->
  contains CR (line ++ String LF rest) = false ->
  (List.length (split_comma (line ++ String LF EmptyString)) <= 4)%nat ->
  fs fname = Some (fst (write_rows good) ++ line ++ String LF rest)%string ->
  load_all fname prior fs
  = ((good ++ [{| header := hd EmptyString
                               (split_comma (line ++ String LF EmptyString));
                  cells := tl (split_comma (line ++ String LF EmptyString)) |}])%list,
     Raise IndexError).
Proof.
  intros Hname Hgood Hlf Hcr Hshort Hfile.
  destruct (load_saved_prefix Hgood) as (text & Hw & Hcrt & Hload).
  rewrite Hw in Hfile. cbn [fst] in Hfile.
  unfold load_all. apply String.eqb_neq in Hname. rewrite Hname, Hfile.
  rewrite universal_newlines_id
    by (rewrite contains_app, Hcrt, Hcr; reflexivity).
  rewrite Hload, lines_app by exact Hlf.
  cbn [load_lines app].
  destruct (split_comma_cons (line ++ String LF EmptyString))
    as (h & fields & E).
  rewrite E in *. cbn [hd tl].
  rewrite set_items_short by (simpl in Hshort; lia).
  reflexivity.
Qed.

Lemma load_short_line_witness :
  load_all "t.csv" plain_table
    (fun _ => Some ("A,5,1,1,0," ++ String LF ("B,10,2" ++ String LF
                    ("C,10,-2,2,1," ++ String LF EmptyString)))%string)
  = ([{| header := "A"; cells := ["5"; "1"; "1"; "0"]%string |};
      {| header := "B"; cells := ["10"; String "2" (String LF EmptyString)]%string |}],
     Raise IndexError).
Proof.
  apply (@load_short_line "t.csv" "B,10,2"
           ("C,10,-2,2,1," ++ String LF EmptyString)%string
           [{| header := "A"; cells := ["5"; "1"; "1"; "0"]%string |}]
           plain_table
           (fun _ => Some ("A,5,1,1,0," ++ String LF ("B,10,2" ++ String LF
                    ("C,10,-2,2,1," ++ String LF EmptyString)))%string)).
  - discriminate.
  - repeat constructor.
  - reflexivity.
  - reflexivity.
  - apply Nat.leb_le. reflexivity.
  - reflexivity.
Defined.

(** X20.  Saving a table with a row in which fewer than four items are
    set (the row a failed load leaves) raises [AttributeError] after the
    file has been opened for writing: the file then holds the rows before
    it, the name and the items of that row, and none of the rows after
    it. *)
Theorem save_incomplete_row (fname : string) (pre post : list table_row)
        (r : table_row) (fs : filesystem) :
  fname <> EmptyString ->
  Forall plain_row pre ->
  (List.length (cells r) < 4)%nat ->
  snd (save_all fname (pre ++ r :: post) fs) = Raise AttributeError /\
  fst (save_all fname (pre ++ r :: post) fs) fname
  = Some (fst (write_rows pre) ++ header r
          ++ String comma
               (fold_right (fun c text => c ++ String comma text)%string
                           EmptyString (cells r)))%string.
Proof.
  intros Hname Hpre Hr.
  destruct (load_saved_prefix Hpre) as (t1 & Hw1 & _ & _).
  assert (Hw : write_rows (pre ++ r :: post)
               = ((t1 ++ header r
                   ++ String comma
                        (fold_right (fun c text => c ++ String comma text)%string
                                    EmptyString (cells r)))%string,
                  Raise AttributeError)).
  { rewrite (@write_rows_app pre _ t1 Hw1), write_rows_cons.
    unfold write_row. rewrite (write_cells_short _ Hr). reflexivity. }
  unfold save_all. apply String.eqb_neq in Hname.
  rewrite Hname, Hw, Hw1. cbn [fst snd]. rewrite String.eqb_refl.
  split; reflexivity.
Qed.

Lemma save_incomplete_row_witness :
  let table := [{| header := "A"; cells := ["5"; "1"; "1"; "0"]%string |};
                {| header := "B"; cells := ["10"; "2"]%string |};
                {| header := "C"; cells := ["10"; "-2"; "2"; "1"]%string |}] in
  snd (save_all "t.csv" table empty_fs) = Raise AttributeError /\
  fst (save_all "t.csv" table empty_fs) "t.csv"%string
  = Some ("A,5,1,1,0," ++ String LF "B,10,2,")%string.
Proof.
  intros table.
  apply (@save_incomplete_row "t.csv"
           [{| header := "A"; cells := ["5"; "1"; "1"; "0"]%string |}]
           [{| header := "C"; cells := ["10"; "-2"; "2"; "1"]%string |}]
           {| header := "B"; cells := ["10"; "2"]%string |} empty_fs).
  - discriminate.
  - repeat constructor.
  - apply Nat.ltb_lt. reflexivity.
Defined.

(** ** The ends of the duty cycle and the first sample *)

Section Onset.

Local Open Scope R_scope.

Lemma square_no_duty (t : R) : square t 0 = -1.
Proof.
  unfold square. destruct (Rlt_dec _ _) as [H |]; [| reflexivity].
  exfalso.
  assert (H2 : 0 < 2 * PI) by (pose proof PI_RGT_0; lra).
  pose proof (np_mod_bounds t H2). lra.
Qed.

Lemma np_mod_zero (b : R) : np_mod 0 b = 0.
Proof.
  unfold np_mod. replace (0 / b) with (INR 0) by (simpl; unfold Rdiv; ring).
  rewrite Int_part_INR. simpl. ring.
Qed.

Lemma square_onset (duty : R) : 0 < duty -> square 0 duty = 1.
Proof.
  intros Hd. unfold square. rewrite np_mod_zero.
  destruct (Rlt_dec _ _) as [_ | H]; [reflexivity |].
  exfalso. apply H. pose proof PI_RGT_0. nra.
Qed.

Lemma stim_of_first (ui : ui_state) :
  (1 <= n_samples ui)%nat ->
  (sin_stim ui = true -> nth 0 (stim_of ui) 0 = 1 / 2) /\
  (sin_stim ui = false -> 0 < duty_cycle ui -> nth 0 (stim_of ui) 0 = 1).
Proof.
  intros Hn. rewrite (@stim_of_nth ui 0%nat) by lia. cbv zeta.
  replace (2 * PI * (INR 0 * (Q2R (on_dur ui + taper_dur ui)
                               / INR (n_samples ui - 1))) * stim_freq ui)
    with 0 by (simpl; ring).
  split; intros Hs; rewrite Hs.
  - rewrite sin_0. lra.
  - intros Hd. rewrite square_onset by lra. lra.
Qed.

End Onset.

(** X21.  The two ends of the duty cycle of the square wave: at 100 the
    waveform is 1 at every sample and at 0 it is 0 at every sample,
    whatever the times and the frequency. *)
Theorem duty_cycle_ends (times : list R) (freq : R) :
  create_stim times freq false 100 = repeat 1%R (List.length times) /\
  create_stim times freq false 0 = repeat 0%R (List.length times).
Proof.
  unfold create_stim. split; induction times as [| t times IH];
    try reflexivity; cbn [map List.length repeat]; rewrite IH; f_equal.
  - replace (100 / 100)%R with 1%R by lra. rewrite square_full_duty. lra.
  - replace (0 / 100)%R with 0%R by lra. rewrite square_no_duty. lra.
Qed.

(** X22.  The first sample of a single-target row, on a run with at least
    one on-sample and one taper sample: a sine starts at half the
    intensity of the target, not at zero, and a square wave with a duty
    cycle above 0 starts at the full intensity. *)
Theorem waveform_onset (ui : ui_state) (out : output) (g : nat) :
  create_output ui = Ok out ->
  (g < List.length (intensity_matrix out))%nat ->
  multi_site ui (Z.of_nat g) = false ->
  (1 <= on_points ui)%Z -> (1 <= taper_points ui)%Z ->
  exists row rest,
    members (Z.of_nat g) (targets_table ui) = row :: rest /\
    (sin_stim ui = true ->
     nth 0 (nth g (intensity_matrix out) []) 0%R = (intensity row / 2)%R) /\
    (sin_stim ui = false -> (0 < duty_cycle ui)%R ->
     nth 0 (nth g (intensity_matrix out) []) 0%R = intensity row).
Proof.
  intros Hout Hg Hm Hon Htp.
  assert (Hrow := @out_row ui out g Hout Hg).
  destruct (@build_group_single ui _ _ _ _ _ Hm Hrow)
    as (tap & row & rest & Hrows & Ht & _ & _ & Hi).
  rewrite (@taper_tapered_stim ui ltac:(lia) Htp) in Ht. injection Ht as <-.
  exists row, rest. split; [exact Hrows |].
  assert (Hn : (1 <= n_samples ui)%nat) by (unfold n_samples; lia).
  assert (Hlen : List.length (tapered_stim ui) = n_samples ui)
    by (apply tapered_stim_length; lia).
  assert (Hhead : nth 0 (tapered_stim ui) 0%R = nth 0 (stim_of ui) 0%R).
  { apply tapered_stim_head. unfold n_samples. lia. }
  destruct (@stim_of_first ui Hn) as (Hsin & Hsq).
  rewrite Hi.
  rewrite (@nth_map_in _ _ (fun v => (v * intensity row)%R) (tapered_stim ui)
             0%nat 0%R 0%R) by lia.
  rewrite Hhead.
  split.
  - intros Hs. rewrite (Hsin Hs). lra.
  - intros Hs Hd. rewrite (Hsq Hs Hd). lra.
Qed.

Lemma waveform_onset_witness :
  exists row rest,
    members 0 (targets_table sine_run) = row :: rest /\
    nth 0 (nth 0 (intensity_matrix (built_output sine_run)) []) 0%R
    = (intensity row / 2)%R.
Proof.
  destruct (@waveform_onset sine_run (built_output sine_run) 0)
    as (row & rest & Hrows & Hsin & _).
  - exact (create_output_ok sine_run_buildable).
  - apply Nat.ltb_lt. reflexivity.
  - reflexivity.
  - vm_compute. discriminate.
  - vm_compute. discriminate.
  - exists row, rest. split; [exact Hrows | exact (Hsin eq_refl)].
Defined.
